(** * OpenClaw Mission Control: the gateway client of [api-proxy.js]

    A shallow embedding of the WebSocket gateway client (the module-level
    variables [gwSocket], [gwReady], [gwPending], [gwReqId], [gwEvents],
    [gwReconnectTimer], [gwSnapshot] and the functions [gwConnect],
    [gwSendConnect], [gwCall] with the socket handlers they install),
    followed by the properties of its request correlator, event buffer and
    reconnect scheduler.

    Modelling conventions.
    - The module-level variables are the fields of [State]; every function
      of the source is a function on [State].
    - Closures are defunctionalised: the [resolve]/[reject] pair stored in a
      pending entry is an [EntryKind], the callback given to [setTimeout] is
      a [TimerAction].
    - The Node.js timer table, the promise counter, the monotonic clock and
      the log of callback invocations ([delivered]) are part of [State]; the
      log is instrumentation, it records every invocation of a [resolve] or
      [reject] function together with the code path that made it.
    - The [ws] socket is an external object; it is modelled by its
      [readyState], the frames handed to [send] while open, and the
      arguments of [close].
    - [console.log] has no effect on the state and is left out.
    - A function that can throw returns a [res]. Nothing catches an
      exception that leaves a socket handler, so it ends the process: the
      event loop ([exec]) has no next state then.
    - An [Error] holds its message as a string: [new Error(x)] converts
      [x] with the ECMAScript operation [ToString], which can throw.
    - One socket is alive at a time: [gwConnect] runs when the server
      starts and when the reconnect timer fires, and that timer is armed
      only by the close handler, after [gwSocket] has been set to null
      ([inv_reconnect_armed] below); [State] therefore holds the socket
      [gwSocket] refers to, and socket events are those of that socket.
    - The [method] argument of [gwCall] is a string, the name of the RPC
      method.
    - [gwReqId] is a JavaScript number: [incr] is exact up to 2^53 and
      stays there. *)

From stdpp Require Import gmap strings list fin_maps pretty.
From Stdlib Require Import ZArith Lia Ascii.

Local Set Warnings "-register-all".
Local Open Scope string_scope.
Local Open Scope list_scope.

(** ** JSON values, as produced by [JSON.parse] *)

Module Json.

(** Numbers are restricted to the integer-valued ones (the code tests
    numbers for truthiness, stores [Date.now()] and turns an error message
    into a string); an integer that no JavaScript number holds exactly
    stands for the number nearest to it, which is what [JSON.parse] makes
    of such a literal. Strings hold UTF-8, a surrogate that stands alone
    as the three bytes of its code unit. *)
Inductive json :=
| JNull
| JBool (b : bool)
| JNum (z : Z)
| JStr (s : string)
| JArr (l : list json)
| JObj (m : gmap string json).

(** JavaScript truthiness of a defined value. *)
Definition truthy (v : json) : bool :=
  match v with
  | JNull => false
  | JBool b => b
  | JNum z => negb (z =? 0)%Z
  | JStr s => match s with EmptyString => false | _ => true end
  | JArr _ | JObj _ => true
  end.

(** Truthiness of a possibly [undefined] value ([None] is [undefined]). *)
Definition truthy_opt (v : option json) : bool :=
  match v with Some x => truthy x | None => false end.

(** [v.k] for a non-null [v]: an own property of an object. None of the
    keys the code reads ([type], [event], [id], [ok], [payload], [result],
    [error], [message], [nonce], [snapshot]) exists on a string, an array,
    a number or a boolean. *)
Definition get (k : string) (v : json) : option json :=
  match v with JObj m => m !! k | _ => None end.

(** [v?.k]: optional chaining, [undefined] on [null] and [undefined]. *)
Definition get_opt (k : string) (v : option json) : option json :=
  match v with Some x => get k x | None => None end.

(** [a || b] where [b] is a defined value. *)
Definition or_else (a : option json) (b : json) : json :=
  match a with
  | Some x => if truthy x then x else b
  | None => b
  end.

(** [a || b] where both may be [undefined]. *)
Definition or_opt (a b : option json) : option json :=
  if truthy_opt a then a else b.

(** [v === 'lit'] *)
Definition is_str (lit : string) (v : option json) : bool :=
  match v with Some (JStr s) => bool_decide (s = lit) | _ => false end.

(** [v !== false] *)
Definition not_false (v : option json) : bool :=
  match v with Some (JBool false) => false | _ => true end.

Definition indexed (l : list json) : gmap string json :=
  list_to_map (imap (fun i v => (pretty i, v)) l).

(** The three bytes of the surrogate [u] (0xD800 to 0xDFFF). *)
Definition surrogate (u : N) : string :=
  String (ascii_of_N (N.lor 224 (N.shiftr u 12)))
    (String (ascii_of_N (N.lor 128 (N.land (N.shiftr u 6) 63)))
       (String (ascii_of_N (N.lor 128 (N.land u 63))) EmptyString)).

(** The UTF-16 code units of a string, each as a string of its own: what
    the indices of a JavaScript string give. A character of one, two or
    three bytes is one unit; a character of four bytes is two units, its
    high and low surrogate. (A byte that starts no character, which UTF-8
    text does not contain, counts as a unit.) *)
Fixpoint units (s : string) : list json :=
  match s with
  | EmptyString => []
  | String c1 s1 =>
      let b1 := N_of_ascii c1 in
      let single := JStr (String c1 EmptyString) :: units s1 in
      if (b1 <? 192)%N then single
      else if (b1 <? 224)%N then
        match s1 with
        | String c2 s2 => JStr (String c1 (String c2 EmptyString)) :: units s2
        | _ => single
        end
      else if (b1 <? 240)%N then
        match s1 with
        | String c2 (String c3 s3) =>
            JStr (String c1 (String c2 (String c3 EmptyString))) :: units s3
        | _ => single
        end
      else
        match s1 with
        | String c2 (String c3 (String c4 s4)) =>
            let cp := (N.shiftl (N.land b1 7) 18
                       + N.shiftl (N.land (N_of_ascii c2) 63) 12
                       + N.shiftl (N.land (N_of_ascii c3) 63) 6
                       + N.land (N_of_ascii c4) 63)%N in
            let v := (cp - 65536)%N in
            JStr (surrogate (55296 + N.shiftr v 10))
              :: JStr (surrogate (56320 + N.land v 1023)) :: units s4
        | _ => single
        end
  end.

(** The own enumerable properties copied by an object spread [{...v}]:
    those of an object, the indices of an array or of a string, nothing
    for [null], a boolean or a number. *)
Definition spread (v : json) : gmap string json :=
  match v with
  | JObj m => m
  | JArr l => indexed l
  | JStr s => indexed (units s)
  | _ => ∅
  end.

(** [mentions k v]: the string [k] occurs as a string value somewhere
    inside [v]. *)
Fixpoint mentions (k : string) (v : json) : bool :=
  match v with
  | JStr s => bool_decide (s = k)
  | JArr l => existsb (mentions k) l
  | JObj m => map_fold (fun _ x acc => mentions k x || acc) false m
  | _ => false
  end.

(** An object literal. *)
Definition obj (fields : list (string * json)) : json :=
  JObj (list_to_map fields).

End Json.
Export Json.

(** ** A JavaScript [Map] with string keys

    Insertion-ordered: [set] on a present key keeps its position, on a new
    key appends; iteration follows the list. *)

Module JsMap.
Section ops.
Context {V : Type}.

Fixpoint get (k : string) (m : list (string * V)) : option V :=
  match m with
  | [] => None
  | (k', v) :: m' => if decide (k = k') then Some v else get k m'
  end.

Fixpoint set (k : string) (v : V) (m : list (string * V)) : list (string * V) :=
  match m with
  | [] => [(k, v)]
  | (k', v') :: m' =>
      if decide (k = k') then (k, v) :: m' else (k', v') :: set k v m'
  end.

Fixpoint delete (k : string) (m : list (string * V)) : list (string * V) :=
  match m with
  | [] => []
  | (k', v') :: m' =>
      if decide (k = k') then delete k m' else (k', v') :: delete k m'
  end.
End ops.
End JsMap.

(** ** The state of the client *)

Inductive ReadyState := CONNECTING | OPEN | CLOSING | CLOSED.

(** The [ws] socket: [outbox] collects the frames passed to [send] while
    the socket is open (the argument of [JSON.stringify]), [closeArgs] the
    arguments of the [close] call that started the closing handshake. *)
Record WebSocket := {
  readyState : ReadyState;
  outbox : list json;
  closeArgs : option (Z * string)
}.

(** An [Error] object; [message] is its message property, a string (the
    constructor converts its argument, see [new_Error]). *)
Inductive error := Error (message : string).

Inductive outcome := Resolved (value : json) | Rejected (e : error).

(** Whose callback is invoked: the promise returned by the [gwCall] numbered
    [p], or the [resolve]/[reject] pair of the connect request. *)
Inductive target := Caller (p : N) | Handshake.

(** The code path that invoked it. *)
Inductive cause :=
| ByResponse      (* message handler, RPC response branch *)
| ByTimeout       (* the timer armed by gwCall *)
| ByClose         (* close handler, "Reject all pending" *)
| ByGuard         (* gwCall, "not connected to gateway" *)
| ByThrow.        (* exception escaping the promise executor *)

Record delivery := {
  d_target : target;
  d_cause : cause;
  d_outcome : outcome
}.

(** The pair [resolve]/[reject] of a pending entry. *)
Inductive EntryKind :=
| ECall (p : N)   (* the resolve/reject of gwCall's promise *)
| EAuth.          (* the two callbacks written in gwSendConnect *)

(** [{ resolve, reject, timer }] *)
Record PendingEntry := {
  kind : EntryKind;
  timer : N
}.

(** The callbacks handed to [setTimeout]. *)
Inductive TimerAction :=
| TCall (id method : string) (p : N)
| TAuth (id : string)
| TReconnect.

Record Timer := {
  due : N;
  action : TimerAction
}.

(** [process.platform] and the [TOKEN] constant. *)
Record ProcessEnv := {
  TOKEN : string;
  platform : string
}.

Record State := {
  gwSocket : option WebSocket;
  gwReady : bool;
  gwPending : list (string * PendingEntry);
  gwReqId : N;
  gwEvents : list json;
  gwReconnectTimer : option N;
  gwSnapshot : json;
  (* runtime *)
  timers : gmap N Timer;
  nextTimer : N;
  nextPromise : N;
  clock : N;
  delivered : list delivery;
  penv : ProcessEnv
}.

Definition set_gwSocket (x : option WebSocket) (s : State) : State :=
  {| gwSocket := x; gwReady := gwReady s; gwPending := gwPending s;
     gwReqId := gwReqId s; gwEvents := gwEvents s;
     gwReconnectTimer := gwReconnectTimer s; gwSnapshot := gwSnapshot s;
     timers := timers s; nextTimer := nextTimer s;
     nextPromise := nextPromise s; clock := clock s;
     delivered := delivered s; penv := penv s |}.

Definition set_gwReady (x : bool) (s : State) : State :=
  {| gwSocket := gwSocket s; gwReady := x; gwPending := gwPending s;
     gwReqId := gwReqId s; gwEvents := gwEvents s;
     gwReconnectTimer := gwReconnectTimer s; gwSnapshot := gwSnapshot s;
     timers := timers s; nextTimer := nextTimer s;
     nextPromise := nextPromise s; clock := clock s;
     delivered := delivered s; penv := penv s |}.

Definition set_gwPending (x : list (string * PendingEntry)) (s : State) : State :=
  {| gwSocket := gwSocket s; gwReady := gwReady s; gwPending := x;
     gwReqId := gwReqId s; gwEvents := gwEvents s;
     gwReconnectTimer := gwReconnectTimer s; gwSnapshot := gwSnapshot s;
     timers := timers s; nextTimer := nextTimer s;
     nextPromise := nextPromise s; clock := clock s;
     delivered := delivered s; penv := penv s |}.

Definition set_gwReqId (x : N) (s : State) : State :=
  {| gwSocket := gwSocket s; gwReady := gwReady s; gwPending := gwPending s;
     gwReqId := x; gwEvents := gwEvents s;
     gwReconnectTimer := gwReconnectTimer s; gwSnapshot := gwSnapshot s;
     timers := timers s; nextTimer := nextTimer s;
     nextPromise := nextPromise s; clock := clock s;
     delivered := delivered s; penv := penv s |}.

Definition set_gwEvents (x : list json) (s : State) : State :=
  {| gwSocket := gwSocket s; gwReady := gwReady s; gwPending := gwPending s;
     gwReqId := gwReqId s; gwEvents := x;
     gwReconnectTimer := gwReconnectTimer s; gwSnapshot := gwSnapshot s;
     timers := timers s; nextTimer := nextTimer s;
     nextPromise := nextPromise s; clock := clock s;
     delivered := delivered s; penv := penv s |}.

Definition set_gwReconnectTimer (x : option N) (s : State) : State :=
  {| gwSocket := gwSocket s; gwReady := gwReady s; gwPending := gwPending s;
     gwReqId := gwReqId s; gwEvents := gwEvents s;
     gwReconnectTimer := x; gwSnapshot := gwSnapshot s;
     timers := timers s; nextTimer := nextTimer s;
     nextPromise := nextPromise s; clock := clock s;
     delivered := delivered s; penv := penv s |}.

Definition set_gwSnapshot (x : json) (s : State) : State :=
  {| gwSocket := gwSocket s; gwReady := gwReady s; gwPending := gwPending s;
     gwReqId := gwReqId s; gwEvents := gwEvents s;
     gwReconnectTimer := gwReconnectTimer s; gwSnapshot := x;
     timers := timers s; nextTimer := nextTimer s;
     nextPromise := nextPromise s; clock := clock s;
     delivered := delivered s; penv := penv s |}.

Definition set_timers (x : gmap N Timer) (s : State) : State :=
  {| gwSocket := gwSocket s; gwReady := gwReady s; gwPending := gwPending s;
     gwReqId := gwReqId s; gwEvents := gwEvents s;
     gwReconnectTimer := gwReconnectTimer s; gwSnapshot := gwSnapshot s;
     timers := x; nextTimer := nextTimer s;
     nextPromise := nextPromise s; clock := clock s;
     delivered := delivered s; penv := penv s |}.

Definition set_nextTimer (x : N) (s : State) : State :=
  {| gwSocket := gwSocket s; gwReady := gwReady s; gwPending := gwPending s;
     gwReqId := gwReqId s; gwEvents := gwEvents s;
     gwReconnectTimer := gwReconnectTimer s; gwSnapshot := gwSnapshot s;
     timers := timers s; nextTimer := x;
     nextPromise := nextPromise s; clock := clock s;
     delivered := delivered s; penv := penv s |}.

Definition set_nextPromise (x : N) (s : State) : State :=
  {| gwSocket := gwSocket s; gwReady := gwReady s; gwPending := gwPending s;
     gwReqId := gwReqId s; gwEvents := gwEvents s;
     gwReconnectTimer := gwReconnectTimer s; gwSnapshot := gwSnapshot s;
     timers := timers s; nextTimer := nextTimer s;
     nextPromise := x; clock := clock s;
     delivered := delivered s; penv := penv s |}.

Definition set_clock (x : N) (s : State) : State :=
  {| gwSocket := gwSocket s; gwReady := gwReady s; gwPending := gwPending s;
     gwReqId := gwReqId s; gwEvents := gwEvents s;
     gwReconnectTimer := gwReconnectTimer s; gwSnapshot := gwSnapshot s;
     timers := timers s; nextTimer := nextTimer s;
     nextPromise := nextPromise s; clock := x;
     delivered := delivered s; penv := penv s |}.

Definition set_delivered (x : list delivery) (s : State) : State :=
  {| gwSocket := gwSocket s; gwReady := gwReady s; gwPending := gwPending s;
     gwReqId := gwReqId s; gwEvents := gwEvents s;
     gwReconnectTimer := gwReconnectTimer s; gwSnapshot := gwSnapshot s;
     timers := timers s; nextTimer := nextTimer s;
     nextPromise := nextPromise s; clock := clock s;
     delivered := x; penv := penv s |}.

(** The module-level initialisers (lines 24-31). *)
Definition globals (e : ProcessEnv) : State :=
  {| gwSocket := None; gwReady := false; gwPending := [];
     gwReqId := 0; gwEvents := []; gwReconnectTimer := None;
     gwSnapshot := JNull;
     timers := ∅; nextTimer := 0; nextPromise := 0; clock := 0;
     delivered := []; penv := e |}.

(** ** Runtime primitives *)

(** A call that may throw. *)
Inductive res (A : Type) :=
| Ok (a : A)
| Throw (msg : string).
Arguments Ok {A} a.
Arguments Throw {A} msg.

(** The JavaScript number nearest to the positive integer [m] (ties to
    the even significand); a result of 2^1024 or more stands for
    Infinity. *)
Definition to_double (m : Z) : Z :=
  let bits := (Z.log2 m + 1)%Z in
  if (bits <=? 53)%Z then m
  else
    let e := (bits - 53)%Z in
    let q := Z.shiftr m e in
    let r := (m - Z.shiftl q e)%Z in
    let half := Z.shiftl 1 (e - 1) in
    let q' := if (half <? r)%Z || ((r =? half)%Z && Z.odd q) then (q + 1)%Z else q in
    Z.shiftl q' e.

(** The shortest decimal that denotes the number [x]: the least [k] with
    a [k]-digit [s] such that [s * 10^(n-k)] rounds to [x], and of the
    candidates the one closest to [x]. [n] is the number of digits of
    [x]. The result is [s] with the exponent [n] of its decimal. *)
Fixpoint shortest (fuel : nat) (x n k : Z) : Z * Z :=
  let p := (10 ^ (n - k))%Z in
  let lo := (x / p)%Z in
  let hi := (lo + 1)%Z in
  let ok_lo := (to_double (lo * p) =? x)%Z in
  let ok_hi := (to_double (hi * p) =? x)%Z in
  let up :=
    if ok_lo && ok_hi
    then
      let below := (x - lo * p)%Z in
      let above := (hi * p - x)%Z in
      (above <? below)%Z || ((above =? below)%Z && Z.odd lo)
    else ok_hi in
  if ok_lo || ok_hi then
    if up then (if (hi =? 10 ^ k)%Z then (1%Z, (n + 1)%Z) else (hi, n))
    else (lo, n)
  else
    match fuel with
    | O => (x, n)
    | S fuel' => shortest fuel' x n (k + 1)
    end.

(** [Number::toString] of a positive integer-valued number. *)
Definition positive_to_string (m : Z) : string :=
  let x := to_double m in
  if (2 ^ 1024 <=? x)%Z then "Infinity"
  else
    let n := Z.of_nat (String.length (pretty x)) in
    let '(s, n') := shortest (Z.to_nat n) x n 1 in
    let digits := pretty s in
    let k := Z.of_nat (String.length digits) in
    if (n' <=? 21)%Z
    then digits +:+ String.string_of_list_ascii (replicate (Z.to_nat (n' - k)) "0"%char)
    else
      match digits with
      | String d rest =>
          String d (match rest with EmptyString => "" | _ => "." +:+ rest end)
          +:+ "e+" +:+ pretty (n' - 1)%Z
      | EmptyString => ""
      end.

(** [Number::toString] of an integer-valued number. *)
Definition number_to_string (z : Z) : string :=
  match z with
  | Z0 => "0"
  | Zpos _ => positive_to_string z
  | Zneg p => "-" +:+ positive_to_string (Zpos p)
  end.

(** [Array.prototype.join] with the separator ",": the elements
    converted by [conv], which may throw, with commas in between. *)
Definition join (conv : json -> res string) : list json -> res string :=
  fix go (l : list json) : res string :=
    match l with
    | [] => Ok ""
    | x :: rest =>
        match conv x with
        | Throw m => Throw m
        | Ok sx =>
            match rest with
            | [] => Ok sx
            | _ =>
                match go rest with
                | Throw m => Throw m
                | Ok sr => Ok (sx +:+ "," +:+ sr)
                end
            end
        end
    end.

(** ECMAScript [ToString] of a value produced by [JSON.parse]. A string is
    itself, a number is printed by [number_to_string], an array is its
    elements joined by commas (nothing for [null], [ToString] of the
    element otherwise). An object is converted by the [toString] it
    inherits, giving "[object Object]", unless it has a key [toString] of
    its own: that value is not callable, [valueOf] (inherited or own)
    yields no primitive either, and the conversion throws a TypeError. *)
Fixpoint ToString (v : json) : res string :=
  match v with
  | JNull => Ok "null"
  | JBool b => Ok (if b then "true" else "false")
  | JNum z => Ok (number_to_string z)
  | JStr s => Ok s
  | JArr l => join (fun x => match x with JNull => Ok "" | _ => ToString x end) l
  | JObj m =>
      match m !! "toString" with
      | Some _ => Throw "TypeError: Cannot convert object to primitive value"
      | None => Ok "[object Object]"
      end
  end.

(** [new Error(message)] with a defined argument: the message is
    [ToString(message)], and the constructor throws when that throws. *)
Definition new_Error (message : json) : res error :=
  match ToString message with
  | Ok s => Ok (Error s)
  | Throw m => Throw m
  end.

#[global] Instance target_eq_dec : EqDecision target.
Proof. solve_decision. Defined.

#[global] Instance TimerAction_eq_dec : EqDecision TimerAction.
Proof. solve_decision. Defined.

(** Node.js coerces a delay below 1 or above 2^31-1 to 1. *)
Definition timer_delay (ms : N) : N :=
  if ((ms <? 1) || (2147483647 <? ms))%N then 1%N else ms.

(** [setTimeout(cb, ms)]: a fresh handle, due [ms] after the current
    monotonic time. *)
Definition setTimeout (cb : TimerAction) (ms : N) (s : State) : N * State :=
  let h := nextTimer s in
  (h, set_nextTimer (h + 1)%N
        (set_timers (<[h := {| due := (clock s + timer_delay ms)%N; action := cb |}]> (timers s)) s)).

(** [clearTimeout(h)] *)
Definition clearTimeout (h : N) (s : State) : State :=
  set_timers (base.delete h (timers s)) s.

(** One invocation of a [resolve] or [reject] function. *)
Definition deliver (t : target) (c : cause) (o : outcome) (s : State) : State :=
  set_delivered (delivered s ++ [{| d_target := t; d_cause := c; d_outcome := o |}]) s.

(** How many times the callbacks of [t] have been invoked. *)
Definition settle_count (t : target) (s : State) : nat :=
  length (filter (fun d => d_target d = t) (delivered s)).

(** [ws.send(data)] without a callback: throws while connecting, transmits
    while open, drops the data once closing or closed. *)
Definition ws_send (frame : json) (ws : WebSocket) : res WebSocket :=
  match readyState ws with
  | CONNECTING => Throw "WebSocket is not open: readyState 0 (CONNECTING)"
  | OPEN => Ok {| readyState := OPEN; outbox := outbox ws ++ [frame];
                  closeArgs := closeArgs ws |}
  | CLOSING | CLOSED => Ok ws
  end.

(** [ws.close(code, reason)]: starts the closing handshake; nothing to do
    on a socket already closing or closed. *)
Definition ws_close (code : Z) (reason : string) (ws : WebSocket) : WebSocket :=
  match readyState ws with
  | CONNECTING | OPEN =>
      {| readyState := CLOSING; outbox := outbox ws;
         closeArgs := Some (code, reason) |}
  | CLOSING | CLOSED => ws
  end.

(** [new WebSocket(wsUrl)] *)
Definition new_WebSocket : WebSocket :=
  {| readyState := CONNECTING; outbox := []; closeArgs := None |}.

(** ** The functions of the client *)

(** [gwConnect] (lines 33-98); the handlers it registers are [onOpen],
    [onMessage], [onClose] and [onError] below. *)
Definition gwConnect (s : State) : State :=
  let fresh := set_gwReady false (set_gwSocket (Some new_WebSocket) s) in
  match gwSocket s with
  | Some ws =>
      match readyState ws with
      | OPEN | CONNECTING => s
      | CLOSING | CLOSED => fresh
      end
  | None => fresh
  end.

Definition target_of (e : PendingEntry) : target :=
  match kind e with ECall p => Caller p | EAuth => Handshake end.

(** [pending.resolve(payload)]: the promise's resolve for a call; for the
    connect request the callback of lines 125-129. *)
Definition entry_resolve (e : PendingEntry) (c : cause) (payload : json) (s : State) : State :=
  let s1 := deliver (target_of e) c (Resolved payload) s in
  match kind e with
  | ECall _ => s1
  | EAuth =>
      set_gwSnapshot (or_else (get "snapshot" payload) payload)
        (set_gwReady true s1)
  end.

(** [pending.reject(err)]: the promise's reject for a call; for the
    connect request the callback of line 130, which only logs. *)
Definition entry_reject (e : PendingEntry) (c : cause) (err : error) (s : State) : State :=
  deliver (target_of e) c (Rejected err) s.

(** The connect request frame (lines 102-120). *)
Definition connect_frame (id instanceId : string) (e : ProcessEnv) : json :=
  obj [("type", JStr "req"); ("id", JStr id); ("method", JStr "connect");
       ("params", obj [
          ("minProtocol", JNum 3); ("maxProtocol", JNum 3);
          ("client", obj [
             ("id", JStr "gateway-client");
             ("displayName", JStr "Mission Control");
             ("version", JStr "1.0.0");
             ("platform", JStr (platform e));
             ("mode", JStr "backend");
             ("instanceId", JStr instanceId)]);
          ("caps", JArr []);
          ("auth", obj [("token", JStr (TOKEN e))]);
          ("role", JStr "operator");
          ("scopes", JArr [JStr "operator.admin"; JStr "operator.approvals";
                           JStr "operator.pairing"]);
          ("userAgent", JStr "MissionControl/1.0")])].

(** [gwSendConnect(nonce)] (lines 100-136); [id] and [instanceId] are the
    two results of [crypto.randomUUID()]. The nonce is not used by the
    body. *)
Definition gwSendConnect (nonce : json) (id instanceId : string) (s : State) : res State :=
  match gwSocket s with
  | None => Throw "TypeError: Cannot read properties of null (reading 'send')"
  | Some ws =>
      match ws_send (connect_frame id instanceId (penv s)) ws with
      | Throw m => Throw m
      | Ok ws' =>
          let s1 := set_gwSocket (Some ws') s in
          let '(h, s2) := setTimeout (TAuth id) 10000 s1 in
          Ok (set_gwPending
                (JsMap.set id {| kind := EAuth; timer := h |} (gwPending s2)) s2)
      end
  end.

(** [{ time: Date.now(), ...msg }] *)
Definition event_record (now : Z) (msg : json) : json :=
  JObj (spread msg ∪ {["time" := JNum now]}).

(** [gwEvents.push(r); if (gwEvents.length > 50) gwEvents.shift();] *)
Definition push_event (r : json) (evs : list json) : list json :=
  let evs' := evs ++ [r] in
  if (50 <? length evs')%nat then tail evs' else evs'.

(** The value passed to [pending.resolve]: [msg.payload || msg.result || msg] *)
Definition response_value (msg : json) : json :=
  or_else (or_opt (get "payload" msg) (get "result" msg)) msg.

(** The error passed to [pending.reject]:
    [new Error(msg.error?.message || 'RPC error')] *)
Definition response_error (msg : json) : res error :=
  new_Error (or_else (get_opt "message" (get "error" msg)) (JStr "RPC error")).

(** The RPC response branch (lines 67-76), for a message with
    [msg.type === 'res'] and a truthy [msg.id]. A [Map] with string keys
    finds nothing under a key that is not a string. With [ok] false the
    argument of [reject] is evaluated first: when [new Error] throws, the
    exception leaves the handler after the entry has been deleted and its
    timer cleared, and [reject] is not called. *)
Definition onResponse (msg : json) (s : State) : res State :=
  match get "id" msg with
  | Some (JStr id) =>
      match JsMap.get id (gwPending s) with
      | Some pending =>
          let s1 := set_gwPending (JsMap.delete id (gwPending s)) s in
          let s2 := clearTimeout (timer pending) s1 in
          if not_false (get "ok" msg)
          then Ok (entry_resolve pending ByResponse (response_value msg) s2)
          else
            match response_error msg with
            | Ok err => Ok (entry_reject pending ByResponse err s2)
            | Throw m => Throw m
            end
      | None => Ok s
      end
  | _ => Ok s
  end.

(** The event branch (lines 56-64). *)
Definition onEvent (now : Z) (msg : json) (s : State) : State :=
  let s1 :=
    if is_str "health" (get "event" msg) && truthy_opt (get "payload" msg)
    then set_gwSnapshot
           (JObj (<["health" := default JNull (get "payload" msg)]>
                    (spread (gwSnapshot s)))) s
    else s in
  set_gwEvents (push_event (event_record now msg) (gwEvents s1)) s1.

(** The ['message'] handler (lines 43-77). [data] is the result of
    [JSON.parse], [None] when it throws; [now] is [Date.now()] and
    [id], [instanceId] are what [crypto.randomUUID()] returns if called. *)
Definition onMessage (now : Z) (id instanceId : string) (data : option json)
                     (s : State) : res State :=
  match data with
  | None => Ok s
  | Some JNull => Throw "TypeError: Cannot read properties of null (reading 'type')"
  | Some msg =>
      if is_str "event" (get "type" msg) && is_str "connect.challenge" (get "event" msg)
      then
        let nonce := get_opt "nonce" (get "payload" msg) in
        if negb (truthy_opt nonce)
        then
          match gwSocket s with
          | None => Throw "TypeError: Cannot read properties of null (reading 'close')"
          | Some ws => Ok (set_gwSocket (Some (ws_close 1008 "no nonce" ws)) s)
          end
        else gwSendConnect (default JNull nonce) id instanceId s
      else if is_str "event" (get "type" msg)
      then Ok (onEvent now msg s)
      else if is_str "res" (get "type" msg) && truthy_opt (get "id" msg)
      then onResponse msg s
      else Ok s
  end.

(** One iteration of the loop "Reject all pending" (lines 84-87). *)
Definition reject_lost (s : State) (kp : string * PendingEntry) : State :=
  entry_reject (snd kp) ByClose (Error "connection lost")
    (clearTimeout (timer (snd kp)) s).

(** The ['close'] handler (lines 79-93). *)
Definition onClose (s : State) : State :=
  let s1 := set_gwSocket None (set_gwReady false s) in
  let s2 := fold_left reject_lost (gwPending s1) s1 in
  let s3 := set_gwPending [] s2 in
  match gwReconnectTimer s3 with
  | Some _ => s3
  | None =>
      let '(h, s4) := setTimeout TReconnect 3000 s3 in
      set_gwReconnectTimer (Some h) s4
  end.

(** The ['open'] handler only logs; the socket itself is now open. *)
Definition onOpen (s : State) : State :=
  match gwSocket s with
  | Some ws =>
      set_gwSocket (Some {| readyState := OPEN; outbox := outbox ws;
                            closeArgs := closeArgs ws |}) s
  | None => s
  end.

(** The counter is a JavaScript number: [++] is exact up to 2^53 and
    leaves 2^53 unchanged. *)
Definition max_safe : N := 9007199254740992.

Definition incr (n : N) : N :=
  if (n <? max_safe)%N then (n + 1)%N else n.

Definition rpc_id (n : N) : string := "rpc-" +:+ pretty n.

(** The request frame of [gwCall] (line 144). *)
Definition call_frame (method id : string) (args : option json) : json :=
  obj [("type", JStr "req"); ("method", JStr method); ("id", JStr id);
       ("params", or_else args (obj []))].

(** [gwCall(method, args, timeoutMs = 15000)] (lines 138-154). The promise
    it returns is numbered [nextPromise s]. An exception thrown inside the
    executor rejects the promise. *)
Definition gwCall (method : string) (args : option json) (timeoutMs : option N)
                  (s : State) : State :=
  let p := nextPromise s in
  let s0 := set_nextPromise (p + 1)%N s in
  let not_connected :=
    deliver (Caller p) ByGuard (Rejected (Error "not connected to gateway")) s0 in
  match gwSocket s0 with
  | None => not_connected
  | Some _ =>
      if negb (gwReady s0) then not_connected
      else
        let n := incr (gwReqId s0) in
        let s1 := set_gwReqId n s0 in
        let id := rpc_id n in
        let '(h, s2) := setTimeout (TCall id method p) (default 15000%N timeoutMs) s1 in
        let s3 := set_gwPending
                    (JsMap.set id {| kind := ECall p; timer := h |} (gwPending s2)) s2 in
        match gwSocket s3 with
        | None => s3
        | Some ws =>
            match ws_send (call_frame method id args) ws with
            | Ok ws' => set_gwSocket (Some ws') s3
            | Throw m => deliver (Caller p) ByThrow (Rejected (Error m)) s3
            end
        end
  end.

(** Running the callback of a timer that fires. *)
Definition fire (a : TimerAction) (s : State) : State :=
  match a with
  | TCall id method p =>
      deliver (Caller p) ByTimeout
        (Rejected (Error ("RPC timeout: " +:+ method)))
        (set_gwPending (JsMap.delete id (gwPending s)) s)
  | TAuth id => set_gwPending (JsMap.delete id (gwPending s)) s
  | TReconnect => gwConnect (set_gwReconnectTimer None s)
  end.

(** The state when the HTTP server starts listening: the initialisers,
    then [gwConnect()] (line 351). *)
Definition boot (e : ProcessEnv) : State := gwConnect (globals e).

(** ** The event loop *)

(** The shape of the strings returned by [crypto.randomUUID()]:
    36 characters, hyphens at positions 8, 13, 18 and 23, lower-case
    hexadecimal digits elsewhere. *)
Definition is_hex (c : ascii) : bool :=
  let n := nat_of_ascii c in
  ((48 <=? n)%nat && (n <=? 57)%nat) || ((97 <=? n)%nat && (n <=? 102)%nat).

Fixpoint uuid_from (i : nat) (s : string) : bool :=
  match s with
  | EmptyString => (i =? 36)%nat
  | String c s' =>
      (if ((i =? 8) || (i =? 13) || (i =? 18) || (i =? 23))%nat
       then bool_decide (c = "-"%char) else is_hex c)
      && uuid_from (S i) s'
  end.

Definition is_uuid (s : string) : bool := uuid_from 0 s.

(** What the event loop can run next: a socket event, a timer, or a
    request of the HTTP layer calling [gwCall]; [Tick] lets time pass. *)
Inductive event :=
| SockOpen
| SockMessage (now : Z) (id instanceId : string) (data : option json)
| SockError
| SockClose
| TimerFire (h : N)
| Tick (dt : N)
| Call (method : string) (args : option json) (timeoutMs : option N).

(** [exec s ev] is the state after the event loop has run [ev] in [s];
    [None] when [ev] cannot occur in [s] (no socket to emit it, timer not
    armed or not yet due) or when the handler throws, which ends the
    process. *)
Definition exec (s : State) (ev : event) : option State :=
  match ev with
  | SockOpen =>
      match gwSocket s with
      | Some ws =>
          match readyState ws with
          | CONNECTING => Some (onOpen s)
          | _ => None
          end
      | None => None
      end
  | SockMessage now id instanceId data =>
      match gwSocket s with
      | Some ws =>
          match readyState ws with
          | OPEN | CLOSING =>
              if is_uuid id && is_uuid instanceId then
                match onMessage now id instanceId data s with
                | Ok s' => Some s'
                | Throw _ => None
                end
              else None
          | _ => None
          end
      | None => None
      end
  | SockError =>
      match gwSocket s with
      | Some _ => Some s
      | None => None
      end
  | SockClose =>
      match gwSocket s with
      | Some _ => Some (onClose s)
      | None => None
      end
  | TimerFire h =>
      match timers s !! h with
      | Some t =>
          if (due t <=? clock s)%N
          then Some (fire (action t) (clearTimeout h s))
          else None
      | None => None
      end
  | Tick dt => Some (set_clock (clock s + dt)%N s)
  | Call method args timeoutMs => Some (gwCall method args timeoutMs s)
  end.

Fixpoint run (s : State) (tr : list event) : option State :=
  match tr with
  | [] => Some s
  | ev :: tr' =>
      match exec s ev with
      | Some s' => run s' tr'
      | None => None
      end
  end.

(** The states the client can be in. *)
Definition reachable (s : State) : Prop :=
  exists e tr, run (boot e) tr = Some s.

(** ** The boundary with the HTTP layer (lines 301-338) *)

(** [GET /snapshot] *)
Definition http_snapshot (s : State) : json :=
  if truthy (gwSnapshot s) then gwSnapshot s
  else obj [("error", JStr "no snapshot yet")].

(** [GET /events] *)
Definition http_events (s : State) : json :=
  obj [("events", JArr (gwEvents s))].

(** [gatewayConnected] of [GET /health] *)
Definition http_connected (s : State) : bool := gwReady s.

(** The reply of [POST /rpc] once the promise of [gwCall] is settled:
    status code and body. The body of a failure carries [e.message]. *)
Definition http_rpc_reply (method : string) (o : outcome) : Z * json :=
  match o with
  | Resolved v => (200%Z, v)
  | Rejected (Error m) =>
      (502%Z, obj [("error", JStr m); ("method", JStr method)])
  end.

(** * Properties *)

(** ** The [Map] operations *)

Module JsMapFacts.
Section facts.
Context {V : Type}.
Implicit Types (k : string) (v : V) (m : list (string * V)).

Lemma get_Some_elem k v m : JsMap.get k m = Some v -> (k, v) ∈ m.
Proof.
  induction m as [|[k' v'] m IH]; simpl; [done|].
  destruct (decide (k = k')) as [->|Hne].
  - intros [= ->]. apply list_elem_of_here.
  - intros H. apply list_elem_of_further. auto.
Qed.

Lemma get_None_elem k m : JsMap.get k m = None -> forall v, (k, v) ∉ m.
Proof.
  induction m as [|[k' v'] m IH]; simpl; intros H v Hin.
  - by apply not_elem_of_nil in Hin.
  - destruct (decide (k = k')) as [->|Hne]; [done|].
    apply elem_of_cons in Hin as [[= ? ?]|Hin]; [done|].
    by apply (IH H v).
Qed.

Lemma get_set_eq k v m : JsMap.get k (JsMap.set k v m) = Some v.
Proof.
  induction m as [|[k' v'] m IH]; simpl.
  - by rewrite decide_True.
  - destruct (decide (k = k')) as [->|Hne]; simpl.
    + by rewrite decide_True.
    + by rewrite decide_False.
Qed.

Lemma get_set_ne k k' v m :
  k' <> k -> JsMap.get k' (JsMap.set k v m) = JsMap.get k' m.
Proof.
  intros Hne. induction m as [|[k2 v2] m IH]; simpl.
  - by rewrite decide_False.
  - destruct (decide (k = k2)) as [->|Hne2]; simpl.
    + by rewrite !decide_False.
    + by rewrite IH.
Qed.

Lemma get_delete_eq k m : JsMap.get k (JsMap.delete k m) = None.
Proof.
  induction m as [|[k' v'] m IH]; simpl; [done|].
  destruct (decide (k = k')) as [->|Hne]; simpl; [done|].
  by rewrite decide_False.
Qed.

Lemma get_delete_ne k k' m :
  k' <> k -> JsMap.get k' (JsMap.delete k m) = JsMap.get k' m.
Proof.
  intros Hne. induction m as [|[k2 v2] m IH]; simpl; [done|].
  destruct (decide (k = k2)) as [->|Hne2]; simpl.
  - by rewrite decide_False.
  - by rewrite IH.
Qed.

Lemma delete_absent k m : JsMap.get k m = None -> JsMap.delete k m = m.
Proof.
  induction m as [|[k' v'] m IH]; simpl; [done|].
  destruct (decide (k = k')) as [->|Hne]; [done|].
  intros H. by rewrite IH.
Qed.

Lemma elem_of_set x k v m :
  x ∈ JsMap.set k v m -> x = (k, v) \/ x ∈ m.
Proof.
  induction m as [|[k' v'] m IH]; simpl.
  - intros H. apply list_elem_of_singleton in H. by left.
  - destruct (decide (k = k')) as [->|Hne]; intros H.
    + apply elem_of_cons in H as [->|H]; [by left|].
      right. by apply list_elem_of_further.
    + apply elem_of_cons in H as [->|H]; [right; apply list_elem_of_here|].
      destruct (IH H) as [->|H']; [by left|].
      right. by apply list_elem_of_further.
Qed.

Lemma elem_of_delete x k m :
  x ∈ JsMap.delete k m -> x ∈ m /\ x.1 <> k.
Proof.
  induction m as [|[k' v'] m IH]; simpl.
  - intros H. by apply not_elem_of_nil in H.
  - destruct (decide (k = k')) as [->|Hne]; intros H.
    + destruct (IH H) as [H1 H2]. split; [by apply list_elem_of_further|done].
    + apply elem_of_cons in H as [->|H].
      * split; [apply list_elem_of_here|]. simpl. congruence.
      * destruct (IH H) as [H1 H2]. split; [by apply list_elem_of_further|done].
Qed.

Lemma delete_elem_of x k m :
  x ∈ m -> x.1 <> k -> x ∈ JsMap.delete k m.
Proof.
  induction m as [|[k' v'] m IH]; simpl; [done|].
  intros H Hne. destruct (decide (k = k')) as [->|Hne2].
  - apply elem_of_cons in H as [->|H]; [done|]. auto.
  - apply elem_of_cons in H as [->|H]; [apply list_elem_of_here|].
    apply list_elem_of_further. auto.
Qed.

Context {B : Type} (f : string * V -> B).

Lemma NoDup_delete k m : NoDup (f <$> m) -> NoDup (f <$> JsMap.delete k m).
Proof.
  induction m as [|[k' v'] m IH]; simpl; [done|].
  rewrite NoDup_cons. intros [Hn Hd].
  destruct (decide (k = k')) as [->|Hne]; [auto|].
  rewrite fmap_cons. apply NoDup_cons. split; [|auto].
  intros Hin. apply Hn.
  apply list_elem_of_fmap in Hin as (y & Hy & Hin).
  apply list_elem_of_fmap. exists y. split; [done|].
  by apply elem_of_delete in Hin as [? _].
Qed.

Lemma NoDup_set k v m :
  (forall x, x ∈ m -> f x <> f (k, v)) ->
  NoDup (f <$> m) -> NoDup (f <$> JsMap.set k v m).
Proof.
  induction m as [|[k' v'] m IH]; simpl; intros Hfresh Hd.
  - apply NoDup_singleton.
  - apply NoDup_cons in Hd as [Hn Hd].
    destruct (decide (k = k')) as [->|Hne]; rewrite fmap_cons; apply NoDup_cons.
    + split; [|done]. intros Hin.
      apply list_elem_of_fmap in Hin as (y & Hy & Hin).
      apply (Hfresh y); [by apply list_elem_of_further|done].
    + split.
      * intros Hin. apply list_elem_of_fmap in Hin as (y & Hy & Hin).
        apply elem_of_set in Hin as [->|Hin].
        -- apply (Hfresh (k', v')); [apply list_elem_of_here|done].
        -- apply Hn. apply list_elem_of_fmap. by exists y.
      * apply IH; [|done]. intros x Hx. apply Hfresh.
        by apply list_elem_of_further.
Qed.

Lemma NoDup_fmap_elem_inj (l : list (string * V)) x y :
  NoDup (f <$> l) -> x ∈ l -> y ∈ l -> f x = f y -> x = y.
Proof.
  induction l as [|a l IH]; simpl; intros Hd Hx Hy Hf.
  - by apply not_elem_of_nil in Hx.
  - apply NoDup_cons in Hd as [Hn Hd].
    apply elem_of_cons in Hx as [->|Hx]; apply elem_of_cons in Hy as [->|Hy];
      [done| | |by apply IH].
    + exfalso. apply Hn. rewrite Hf. apply list_elem_of_fmap. by exists y.
    + exfalso. apply Hn. rewrite <- Hf. apply list_elem_of_fmap. by exists x.
Qed.
End facts.
End JsMapFacts.
Import JsMapFacts.

(** ** Reading JSON values *)

Lemma is_str_true lit v : is_str lit v = true <-> v = Some (JStr lit).
Proof.
  unfold is_str. destruct v as [[]|]; try (split; [done|by intros [=]]).
  rewrite bool_decide_eq_true. split; [by intros ->|by intros [= ->]].
Qed.

Lemma is_str_false lit v : is_str lit v = false <-> v <> Some (JStr lit).
Proof.
  rewrite <- is_str_true. by destruct (is_str lit v).
Qed.

Lemma get_Some_obj k v x : get k v = Some x -> exists m, v = JObj m /\ m !! k = Some x.
Proof. destruct v; simpl; try done. eauto. Qed.

Example ToString_samples :
  ToString (JNum 1700000000000) = Ok "1700000000000"
  /\ ToString (JNum (-17)) = Ok "-17"
  /\ ToString (JNum (2 ^ 64)) = Ok "18446744073709552000"
  /\ ToString (JNum (10 ^ 21)) = Ok "1e+21"
  /\ ToString (JNum (2 ^ 70)) = Ok "1.1805916207174113e+21"
  /\ ToString (JArr [JNum 1; JNull; JArr [JBool true; JStr "a"]; JObj ∅])
     = Ok "1,,true,a,[object Object]"
  /\ ToString (JObj {["valueOf" := JNum 1]}) = Ok "[object Object]"
  /\ ToString (JObj {["toString" := JNull]})
     = Throw "TypeError: Cannot convert object to primitive value".
Proof. repeat split; vm_compute; reflexivity. Qed.

(** The values [ToString] cannot convert: an object with a key [toString]
    of its own, and an array that holds such a value. *)
Fixpoint unconvertible (v : json) : bool :=
  match v with
  | JObj m => match m !! "toString" with Some _ => true | None => false end
  | JArr l => existsb unconvertible l
  | _ => false
  end.

Lemma json_arr_ind (P : json -> Prop) :
  P JNull -> (forall b, P (JBool b)) -> (forall z, P (JNum z)) ->
  (forall s, P (JStr s)) -> (forall l, Forall P l -> P (JArr l)) ->
  (forall m, P (JObj m)) -> forall v, P v.
Proof.
  intros Hn Hb Hz Hs Ha Ho. fix IH 1.
  intros [|b|z|s|l|m]; [apply Hn|apply Hb|apply Hz|apply Hs| |apply Ho].
  apply Ha. induction l as [|x l IHl]; constructor; [apply IH|apply IHl].
Qed.

Lemma join_throws conv l :
  (exists m, join conv l = Throw m) <-> exists x, x ∈ l /\ exists m, conv x = Throw m.
Proof.
  induction l as [|x rest IH].
  - split; [intros [m H]; discriminate H|].
    intros (x & Hin & _). by apply not_elem_of_nil in Hin.
  - cbn [join]. fold (join conv rest). split.
    + intros [m H]. destruct (conv x) as [sx|mx] eqn:Hx.
      * destruct rest as [|y rest']; [discriminate H|].
        destruct (join conv (y :: rest')) as [sr|mr] eqn:Hr; [discriminate H|].
        destruct (proj1 IH) as (x' & Hin & Hm'); [eauto|].
        exists x'. split; [by apply list_elem_of_further|done].
      * exists x. split; [apply list_elem_of_here|eauto].
    + intros (x' & Hin & m & Hm). apply elem_of_cons in Hin as [->|Hin].
      * rewrite Hm. eauto.
      * destruct (conv x) as [sx|mx]; [|eauto].
        destruct (proj2 IH) as [mr Hr]; [by exists x'; eauto|].
        destruct rest as [|y rest']; [by apply not_elem_of_nil in Hin|].
        rewrite Hr. eauto.
Qed.

(** [ToString] throws on the unconvertible values and on no other. *)
Lemma ToString_throws v :
  (exists m, ToString v = Throw m) <-> unconvertible v = true.
Proof.
  induction v as [|b|z|s|l IH|m] using json_arr_ind;
    try (simpl; split; [intros [m H]; discriminate H|discriminate]).
  - cbn [ToString unconvertible]. rewrite join_throws, existsb_exists. split.
    + intros (x & Hin & m & Hm). exists x. split; [by apply list_elem_of_In|].
      rewrite Forall_forall in IH. apply IH; [done|].
      destruct x; try discriminate Hm; eauto.
    + intros (x & Hin & Hx). apply list_elem_of_In in Hin.
      exists x. split; [done|]. rewrite Forall_forall in IH.
      apply IH in Hx as [m Hm]; [|done]. exists m.
      destruct x; try done.
  - simpl. destruct (m !! "toString"); split; try done; eauto.
    intros [m' H]. discriminate H.
Qed.

Lemma spread_obj_time now msg :
  get "time" (event_record now msg) =
  match spread msg !! "time" with
  | Some t => Some t
  | None => Some (JNum now)
  end.
Proof.
  unfold event_record. simpl. rewrite lookup_union.
  destruct (spread msg !! "time"); simpl; [done|].
  by rewrite lookup_singleton_eq.
Qed.

(** ** The event buffer *)

Lemma push_event_room r evs :
  (length evs < 50)%nat -> push_event r evs = evs ++ [r].
Proof.
  intros H. unfold push_event.
  destruct (50 <? length (evs ++ [r]))%nat eqn:E; [|done].
  apply Nat.ltb_lt in E. rewrite length_app in E. simpl in E. lia.
Qed.

Lemma push_event_full r e evs :
  (50 <= length (e :: evs))%nat -> push_event r (e :: evs) = evs ++ [r].
Proof.
  intros H. unfold push_event.
  destruct (50 <? length ((e :: evs) ++ [r]))%nat eqn:E; [done|].
  apply Nat.ltb_ge in E. rewrite length_app in E. simpl in *. lia.
Qed.

Lemma push_event_length r evs :
  (length evs <= 50)%nat -> (length (push_event r evs) <= 50)%nat.
Proof.
  intros H. destruct (decide (length evs < 50)%nat) as [Hlt|Hge].
  - rewrite push_event_room by done. rewrite length_app. simpl. lia.
  - destruct evs as [|e evs]; [simpl in *; lia|].
    rewrite push_event_full by lia. rewrite length_app. simpl in *. lia.
Qed.

Lemma push_event_last r evs : last (push_event r evs) = Some r.
Proof.
  destruct (decide (length evs < 50)%nat) as [Hlt|Hge].
  - rewrite push_event_room by done. apply last_snoc.
  - destruct evs as [|e evs]; [simpl in *; lia|].
    rewrite push_event_full by lia. apply last_snoc.
Qed.

(** A frame with [type === 'event'] that is not the challenge goes to the
    event branch. *)
Lemma onMessage_event now id inst msg s :
  get "type" msg = Some (JStr "event") ->
  get "event" msg <> Some (JStr "connect.challenge") ->
  onMessage now id inst (Some msg) s = Ok (onEvent now msg s).
Proof.
  intros Ht He. unfold onMessage.
  assert (is_str "event" (get "type" msg) = true) as -> by by apply is_str_true.
  assert (is_str "connect.challenge" (get "event" msg) = false) as ->
    by by apply is_str_false.
  destruct msg; simpl in *; done.
Qed.

Lemma onEvent_gwEvents now msg s :
  gwEvents (onEvent now msg s) = push_event (event_record now msg) (gwEvents s).
Proof. unfold onEvent. by destruct (_ && _). Qed.

Lemma onEvent_frame now msg s :
  gwSocket (onEvent now msg s) = gwSocket s
  /\ gwReady (onEvent now msg s) = gwReady s
  /\ gwPending (onEvent now msg s) = gwPending s
  /\ gwReqId (onEvent now msg s) = gwReqId s
  /\ gwReconnectTimer (onEvent now msg s) = gwReconnectTimer s
  /\ timers (onEvent now msg s) = timers s
  /\ delivered (onEvent now msg s) = delivered s.
Proof. unfold onEvent. by destruct (_ && _). Qed.

(** A frame with [type === 'res'] and a non-empty string [id] goes to the
    response branch. *)
Lemma onMessage_response now u inst msg id s :
  get "type" msg = Some (JStr "res") ->
  get "id" msg = Some (JStr id) -> id <> "" ->
  onMessage now u inst (Some msg) s = onResponse msg s.
Proof.
  intros Ht Hi Hne. unfold onMessage.
  assert (is_str "event" (get "type" msg) = false) as ->
    by (apply is_str_false; by rewrite Ht).
  assert (is_str "res" (get "type" msg) = true) as -> by by apply is_str_true.
  rewrite Hi. simpl. destruct msg; simpl in *; try done.
  by destruct id.
Qed.

(** ** Counting invocations *)

Lemma settle_count_deliver t t' c o s :
  settle_count t (deliver t' c o s) =
  (settle_count t s + if decide (t' = t) then 1 else 0)%nat.
Proof.
  unfold settle_count, deliver. simpl. rewrite filter_app, length_app.
  f_equal. rewrite filter_cons, filter_nil. simpl.
  by destruct (decide (t' = t)).
Qed.

(** The loop of the close handler, in closed form. *)
Definition lost (kp : string * PendingEntry) : delivery :=
  {| d_target := target_of (snd kp); d_cause := ByClose;
     d_outcome := Rejected (Error "connection lost") |}.

Definition cancel_all (l : list (string * PendingEntry)) (tm : gmap N Timer) : gmap N Timer :=
  fold_left (fun m kp => base.delete (timer (snd kp)) m) l tm.

Lemma fold_reject_lost l s :
  fold_left reject_lost l s =
  set_delivered (delivered s ++ (lost <$> l))
    (set_timers (cancel_all l (timers s)) s).
Proof.
  revert s. induction l as [|kp l IH]; intros s.
  - simpl. unfold cancel_all. simpl. rewrite app_nil_r. by destruct s.
  - simpl. rewrite IH. unfold reject_lost, entry_reject, deliver, clearTimeout.
    simpl. rewrite <- app_assoc. done.
Qed.

Lemma cancel_all_lookup l tm h :
  cancel_all l tm !! h =
  if decide (h ∈ (fun kp => timer (snd kp)) <$> l) then None else tm !! h.
Proof.
  revert tm. induction l as [|kp l IH]; intros tm.
  - rewrite fmap_nil. rewrite decide_False; [done|]. apply not_elem_of_nil.
  - rewrite fmap_cons. unfold cancel_all in *. cbn [fold_left]. rewrite IH.
    destruct (decide (h ∈ _ <$> l)) as [Hin|Hnin].
    + rewrite decide_True; [done|]. by apply list_elem_of_further.
    + destruct (decide (h = timer kp.2)) as [->|Hne].
      * rewrite decide_True by apply list_elem_of_here.
        apply lookup_delete_eq.
      * rewrite decide_False.
        -- by apply lookup_delete_ne.
        -- intros H. apply elem_of_cons in H as [?|?]; done.
Qed.

(** ** The invariant of the event loop *)

(** [h] is the armed timer of the call whose promise is [p]. *)
Definition call_timer_in (tm : gmap N Timer) (h p : N) : Prop :=
  exists t id m, tm !! h = Some t /\ action t = TCall id m p.

Definition call_timer (s : State) (h p : N) : Prop :=
  call_timer_in (timers s) h p.

(** The timer callback that was created together with the entry. *)
Definition matches (id : string) (e : PendingEntry) (a : TimerAction) : Prop :=
  match kind e, a with
  | ECall p, TCall id' _ p' => id' = id /\ p' = p
  | EAuth, TAuth id' => id' = id
  | _, _ => False
  end.

Record Inv (s : State) : Prop := {
  inv_timer_fresh :
    forall h t, timers s !! h = Some t -> (h < nextTimer s)%N;
  inv_entry_timer :
    forall id e, (id, e) ∈ gwPending s ->
      exists t, timers s !! timer e = Some t /\ matches id e (action t);
  inv_entry_nodup :
    NoDup ((fun kp => timer (snd kp)) <$> gwPending s);
  inv_timer_unique :
    forall h h' p, call_timer s h p -> call_timer s h' p -> h = h';
  inv_timer_unsettled :
    forall h p, call_timer s h p ->
      (p < nextPromise s)%N /\ settle_count (Caller p) s = 0%nat;
  inv_promise :
    forall p, (p < nextPromise s)%N ->
      settle_count (Caller p) s = 1%nat \/ exists h, call_timer s h p;
  inv_promise_fresh :
    forall d p, d ∈ delivered s -> d_target d = Caller p -> (p < nextPromise s)%N;
  inv_ready :
    gwReady s = true ->
    exists ws, gwSocket s = Some ws /\ readyState ws <> CONNECTING;
  inv_reconnect_armed :
    forall h, gwReconnectTimer s = Some h ->
      gwSocket s = None /\ exists t, timers s !! h = Some t /\ action t = TReconnect;
  inv_reconnect_unique :
    forall h t, timers s !! h = Some t -> action t = TReconnect ->
      gwReconnectTimer s = Some h;
  inv_events : (length (gwEvents s) <= 50)%nat
}.

Lemma call_timer_insert tm h0 t0 h p :
  tm !! h0 = None ->
  call_timer_in (<[h0 := t0]> tm) h p <->
  (h = h0 /\ exists id m, action t0 = TCall id m p) \/ (h <> h0 /\ call_timer_in tm h p).
Proof.
  intros Hfresh. unfold call_timer_in. split.
  - intros (t & id & m & Hl & Ha).
    destruct (decide (h = h0)) as [->|Hne].
    + rewrite lookup_insert_eq in Hl. injection Hl as <-. left. eauto.
    + rewrite lookup_insert_ne in Hl by done. right. eauto 6.
  - intros [[-> (id & m & Ha)]|[Hne (t & id & m & Hl & Ha)]].
    + exists t0, id, m. by rewrite lookup_insert_eq.
    + exists t, id, m. by rewrite lookup_insert_ne.
Qed.

Lemma call_timer_delete tm h0 h p :
  call_timer_in (base.delete h0 tm) h p <-> h <> h0 /\ call_timer_in tm h p.
Proof.
  unfold call_timer_in. split.
  - intros (t & id & m & Hl & Ha).
    destruct (decide (h = h0)) as [->|Hne].
    + by rewrite lookup_delete_eq in Hl.
    + rewrite lookup_delete_ne in Hl by done. eauto 6.
  - intros [Hne (t & id & m & Hl & Ha)].
    exists t, id, m. by rewrite lookup_delete_ne.
Qed.

Lemma settle_count_fresh s p :
  (forall d, d ∈ delivered s -> d_target d <> Caller p) ->
  settle_count (Caller p) s = 0%nat.
Proof.
  unfold settle_count. induction (delivered s) as [|d l IH]; intros H; [done|].
  rewrite filter_cons. destruct (decide (d_target d = Caller p)) as [Heq|Hne].
  - exfalso. apply (H d); [apply list_elem_of_here|done].
  - apply IH. intros d' Hd'. apply H. by apply list_elem_of_further.
Qed.

Lemma timer_fresh_None s : Inv s -> timers s !! nextTimer s = None.
Proof.
  intros HI. destruct (timers s !! nextTimer s) eqn:E; [|done].
  apply (inv_timer_fresh s HI) in E. lia.
Qed.

Lemma Inv_boot e : Inv (boot e).
Proof.
  split; simpl; try done.
  - intros id x H. by apply not_elem_of_nil in H.
  - apply NoDup_nil_2.
  - intros h h' p (t & ? & ? & H & _). done.
  - intros h p (t & ? & ? & H & _). done.
  - intros p H. lia.
  - intros d p H. by apply not_elem_of_nil in H.
  - lia.
Qed.

(** Steps that touch neither the timers, the pending map nor the log. *)
Lemma Inv_frame s s' :
  timers s' = timers s -> nextTimer s' = nextTimer s ->
  gwPending s' = gwPending s -> nextPromise s' = nextPromise s ->
  delivered s' = delivered s -> gwReconnectTimer s' = gwReconnectTimer s ->
  (gwReady s' = true ->
   exists ws, gwSocket s' = Some ws /\ readyState ws <> CONNECTING) ->
  (gwSocket s = None -> gwSocket s' = None) ->
  (length (gwEvents s') <= 50)%nat ->
  Inv s -> Inv s'.
Proof.
  intros Ht Hn Hp Hnp Hd Hr Hready Hsock Hev [F1 F2 F3 F4 F5 F6 F7 F8 F9 F10 F11].
  unfold call_timer, settle_count in *.
  split; unfold call_timer, settle_count;
    rewrite ?Ht, ?Hn, ?Hp, ?Hnp, ?Hd, ?Hr; try done.
  intros h Hh. destruct (F9 h Hh) as [Hs Harmed]. split; [auto|done].
Qed.

Lemma filter_target_nil (ds : list delivery) t :
  (forall d, d ∈ ds -> d_target d <> t) ->
  filter (fun d => d_target d = t) ds = [].
Proof.
  induction ds as [|d l IH]; intros H; [done|].
  rewrite filter_cons. destruct (decide (d_target d = t)) as [Heq|Hne].
  - exfalso. apply (H d); [apply list_elem_of_here|done].
  - apply IH. intros d' Hd'. apply H. by apply list_elem_of_further.
Qed.

Lemma settle_count_app s s' ds t :
  delivered s' = delivered s ++ ds ->
  settle_count t s' =
  (settle_count t s + length (filter (fun d => d_target d = t) ds))%nat.
Proof.
  intros H. unfold settle_count. by rewrite H, filter_app, length_app.
Qed.

Lemma matches_call id e id' m p :
  matches id e (TCall id' m p) -> kind e = ECall p /\ id' = id.
Proof. unfold matches. destruct (kind e); [intros [-> ->]; done|done]. Qed.

Lemma matches_not_reconnect id e : ~ matches id e TReconnect.
Proof. unfold matches. destruct (kind e); intros H; exact H. Qed.

Lemma target_of_call e p : target_of e = Caller p <-> kind e = ECall p.
Proof.
  unfold target_of. destruct (kind e); split; intros H; by inversion H.
Qed.

(** A pending call entry owns the armed timer of its promise. *)
Lemma entry_call_timer s id e p :
  Inv s -> (id, e) ∈ gwPending s -> kind e = ECall p ->
  call_timer s (timer e) p.
Proof.
  intros HI Hin Hk. destruct (inv_entry_timer s HI id e Hin) as (t & Hl & Hm).
  unfold matches in Hm. rewrite Hk in Hm.
  destruct (action t) as [id' m p'| |] eqn:Ha; try done.
  destruct Hm as [-> ->]. exists t, id, m. done.
Qed.

(** Arming the timer of a new pending entry ([gwCall] on a ready
    connection, [gwSendConnect]). *)
Lemma Inv_arm s s' id e0 t0 :
  Inv s ->
  timer e0 = nextTimer s ->
  matches id e0 (action t0) ->
  timers s' = <[nextTimer s := t0]> (timers s) ->
  nextTimer s' = (nextTimer s + 1)%N ->
  gwPending s' = JsMap.set id e0 (gwPending s) ->
  delivered s' = delivered s ->
  gwReconnectTimer s' = gwReconnectTimer s ->
  gwReady s' = gwReady s ->
  (exists ws ws', gwSocket s = Some ws /\ gwSocket s' = Some ws' /\
                  readyState ws' = readyState ws) ->
  gwEvents s' = gwEvents s ->
  (kind e0 = EAuth -> nextPromise s' = nextPromise s) ->
  (forall p, kind e0 = ECall p ->
     p = nextPromise s /\ nextPromise s' = (p + 1)%N) ->
  Inv s'.
Proof.
  intros HI He0 Hm Ht Hn Hp Hd Hr Hrd (ws & ws' & Hs & Hs' & Hrs) Hev Hauth Hcall.
  pose proof (timer_fresh_None s HI) as Hfresh.
  assert (Hnp : (nextPromise s <= nextPromise s')%N).
  { destruct (kind e0) as [p|] eqn:Hk.
    - destruct (Hcall p eq_refl) as [-> ->]. lia.
    - rewrite (Hauth eq_refl). lia. }
  assert (Hct : forall h p, call_timer s' h p <->
            (h = nextTimer s /\ kind e0 = ECall p) \/
            (h <> nextTimer s /\ call_timer s h p)).
  { intros h p. unfold call_timer. rewrite Ht, call_timer_insert by done.
    split; (intros [[-> H]|H]; [left|by right]); split; try done.
    - destruct H as (id' & m & Ha). rewrite Ha in Hm.
      by apply matches_call in Hm as [? _].
    - unfold matches in Hm. rewrite H in Hm.
      destruct (action t0); try done. destruct Hm as [-> ->]. eauto. }
  assert (Hsc : forall t, settle_count t s' = settle_count t s).
  { intros t. unfold settle_count. by rewrite Hd. }
  destruct HI as [F1 F2 F3 F4 F5 F6 F7 F8 F9 F10 F11].
  split.
  - intros h t. rewrite Ht, Hn. destruct (decide (h = nextTimer s)) as [->|Hne].
    + intros _. lia.
    + rewrite lookup_insert_ne by done. intros H. apply F1 in H. lia.
  - intros id' e'. rewrite Hp, Ht. intros Hin.
    apply elem_of_set in Hin as [[= -> ->]|Hin].
    + exists t0. rewrite He0, lookup_insert_eq. done.
    + destruct (F2 id' e' Hin) as (t & Hl & Hmt). exists t. split; [|done].
      rewrite lookup_insert_ne; [done|]. intros Heq. rewrite <- Heq in Hl.
      by rewrite Hfresh in Hl.
  - rewrite Hp. apply NoDup_set; [|done]. intros [id' e'] Hin. simpl.
    destruct (F2 id' e' Hin) as (t & Hl & _). intros Heq.
    rewrite Heq, He0, Hfresh in Hl. done.
  - intros h h' p. rewrite !Hct.
    intros [[-> Hk]|[Hne H1]] [[-> Hk']|[Hne' H2]]; try done.
    + destruct (Hcall p Hk) as [-> _]. apply F5 in H2 as [? _]. lia.
    + destruct (Hcall p Hk') as [-> _]. apply F5 in H1 as [? _]. lia.
    + by apply (F4 h h' p).
  - intros h p. rewrite Hct, Hsc. intros [[-> Hk]|[Hne H1]].
    + destruct (Hcall p Hk) as [-> ->]. split; [lia|].
      apply settle_count_fresh. intros d Hin Heq.
      apply (F7 d _ Hin) in Heq. lia.
    + apply F5 in H1 as [? ?]. split; [lia|done].
  - intros p Hlt. rewrite Hsc.
    destruct (decide (p < nextPromise s)%N) as [Hold|Hnew].
    + destruct (F6 p Hold) as [?|[h Hh]]; [by left|]. right. exists h.
      apply Hct. right. split; [|done]. intros ->.
      destruct Hh as (t & ? & ? & Hl & _). by rewrite Hfresh in Hl.
    + right. exists (nextTimer s). apply Hct. left. split; [done|].
      destruct (kind e0) as [p'|] eqn:Hk.
      * destruct (Hcall p' eq_refl) as [-> Hnx]. f_equal. lia.
      * rewrite (Hauth eq_refl) in Hlt. lia.
  - intros d p. rewrite Hd. intros Hin Heq. apply (F7 d p Hin) in Heq. lia.
  - rewrite Hrd. intros Hready. destruct (F8 Hready) as (ws0 & Hs0 & Hne).
    exists ws'. split; [done|]. rewrite Hrs. congruence.
  - intros h. rewrite Hr. intros Hh. apply F9 in Hh as [Hnone _]. congruence.
  - intros h t. rewrite Ht, Hr. destruct (decide (h = nextTimer s)) as [->|Hne].
    + rewrite lookup_insert_eq. intros [= <-] Ha. rewrite Ha in Hm.
      by apply matches_not_reconnect in Hm.
    + rewrite lookup_insert_ne by done. apply F10.
  - by rewrite Hev.
Qed.

(** Rejecting the promise just created ([gwCall] when not connected). *)
Lemma Inv_guard s c o :
  Inv s ->
  Inv (deliver (Caller (nextPromise s)) c o
         (set_nextPromise (nextPromise s + 1)%N s)).
Proof.
  intros HI.
  pose proof (settle_count_fresh s (nextPromise s)) as Hzero.
  destruct HI as [F1 F2 F3 F4 F5 F6 F7 F8 F9 F10 F11].
  split; try done.
  - intros h p Hc. rewrite settle_count_deliver.
    destruct (F5 h p Hc) as [Hlt Hz]. simpl. split; [lia|].
    unfold settle_count in *. simpl. rewrite Hz.
    rewrite decide_False; [done|]. intros [= Heq]. lia.
  - intros p Hlt. simpl in Hlt. rewrite settle_count_deliver.
    unfold call_timer, settle_count in *. simpl.
    destruct (decide (p = nextPromise s)) as [->|Hne].
    + left. rewrite decide_True by done. rewrite Hzero; [done|].
      intros d Hin Heq. apply (F7 d _ Hin) in Heq. lia.
    + rewrite decide_False by congruence.
      destruct (F6 p) as [?|?]; [lia|left; lia|by right].
  - intros d p. simpl. intros Hin Heq.
    apply elem_of_app in Hin as [Hin|Hin].
    + apply (F7 d p Hin) in Heq. lia.
    + apply list_elem_of_singleton in Hin. subst d. simpl in Heq.
      injection Heq as <-. lia.
Qed.

(** Retiring the timer [h0] together with the entries stored under [id]:
    a matched response, or the firing of a call or connect timer. The
    callbacks invoked are those of the promise that owns [h0], if any. *)
Lemma Inv_retire s s' h0 id ds :
  Inv s ->
  timers s' = base.delete h0 (timers s) ->
  nextTimer s' = nextTimer s ->
  gwPending s' = JsMap.delete id (gwPending s) ->
  delivered s' = delivered s ++ ds ->
  nextPromise s' = nextPromise s ->
  gwReconnectTimer s' = gwReconnectTimer s ->
  gwEvents s' = gwEvents s ->
  (gwReady s' = true ->
   exists ws, gwSocket s' = Some ws /\ readyState ws <> CONNECTING) ->
  (gwSocket s = None -> gwSocket s' = None) ->
  (forall id' e', (id', e') ∈ gwPending s -> timer e' = h0 -> id' = id) ->
  (forall d p, d ∈ ds -> d_target d = Caller p -> call_timer s h0 p) ->
  (forall p, call_timer s h0 p ->
     length (filter (fun d => d_target d = Caller p) ds) = 1%nat) ->
  (forall t, timers s !! h0 = Some t -> action t <> TReconnect) ->
  Inv s'.
Proof.
  intros HI Ht Hn Hp Hd Hnp Hr Hev Hready Hsock Hkey Hds1 Hds2 Hnr.
  assert (Hct : forall h p, call_timer s' h p <-> h <> h0 /\ call_timer s h p).
  { intros h p. unfold call_timer. rewrite Ht. apply call_timer_delete. }
  destruct HI as [F1 F2 F3 F4 F5 F6 F7 F8 F9 F10 F11].
  assert (Hother : forall h p, h <> h0 -> call_timer s h p ->
            filter (fun d => d_target d = Caller p) ds = []).
  { intros h p Hne Hc. apply filter_target_nil. intros d Hin Heq.
    apply Hne. apply (F4 h h0 p); [done|]. by apply (Hds1 d). }
  split.
  - intros h t. rewrite Ht, Hn. intros H.
    apply lookup_delete_Some in H as [_ H]. by apply F1 in H.
  - intros id' e'. rewrite Hp, Ht. intros Hin.
    apply elem_of_delete in Hin as [Hin Hne]. simpl in Hne.
    destruct (F2 id' e' Hin) as (t & Hl & Hm). exists t. split; [|done].
    rewrite lookup_delete_ne; [done|]. intros Heq. apply Hne.
    by apply (Hkey id' e').
  - rewrite Hp. by apply NoDup_delete.
  - intros h h' p. rewrite !Hct. intros [_ H1] [_ H2]. by apply (F4 h h' p).
  - intros h p. rewrite Hct, Hnp. intros [Hne Hc].
    rewrite (settle_count_app s s' ds) by done.
    rewrite (Hother h p Hne Hc). destruct (F5 h p Hc) as [? ->]. done.
  - intros p. rewrite Hnp. intros Hlt.
    rewrite (settle_count_app s s' ds) by done.
    destruct (F6 p Hlt) as [Hone|[h Hc]].
    + left. rewrite filter_target_nil; [simpl; lia|].
      intros d Hin Heq. apply (Hds1 d p Hin) in Heq.
      apply F5 in Heq as [_ Hz]. lia.
    + destruct (decide (h = h0)) as [->|Hne].
      * left. rewrite (Hds2 p Hc). destruct (F5 h0 p Hc) as [_ ->]. done.
      * right. exists h. by apply Hct.
  - intros d p. rewrite Hd, Hnp. intros Hin Heq.
    apply elem_of_app in Hin as [Hin|Hin]; [by apply (F7 d p)|].
    apply (Hds1 d p Hin) in Heq. by apply F5 in Heq as [? _].
  - done.
  - intros h. rewrite Hr, Ht. intros Hh.
    destruct (F9 h Hh) as [Hnone (t & Hl & Ha)]. split; [auto|].
    exists t. split; [|done]. rewrite lookup_delete_ne; [done|].
    intros <-. by apply (Hnr t).
  - intros h t. rewrite Ht, Hr. intros H.
    apply lookup_delete_Some in H as [_ H]. by apply F10.
  - by rewrite Hev.
Qed.

(** The reconnect timer fires (line 91). *)
Lemma Inv_fire_reconnect s h t :
  Inv s -> timers s !! h = Some t -> action t = TReconnect ->
  Inv (fire TReconnect (clearTimeout h s)).
Proof.
  intros HI Hl Ha.
  pose proof (inv_reconnect_unique s HI h t Hl Ha) as Hflag.
  destruct (inv_reconnect_armed s HI h Hflag) as [Hnone _].
  unfold fire, gwConnect. simpl. rewrite Hnone.
  assert (Hct : forall h1 p, call_timer_in (base.delete h (timers s)) h1 p <->
                             call_timer s h1 p).
  { intros h1 p. rewrite call_timer_delete. split; [by intros [_ ?]|].
    intros Hc. split; [|done]. intros ->.
    destruct Hc as (t' & ? & ? & Hl' & Ha'). congruence. }
  destruct HI as [F1 F2 F3 F4 F5 F6 F7 F8 F9 F10 F11].
  split; unfold call_timer, settle_count; simpl; try done.
  - intros h1 t1 H. apply lookup_delete_Some in H as [_ H]. by apply F1 in H.
  - intros id e Hin. destruct (F2 id e Hin) as (t1 & Hl1 & Hm).
    exists t1. split; [|done]. rewrite lookup_delete_ne; [done|].
    intros Heq. rewrite <- Heq, Hl in Hl1. injection Hl1 as <-.
    rewrite Ha in Hm. by apply matches_not_reconnect in Hm.
  - intros h1 h2 p. rewrite !Hct. apply F4.
  - intros h1 p. rewrite Hct. apply F5.
  - intros p Hlt. destruct (F6 p Hlt) as [?|[h1 Hc]]; [by left|right].
    exists h1. by apply Hct.
  - intros h1 t1 H Ha1. apply lookup_delete_Some in H as [Hne H].
    pose proof (F10 h1 t1 H Ha1). congruence.
Qed.

(** Exactly one of the entries of a map with distinct timers belongs to
    the promise that owns a given timer. *)
Lemma lost_count_one (l : list (string * PendingEntry)) kp p :
  NoDup ((fun kp => timer (snd kp)) <$> l) ->
  kp ∈ l -> target_of (snd kp) = Caller p ->
  (forall kp', kp' ∈ l -> target_of (snd kp') = Caller p ->
               timer (snd kp') = timer (snd kp)) ->
  length (filter (fun d => d_target d = Caller p) (lost <$> l)) = 1%nat.
Proof.
  induction l as [|a l IH]; intros Hd Hin Ht Hsame.
  - by apply not_elem_of_nil in Hin.
  - rewrite fmap_cons in Hd. apply NoDup_cons in Hd as [Hn Hd].
    rewrite fmap_cons, filter_cons. simpl.
    apply elem_of_cons in Hin as [->|Hin].
    + rewrite decide_True by done. simpl. f_equal.
      rewrite filter_target_nil; [done|]. intros d Hdin Heq.
      apply list_elem_of_fmap in Hdin as (kp' & -> & Hkp'). simpl in Heq.
      apply Hn. apply list_elem_of_fmap. exists kp'. split; [|done].
      symmetry. apply Hsame; [by apply list_elem_of_further|done].
    + rewrite decide_False.
      * apply IH; try done. intros kp' Hkp'. apply Hsame.
        by apply list_elem_of_further.
      * intros Heq. apply Hn. apply list_elem_of_fmap. exists kp.
        split; [|done]. apply Hsame; [apply list_elem_of_here|done].
Qed.

(** The state after the loop of the close handler and [gwPending.clear()]. *)
Definition drained (s : State) : State :=
  set_gwPending []
    (fold_left reject_lost (gwPending s) (set_gwSocket None (set_gwReady false s))).

Lemma Inv_drained s : Inv s -> Inv (drained s).
Proof.
  intros HI. unfold drained. rewrite fold_reject_lost. simpl.
  set (hs := (fun kp : string * PendingEntry => timer (snd kp)) <$> gwPending s).
  assert (Hth : forall h t, cancel_all (gwPending s) (timers s) !! h = Some t ->
                            (h ∉ hs) /\ timers s !! h = Some t).
  { intros h t. rewrite cancel_all_lookup. fold hs. by destruct (decide (h ∈ hs)). }
  assert (Hct : forall h p,
            call_timer_in (cancel_all (gwPending s) (timers s)) h p <->
            (h ∉ hs) /\ call_timer s h p).
  { intros h p. unfold call_timer, call_timer_in. split.
    - intros (t & id & m & Hl & Ha). apply Hth in Hl as [? ?]. eauto 7.
    - intros [Hn (t & id & m & Hl & Ha)]. exists t, id, m. split; [|done].
      rewrite cancel_all_lookup. fold hs. by rewrite decide_False. }
  assert (Howner : forall kp p, kp ∈ gwPending s ->
            target_of (snd kp) = Caller p -> call_timer s (timer (snd kp)) p).
  { intros [id e] p Hin Heq. simpl in *. apply target_of_call in Heq.
    by apply (entry_call_timer s id e p). }
  assert (Hin_hs : forall kp, kp ∈ gwPending s -> timer (snd kp) ∈ hs).
  { intros kp Hin. apply list_elem_of_fmap. by exists kp. }
  destruct HI as [F1 F2 F3 F4 F5 F6 F7 F8 F9 F10 F11].
  split; unfold call_timer, settle_count; simpl; try done.
  - intros h t H. apply Hth in H as [_ H]. by apply F1 in H.
  - intros id e H. by apply not_elem_of_nil in H.
  - apply NoDup_nil_2.
  - intros h h' p. rewrite !Hct. intros [_ H1] [_ H2]. by apply (F4 h h' p).
  - intros h p. rewrite Hct. intros [Hn Hc].
    destruct (F5 h p Hc) as [Hlt Hz]. split; [done|].
    rewrite filter_app, length_app. unfold settle_count in Hz. rewrite Hz.
    rewrite filter_target_nil; [done|]. intros d Hin Heq.
    apply list_elem_of_fmap in Hin as (kp & -> & Hkp). simpl in Heq.
    apply Hn. rewrite (F4 h (timer kp.2) p); auto.
  - intros p Hlt. rewrite filter_app, length_app.
    destruct (F6 p Hlt) as [Hone|[h Hc]].
    + left. unfold settle_count in Hone. rewrite Hone.
      rewrite filter_target_nil; [done|]. intros d Hin Heq.
      apply list_elem_of_fmap in Hin as (kp & -> & Hkp). simpl in Heq.
      apply (Howner kp p Hkp) in Heq. apply F5 in Heq as [_ Hz].
      unfold settle_count in Hz. congruence.
    + destruct (decide (h ∈ hs)) as [Hin|Hnin].
      * left. destruct (F5 h p Hc) as [_ Hz]. unfold settle_count in Hz.
        rewrite Hz. simpl.
        apply list_elem_of_fmap in Hin as ([id e] & Hh & Hkp). simpl in Hh.
        destruct (F2 id e Hkp) as (t & Hl & Hm).
        destruct Hc as (t' & id' & m & Hl' & Ha'). rewrite <- Hh, Hl' in Hl.
        injection Hl as <-. rewrite Ha' in Hm.
        apply matches_call in Hm as [Hk _].
        apply (lost_count_one _ (id, e)); try done.
        -- simpl. by apply target_of_call.
        -- intros kp' Hkp' Heq. simpl.
           apply (F4 _ _ p); [by apply Howner|].
           apply (Howner (id, e)); [done|]. simpl. by apply target_of_call.
      * right. exists h. by apply Hct.
  - intros d p Hin Heq. apply elem_of_app in Hin as [Hin|Hin]; [by apply (F7 d p)|].
    apply list_elem_of_fmap in Hin as (kp & -> & Hkp). simpl in Heq.
    apply (Howner kp p Hkp) in Heq. by apply F5 in Heq as [? _].
  - intros h Hh. split; [done|]. destruct (F9 h Hh) as [_ (t & Hl & Ha)].
    exists t. split; [|done]. rewrite cancel_all_lookup. fold hs.
    rewrite decide_False; [done|]. intros Hin.
    apply list_elem_of_fmap in Hin as ([id e] & Heq & Hkp). simpl in Heq.
    destruct (F2 id e Hkp) as (t' & Hl' & Hm). rewrite <- Heq, Hl in Hl'.
    injection Hl' as <-. rewrite Ha in Hm. by apply matches_not_reconnect in Hm.
  - intros h t H Ha. apply Hth in H as [_ H]. by apply (F10 h t).
Qed.

(** Arming the reconnect timer (line 91). *)
Lemma Inv_arm_reconnect s ms :
  Inv s -> gwReconnectTimer s = None -> gwSocket s = None ->
  Inv (set_gwReconnectTimer (Some (nextTimer s)) (setTimeout TReconnect ms s).2).
Proof.
  intros HI Hflag Hsock. pose proof (timer_fresh_None s HI) as Hfresh.
  set (t0 := {| due := (clock s + timer_delay ms)%N; action := TReconnect |}).
  assert (Hct : forall h p, call_timer_in (<[nextTimer s := t0]> (timers s)) h p <->
                            call_timer s h p).
  { intros h p. rewrite call_timer_insert by done. split.
    - intros [[_ (? & ? & H)]|[_ ?]]; [done|done].
    - intros Hc. right. split; [|done]. intros ->.
      destruct Hc as (t & ? & ? & Hl & _). unfold call_timer in *. congruence. }
  destruct HI as [F1 F2 F3 F4 F5 F6 F7 F8 F9 F10 F11].
  split; unfold call_timer, settle_count, setTimeout; simpl; fold t0; try done.
  - intros h t. destruct (decide (h = nextTimer s)) as [->|Hne]; [lia|].
    rewrite lookup_insert_ne by done. intros H. apply F1 in H. lia.
  - intros id e Hin. destruct (F2 id e Hin) as (t & Hl & Hm).
    exists t. split; [|done]. rewrite lookup_insert_ne; [done|].
    intros Heq. rewrite <- Heq in Hl. congruence.
  - intros h h' p. rewrite !Hct. apply F4.
  - intros h p. rewrite Hct. apply F5.
  - intros p Hlt. destruct (F6 p Hlt) as [?|[h Hc]]; [by left|right].
    exists h. by apply Hct.
  - intros h [= <-]. split; [done|]. exists t0. by rewrite lookup_insert_eq.
  - intros h t. destruct (decide (h = nextTimer s)) as [->|Hne]; [done|].
    rewrite lookup_insert_ne by done. intros H Ha.
    pose proof (F10 h t H Ha). congruence.
Qed.

Lemma onClose_drained s :
  onClose s =
  match gwReconnectTimer s with
  | Some _ => drained s
  | None =>
      set_gwReconnectTimer (Some (nextTimer s))
        (setTimeout TReconnect 3000 (drained s)).2
  end.
Proof.
  unfold onClose, drained. simpl. rewrite !fold_reject_lost. simpl.
  by destruct (gwReconnectTimer s).
Qed.

Lemma Inv_onClose s : Inv s -> Inv (onClose s).
Proof.
  intros HI. rewrite onClose_drained.
  pose proof (Inv_drained s HI) as HD.
  destruct (gwReconnectTimer s) eqn:E; [done|].
  assert (nextTimer s = nextTimer (drained s)) as ->.
  { unfold drained. by rewrite fold_reject_lost. }
  apply Inv_arm_reconnect; [done| |].
  - unfold drained. by rewrite fold_reject_lost.
  - unfold drained. by rewrite fold_reject_lost.
Qed.

(** ** Closed forms of the handlers *)

(** The effect of a successful [send] on the socket. *)
Definition transmit (frame : json) (ws : WebSocket) : WebSocket :=
  match readyState ws with
  | OPEN => {| readyState := OPEN; outbox := outbox ws ++ [frame];
               closeArgs := closeArgs ws |}
  | _ => ws
  end.

Lemma ws_send_Ok frame ws :
  readyState ws <> CONNECTING -> ws_send frame ws = Ok (transmit frame ws).
Proof. unfold ws_send, transmit. by destruct (readyState ws). Qed.

Lemma ws_send_inv frame ws ws' :
  ws_send frame ws = Ok ws' ->
  readyState ws <> CONNECTING /\ ws' = transmit frame ws.
Proof.
  unfold ws_send, transmit. destruct (readyState ws); intros [= <-]; done.
Qed.

Lemma transmit_readyState frame ws :
  readyState (transmit frame ws) = readyState ws.
Proof. unfold transmit. by destruct (readyState ws) eqn:E. Qed.

Lemma ws_close_readyState code reason ws :
  readyState (ws_close code reason ws) <> CONNECTING /\
  readyState (ws_close code reason ws) <> OPEN.
Proof. unfold ws_close. by destruct (readyState ws) eqn:E; simpl; rewrite ?E. Qed.

Definition not_connected_error : outcome :=
  Rejected (Error "not connected to gateway").

Lemma gwCall_guard method args timeoutMs s :
  gwSocket s = None \/ gwReady s = false ->
  gwCall method args timeoutMs s =
  deliver (Caller (nextPromise s)) ByGuard not_connected_error
    (set_nextPromise (nextPromise s + 1)%N s).
Proof.
  intros H. unfold gwCall. simpl.
  destruct (gwSocket s); [|done]. destruct H as [H|H]; [done|].
  by rewrite H.
Qed.

(** The state after [gwCall] on a connected client. *)
Definition called (method : string) (args : option json) (timeoutMs : option N)
                  (ws : WebSocket) (s : State) : State :=
  let p := nextPromise s in
  let id := rpc_id (incr (gwReqId s)) in
  set_gwSocket (Some (transmit (call_frame method id args) ws))
    (set_gwPending
       (JsMap.set id {| kind := ECall p; timer := nextTimer s |} (gwPending s))
       (setTimeout (TCall id method p) (default 15000%N timeoutMs)
          (set_gwReqId (incr (gwReqId s)) (set_nextPromise (p + 1)%N s))).2).

Lemma gwCall_ready method args timeoutMs s ws :
  gwSocket s = Some ws -> gwReady s = true -> readyState ws <> CONNECTING ->
  gwCall method args timeoutMs s = called method args timeoutMs ws s.
Proof.
  intros Hs Hr Hc. unfold gwCall, called. simpl. rewrite Hs, Hr. simpl.
  by rewrite ws_send_Ok.
Qed.

(** The state after [gwSendConnect] when [send] does not throw. *)
Definition connect_sent (id instanceId : string) (ws : WebSocket) (s : State) : State :=
  set_gwPending
    (JsMap.set id {| kind := EAuth; timer := nextTimer s |} (gwPending s))
    (setTimeout (TAuth id) 10000
       (set_gwSocket (Some (transmit (connect_frame id instanceId (penv s)) ws)) s)).2.

Lemma gwSendConnect_Ok nonce id inst s s' :
  gwSendConnect nonce id inst s = Ok s' ->
  exists ws, gwSocket s = Some ws /\ readyState ws <> CONNECTING /\
             s' = connect_sent id inst ws s.
Proof.
  unfold gwSendConnect. destruct (gwSocket s) as [ws|]; [|done].
  destruct (ws_send _ ws) as [ws'|] eqn:E; [|done].
  apply ws_send_inv in E as [Hc ->]. intros [= <-]. eauto.
Qed.

(** What a matched response settles the entry with; evaluating it throws
    when [new Error] does. *)
Definition response_outcome (msg : json) : res outcome :=
  if not_false (get "ok" msg) then Ok (Resolved (response_value msg))
  else
    match response_error msg with
    | Ok err => Ok (Rejected err)
    | Throw m => Throw m
    end.

(** The state after a response has been matched with the entry [e]
    stored under [id] and has settled it with [o]. *)
Definition matched (o : outcome) (id : string) (e : PendingEntry) (s : State) : State :=
  let s2 := clearTimeout (timer e)
              (set_gwPending (JsMap.delete id (gwPending s)) s) in
  match o with
  | Resolved v => entry_resolve e ByResponse v s2
  | Rejected err => entry_reject e ByResponse err s2
  end.

Lemma response_outcome_cases msg o :
  response_outcome msg = Ok o ->
  (get "ok" msg <> Some (JBool false) /\ o = Resolved (response_value msg))
  \/ (get "ok" msg = Some (JBool false)
      /\ exists reason,
           ToString (or_else (get_opt "message" (get "error" msg)) (JStr "RPC error"))
             = Ok reason
           /\ o = Rejected (Error reason)).
Proof.
  unfold response_outcome, not_false, response_error, new_Error.
  destruct (get "ok" msg) as [[| [|] | | | |]|];
    try (intros [= <-]; by left).
  destruct (ToString _) as [reason|]; [|done].
  intros [= <-]. right. eauto.
Qed.

Lemma onResponse_matched msg id e s :
  get "id" msg = Some (JStr id) ->
  JsMap.get id (gwPending s) = Some e ->
  onResponse msg s =
  match response_outcome msg with
  | Ok o => Ok (matched o id e s)
  | Throw m => Throw m
  end.
Proof.
  intros Hid Hget. unfold onResponse, response_outcome, matched.
  rewrite Hid, Hget. destruct (not_false _); [done|].
  by destruct (response_error msg).
Qed.

Lemma onResponse_cases msg s s' :
  onResponse msg s = Ok s' ->
  s' = s \/
  exists id e o, get "id" msg = Some (JStr id) /\
                 JsMap.get id (gwPending s) = Some e /\
                 response_outcome msg = Ok o /\
                 s' = matched o id e s.
Proof.
  destruct (get "id" msg) as [[| | |id| |]|] eqn:Hid;
    try (unfold onResponse; rewrite Hid; intros [= <-]; by left).
  destruct (JsMap.get id (gwPending s)) as [e|] eqn:Hget;
    [|unfold onResponse; rewrite Hid, Hget; intros [= <-]; by left].
  rewrite (onResponse_matched msg id e s Hid Hget).
  destruct (response_outcome msg) as [o|] eqn:Ho; [|done].
  intros [= <-]. right. by exists id, e, o.
Qed.

Lemma matched_delivered o id e s :
  delivered (matched o id e s) =
  delivered s ++ [{| d_target := target_of e; d_cause := ByResponse;
                     d_outcome := o |}].
Proof.
  unfold matched, entry_resolve, entry_reject.
  destruct o; [|done]. by destruct (kind e).
Qed.

(** The five ways the message handler can end without throwing. *)
Lemma onMessage_cases now id inst data s s' :
  onMessage now id inst data s = Ok s' ->
  s' = s
  \/ (exists ws, gwSocket s = Some ws /\
                 s' = set_gwSocket (Some (ws_close 1008 "no nonce" ws)) s)
  \/ (exists nonce, gwSendConnect nonce id inst s = Ok s')
  \/ (exists msg, s' = onEvent now msg s)
  \/ (exists msg, onResponse msg s = Ok s').
Proof.
  unfold onMessage. destruct data as [msg|]; [|intros [= <-]; by left].
  assert (Hbody :
    (if is_str "event" (get "type" msg) && is_str "connect.challenge" (get "event" msg)
     then
       if negb (truthy_opt (get_opt "nonce" (get "payload" msg)))
       then match gwSocket s with
            | None => Throw "TypeError: Cannot read properties of null (reading 'close')"
            | Some ws => Ok (set_gwSocket (Some (ws_close 1008 "no nonce" ws)) s)
            end
       else gwSendConnect (default JNull (get_opt "nonce" (get "payload" msg))) id inst s
     else if is_str "event" (get "type" msg) then Ok (onEvent now msg s)
     else if is_str "res" (get "type" msg) && truthy_opt (get "id" msg)
     then onResponse msg s else Ok s) = Ok s' ->
    s' = s
    \/ (exists ws, gwSocket s = Some ws /\
                   s' = set_gwSocket (Some (ws_close 1008 "no nonce" ws)) s)
    \/ (exists nonce, gwSendConnect nonce id inst s = Ok s')
    \/ (exists msg, s' = onEvent now msg s)
    \/ (exists msg, onResponse msg s = Ok s')).
  { destruct (_ && _).
    - destruct (negb _).
      + destruct (gwSocket s) as [ws|]; [|done]. intros [= <-]. right. left. eauto.
      + intros H. right. right. left. eauto.
    - destruct (is_str "event" _); [intros [= <-]; do 3 right; left; eauto|].
      destruct (_ && _); [intros H; do 4 right; eauto|intros [= <-]; by left]. }
  destruct msg; try exact Hbody. done.
Qed.

(** ** Every step of the event loop preserves the invariant *)

Lemma Inv_matched o id e s ws :
  Inv s -> gwSocket s = Some ws -> readyState ws <> CONNECTING ->
  JsMap.get id (gwPending s) = Some e ->
  Inv (matched o id e s).
Proof.
  intros HI Hs Hc Hget. apply get_Some_elem in Hget.
  destruct (inv_entry_timer s HI id e Hget) as (t & Hl & Hm).
  set (d0 := {| d_target := target_of e; d_cause := ByResponse;
                d_outcome := o |}).
  apply (Inv_retire s _ (timer e) id [d0]); try done.
  - unfold matched, entry_resolve, entry_reject.
    destruct o; [|done]. by destruct (kind e).
  - unfold matched, entry_resolve, entry_reject.
    destruct o; [|done]. by destruct (kind e).
  - unfold matched, entry_resolve, entry_reject.
    destruct o; [|done]. by destruct (kind e).
  - apply matched_delivered.
  - unfold matched, entry_resolve, entry_reject.
    destruct o; [|done]. by destruct (kind e).
  - unfold matched, entry_resolve, entry_reject.
    destruct o; [|done]. by destruct (kind e).
  - unfold matched, entry_resolve, entry_reject.
    destruct o; [|done]. by destruct (kind e).
  - assert (gwSocket (matched o id e s) = Some ws) as ->.
    { unfold matched, entry_resolve, entry_reject.
      destruct o; [|done]. by destruct (kind e). }
    eauto.
  - intros Hnone. congruence.
  - intros id' e' Hin Heq.
    pose proof (NoDup_fmap_elem_inj (fun kp => timer (snd kp)) (gwPending s)
                  (id', e') (id, e) (inv_entry_nodup s HI) Hin Hget Heq) as Hpair.
    by injection Hpair.
  - intros d p Hin Heq. apply list_elem_of_singleton in Hin. subst d. simpl in Heq.
    apply target_of_call in Heq. by apply (entry_call_timer s id e p).
  - intros p (t' & id' & m & Hl' & Ha'). rewrite Hl in Hl'. injection Hl' as <-.
    rewrite Ha' in Hm. apply matches_call in Hm as [Hk _].
    rewrite filter_cons, filter_nil. simpl.
    rewrite decide_True; [done|]. by apply target_of_call.
  - intros t' Hl' Ha'. rewrite Hl in Hl'. injection Hl' as <-.
    rewrite Ha' in Hm. by apply matches_not_reconnect in Hm.
Qed.

Lemma Inv_fire s h t :
  Inv s -> timers s !! h = Some t ->
  Inv (fire (action t) (clearTimeout h s)).
Proof.
  intros HI Hl. destruct (action t) as [id m p| id |] eqn:Ha.
  - set (d0 := {| d_target := Caller p; d_cause := ByTimeout;
                  d_outcome := Rejected (Error ("RPC timeout: " +:+ m)) |}).
    apply (Inv_retire s _ h id [d0]); try done.
    + intros Hr. by apply (inv_ready s HI).
    + intros id' e' Hin Heq. destruct (inv_entry_timer s HI id' e' Hin) as (t' & Hl' & Hm).
      rewrite Heq, Hl in Hl'. injection Hl' as <-. rewrite Ha in Hm.
      by apply matches_call in Hm as [_ ?].
    + intros d p' Hin Heq. apply list_elem_of_singleton in Hin. subst d.
      simpl in Heq. injection Heq as <-. exists t, id, m. done.
    + intros p' (t' & id' & m' & Hl' & Ha'). rewrite Hl in Hl'. injection Hl' as <-.
      rewrite Ha in Ha'. injection Ha' as <- <- <-.
      rewrite filter_cons, filter_nil. simpl. by rewrite decide_True.
    + intros t' Hl'. rewrite Hl in Hl'. injection Hl' as <-. by rewrite Ha.
  - apply (Inv_retire s _ h id []); try done.
    + simpl. by rewrite app_nil_r.
    + intros Hr. by apply (inv_ready s HI).
    + intros id' e' Hin Heq. destruct (inv_entry_timer s HI id' e' Hin) as (t' & Hl' & Hm).
      rewrite Heq, Hl in Hl'. injection Hl' as <-. rewrite Ha in Hm.
      unfold matches in Hm. by destruct (kind e').
    + intros d p Hin. by apply not_elem_of_nil in Hin.
    + intros p (t' & id' & m' & Hl' & Ha'). rewrite Hl in Hl'. injection Hl' as <-.
      congruence.
    + intros t' Hl'. rewrite Hl in Hl'. injection Hl' as <-. by rewrite Ha.
  - by apply (Inv_fire_reconnect s h t).
Qed.

Lemma Inv_gwCall method args timeoutMs s :
  Inv s -> Inv (gwCall method args timeoutMs s).
Proof.
  intros HI. destruct (gwSocket s) as [ws|] eqn:Hs.
  - destruct (gwReady s) eqn:Hr.
    + destruct (inv_ready s HI Hr) as (ws0 & Hs0 & Hc).
      rewrite Hs in Hs0. injection Hs0 as <-.
      rewrite (gwCall_ready method args timeoutMs s ws) by done.
      eapply (Inv_arm s _ (rpc_id (incr (gwReqId s)))
                {| kind := ECall (nextPromise s); timer := nextTimer s |});
        try done; try reflexivity.
      * simpl. done.
      * exists ws, (transmit (call_frame method (rpc_id (incr (gwReqId s))) args) ws).
        split; [done|]. split; [done|]. apply transmit_readyState.
      * simpl. intros p [= <-]. done.
    + rewrite gwCall_guard by auto. by apply Inv_guard.
  - rewrite gwCall_guard by auto. by apply Inv_guard.
Qed.

Lemma Inv_onMessage now id inst data s s' ws :
  Inv s -> gwSocket s = Some ws -> readyState ws <> CONNECTING ->
  onMessage now id inst data s = Ok s' -> Inv s'.
Proof.
  intros HI Hs Hc H.
  apply onMessage_cases in H
    as [->|[(ws0 & Hs0 & ->)|[(nonce & H)|[(msg & ->)|(msg & H)]]]].
  - done.
  - rewrite Hs in Hs0. injection Hs0 as <-.
    apply (Inv_frame s); try done.
    + simpl. intros _. eexists. split; [done|]. apply ws_close_readyState.
    + simpl. congruence.
    + simpl. apply (inv_events s HI).
  - apply gwSendConnect_Ok in H as (ws0 & Hs0 & _ & ->).
    rewrite Hs in Hs0. injection Hs0 as <-.
    eapply (Inv_arm s _ id {| kind := EAuth; timer := nextTimer s |});
      try done; try reflexivity.
    exists ws, (transmit (connect_frame id inst (penv s)) ws).
      split; [done|]. split; [done|]. apply transmit_readyState.
  - apply (Inv_frame s); try done; try (unfold onEvent; by destruct (_ && _)).
    + assert (gwReady (onEvent now msg s) = gwReady s) as ->
        by (unfold onEvent; by destruct (_ && _)).
      assert (gwSocket (onEvent now msg s) = gwSocket s) as ->
        by (unfold onEvent; by destruct (_ && _)).
      apply (inv_ready s HI).
    + rewrite onEvent_gwEvents. apply push_event_length, (inv_events s HI).
  - apply onResponse_cases in H as [->|(id' & e & o & _ & Hget & _ & ->)]; [done|].
    by apply (Inv_matched o id' e s ws).
Qed.

Lemma Inv_exec s ev s' : Inv s -> exec s ev = Some s' -> Inv s'.
Proof.
  intros HI. destruct ev as [|now id inst data| | |h|dt|method args t]; simpl.
  - destruct (gwSocket s) as [ws|] eqn:Hs; [|done].
    destruct (readyState ws) eqn:Hrs; try done. intros [= <-].
    unfold onOpen. rewrite Hs. apply (Inv_frame s); simpl; try done.
    + intros _. eexists. split; [done|]. simpl. done.
    + congruence.
    + apply (inv_events s HI).
  - destruct (gwSocket s) as [ws|] eqn:Hs; [|done].
    destruct (readyState ws) eqn:Hrs; try done;
      (destruct (_ && _); [|done]);
      destruct (onMessage _ _ _ _ _) as [s1|] eqn:E; try done; intros [= <-];
      apply (Inv_onMessage _ _ _ _ _ _ ws HI Hs) in E; try done; congruence.
  - destruct (gwSocket s); [|done]. by intros [= <-].
  - destruct (gwSocket s); [|done]. intros [= <-]. by apply Inv_onClose.
  - destruct (timers s !! h) as [t|] eqn:Hl; [|done].
    destruct (due t <=? clock s)%N; [|done]. intros [= <-]. by apply Inv_fire.
  - intros [= <-]. apply (Inv_frame s); try done.
    + apply (inv_ready s HI).
    + apply (inv_events s HI).
  - intros [= <-]. by apply Inv_gwCall.
Qed.

Lemma Inv_run tr : forall s s', Inv s -> run s tr = Some s' -> Inv s'.
Proof.
  induction tr as [|ev tr IH]; simpl; intros s s' HI.
  - by intros [= <-].
  - destruct (exec s ev) as [s1|] eqn:E; [|done].
    apply IH. by apply (Inv_exec s ev).
Qed.

Lemma Inv_reachable s : reachable s -> Inv s.
Proof. intros (e & tr & H). apply (Inv_run tr (boot e)); [apply Inv_boot|done]. Qed.

(** ** The branches of the message handler *)

(** The frame is the challenge. *)
Definition is_challenge (msg : json) : bool :=
  is_str "event" (get "type" msg) && is_str "connect.challenge" (get "event" msg).

(** The frame is a response with a truthy id. *)
Definition is_response (msg : json) : bool :=
  is_str "res" (get "type" msg) && truthy_opt (get "id" msg).

(** The branch the message handler takes, with the frame it was given. *)
Lemma onMessage_inv now id inst data s s' :
  onMessage now id inst data s = Ok s' ->
  (data = None /\ s' = s)
  \/ exists msg, data = Some msg /\ msg <> JNull /\
       ((is_challenge msg = true
         /\ truthy_opt (get_opt "nonce" (get "payload" msg)) = false
         /\ exists ws, gwSocket s = Some ws
              /\ s' = set_gwSocket (Some (ws_close 1008 "no nonce" ws)) s)
        \/ (is_challenge msg = true
            /\ truthy_opt (get_opt "nonce" (get "payload" msg)) = true
            /\ gwSendConnect (default JNull (get_opt "nonce" (get "payload" msg)))
                 id inst s = Ok s')
        \/ (is_challenge msg = false /\ is_str "event" (get "type" msg) = true
            /\ s' = onEvent now msg s)
        \/ (is_str "event" (get "type" msg) = false /\ is_response msg = true
            /\ onResponse msg s = Ok s')
        \/ (is_str "event" (get "type" msg) = false /\ is_response msg = false
            /\ s' = s)).
Proof.
  unfold onMessage. destruct data as [msg|]; [|intros [= <-]; by left].
  intros H. right. exists msg. split; [done|].
  assert (Hnn : msg <> JNull) by (intros ->; done).
  split; [done|].
  assert (Hbody :
    (if is_challenge msg
     then
       if negb (truthy_opt (get_opt "nonce" (get "payload" msg)))
       then match gwSocket s with
            | None => Throw "TypeError: Cannot read properties of null (reading 'close')"
            | Some ws => Ok (set_gwSocket (Some (ws_close 1008 "no nonce" ws)) s)
            end
       else gwSendConnect (default JNull (get_opt "nonce" (get "payload" msg))) id inst s
     else if is_str "event" (get "type" msg) then Ok (onEvent now msg s)
     else if is_response msg then onResponse msg s else Ok s) = Ok s').
  { unfold is_challenge, is_response. by destruct msg. }
  clear H. destruct (is_challenge msg) eqn:Hc.
  - destruct (truthy_opt _) eqn:Hn; simpl in Hbody.
    + right. left. done.
    + left. destruct (gwSocket s) as [ws|]; [|done]. injection Hbody as <-.
      split; [done|]. split; [done|]. eauto.
  - destruct (is_str "event" (get "type" msg)) eqn:He.
    + injection Hbody as <-. do 2 right. left. done.
    + destruct (is_response msg) eqn:Hr.
      * do 3 right. left. done.
      * injection Hbody as <-. do 4 right. done.
Qed.

(** The steps of the event loop, by handler. *)
Lemma exec_cases s ev s' :
  exec s ev = Some s' ->
  (ev = SockOpen /\ s' = onOpen s
   /\ exists ws, gwSocket s = Some ws /\ readyState ws = CONNECTING)
  \/ (exists now u inst data ws,
        ev = SockMessage now u inst data
        /\ gwSocket s = Some ws /\ readyState ws <> CONNECTING
        /\ onMessage now u inst data s = Ok s')
  \/ (ev = SockError /\ s' = s)
  \/ (ev = SockClose /\ s' = onClose s)
  \/ (exists h t,
        ev = TimerFire h /\ timers s !! h = Some t
        /\ s' = fire (action t) (clearTimeout h s))
  \/ (exists dt, ev = Tick dt /\ s' = set_clock (clock s + dt)%N s)
  \/ (exists method args timeoutMs,
        ev = Call method args timeoutMs /\ s' = gwCall method args timeoutMs s).
Proof.
  destruct ev as [|now u inst data| | |h|dt|method args t]; simpl.
  - destruct (gwSocket s) as [ws|]; [|done].
    destruct (readyState ws) eqn:Hrs; try done. intros [= <-]. left. eauto.
  - destruct (gwSocket s) as [ws|] eqn:Hs; [|done].
    intros H. right. left. exists now, u, inst, data, ws.
    split; [done|]. split; [done|].
    destruct (readyState ws); try done; (destruct (_ && _); [|done]);
      destruct (onMessage _ _ _ _ _) as [s1|] eqn:E; try done;
      injection H as <-; done.
  - destruct (gwSocket s); [|done]. intros [= <-]. do 2 right. by left.
  - destruct (gwSocket s); [|done]. intros [= <-]. do 3 right. by left.
  - destruct (timers s !! h) as [t|] eqn:Hl; [|done].
    destruct (due t <=? clock s)%N; [|done]. intros [= <-].
    do 4 right. left. by exists h, t.
  - intros [= <-]. do 5 right. left. by exists dt.
  - intros [= <-]. do 6 right. by exists method, args, t.
Qed.

(** * The claims *)

(** ** Sample inputs *)

Definition sample_env : ProcessEnv := {| TOKEN := "secret"; platform := "linux" |}.
Definition uuid_a : string := "123e4567-e89b-42d3-a456-426614174000".
Definition uuid_b : string := "123e4567-e89b-42d3-a456-426614174001".

Definition challenge (payload : json) : json :=
  obj [("type", JStr "event"); ("event", JStr "connect.challenge");
       ("payload", payload)].

Definition hello_ok (id : string) : json :=
  obj [("type", JStr "res"); ("id", JStr id); ("ok", JBool true);
       ("payload", obj [("snapshot", obj [("presence", JArr [])])])].

Definition inbound (now : Z) (msg : json) : event :=
  SockMessage now uuid_a uuid_b (Some msg).

(** Open, challenge, connect accepted. *)
Definition handshake : list event :=
  [SockOpen; inbound 1 (challenge (obj [("nonce", JStr "n-1")]));
   inbound 2 (hello_ok uuid_a)].

(** The state reached from [s] by the events [tr], when they can all
    occur. *)
Definition after_from (s : State) (tr : list event) : State :=
  default s (run s tr).

Definition runs_from (s : State) (tr : list event) : bool :=
  match run s tr with Some _ => true | None => false end.

Lemma run_after_from s tr :
  runs_from s tr = true -> run s tr = Some (after_from s tr).
Proof. unfold runs_from, after_from. by destruct (run s tr). Qed.

Lemma run_single s ev : run s [ev] = exec s ev.
Proof. simpl. by destruct (exec s ev). Qed.

Definition after (tr : list event) : State := after_from (boot sample_env) tr.

Definition runs (tr : list event) : bool :=
  match run (boot sample_env) tr with Some _ => true | None => false end.

Lemma reachable_after tr : runs tr = true -> reachable (after tr).
Proof.
  unfold runs, after, after_from. intros H. exists sample_env, tr.
  by destruct (run (boot sample_env) tr).
Qed.

(** Closes an equation between closed terms by evaluating both sides. *)
Ltac by_evaluation :=
  lazymatch goal with
  | |- ?a = _ => vm_cast_no_check (@eq_refl _ a)
  end.

(** ** C3 *)

(** C3. When [gwCall] is invoked on a client that is not ready (no socket,
    or [gwReady] false), the promise is rejected inside the call with
    "not connected to gateway", and the pending map, the timers, the
    request counter and the socket are left as they were. *)
Theorem gwCall_not_connected method args timeoutMs s :
  gwSocket s = None \/ gwReady s = false ->
  let s' := gwCall method args timeoutMs s in
  delivered s' =
    delivered s ++ [{| d_target := Caller (nextPromise s); d_cause := ByGuard;
                       d_outcome := Rejected (Error "not connected to gateway") |}]
  /\ gwPending s' = gwPending s
  /\ timers s' = timers s /\ nextTimer s' = nextTimer s
  /\ gwReqId s' = gwReqId s /\ gwSocket s' = gwSocket s.
Proof.
  intros H s'. unfold s'. by rewrite gwCall_guard.
Qed.

Lemma gwCall_not_connected_witness :
  (gwSocket (boot sample_env) = None \/ gwReady (boot sample_env) = false)
  /\ gwPending (gwCall "status.get" None None (boot sample_env)) = []
  /\ delivered (gwCall "status.get" None None (boot sample_env)) =
       [{| d_target := Caller 0; d_cause := ByGuard;
           d_outcome := Rejected (Error "not connected to gateway") |}].
Proof.
  assert (H : gwSocket (boot sample_env) = None \/ gwReady (boot sample_env) = false)
    by (right; reflexivity).
  split; [exact H|].
  pose proof (gwCall_not_connected "status.get" None None (boot sample_env) H)
    as (Hd & Hp & _).
  split; [exact Hp|exact Hd].
Defined.

(** ** C5 *)

(** Two calls "a" then "b" are outstanding. *)
Definition two_calls : State :=
  after (handshake ++ [Call "a" None None; Call "b" None None]).

(** A response reporting a failure whose message is an object with a key
    [toString]. *)
Definition unconvertible_error (id : string) : json :=
  obj [("type", JStr "res"); ("id", JStr id); ("ok", JBool false);
       ("error", obj [("message", obj [("toString", JNum 1)])])].

(** C5, the input on which the code fails. Call "b" is pending under
    "rpc-2" and the gateway answers it with [ok: false] and an error
    message that is an object with a key [toString]. [new Error] cannot
    turn this message into a string and throws a TypeError inside the
    message handler: [reject] is never called, the caller of "b" receives
    no failure, and the exception ends the process. A message that is an
    array holding such an object does the same. *)
Theorem unconvertible_error_message_throws :
  JsMap.get "rpc-2" (gwPending two_calls) = Some {| kind := ECall 1; timer := 2 |}
  /\ settle_count (Caller 1) two_calls = 0%nat
  /\ onMessage 3 uuid_a uuid_b (Some (unconvertible_error "rpc-2")) two_calls
     = Throw "TypeError: Cannot convert object to primitive value"
  /\ exec two_calls (inbound 3 (unconvertible_error "rpc-2")) = None
  /\ ToString (JArr [JStr "denied"; obj [("toString", JNum 1)]])
     = Throw "TypeError: Cannot convert object to primitive value".
Proof. repeat split; by_evaluation. Qed.

(** ** C10 *)

(** C10. The record buffered for an event is [{ time: Date.now(), ...msg }]:
    its [time] field is the frame's own [time] field when the frame has
    one, and the local timestamp otherwise. *)
Theorem event_time_field now id inst msg s :
  get "type" msg = Some (JStr "event") ->
  get "event" msg <> Some (JStr "connect.challenge") ->
  exists s',
    onMessage now id inst (Some msg) s = Ok s'
    /\ last (gwEvents s') = Some (event_record now msg)
    /\ get "time" (event_record now msg) =
         match get "time" msg with
         | Some t => Some t
         | None => Some (JNum now)
         end
    /\ (get "time" (event_record now msg) = Some (JNum now) <->
        get "time" msg = None \/ get "time" msg = Some (JNum now)).
Proof.
  intros Ht He. exists (onEvent now msg s).
  split; [by apply onMessage_event|].
  split; [rewrite onEvent_gwEvents; apply push_event_last|].
  apply get_Some_obj in Ht as (m & -> & _).
  rewrite spread_obj_time. simpl.
  split; [done|].
  destruct (m !! "time") as [t|]; split; auto.
  intros [H|H]; [done|]. done.
Qed.

Definition tick_event (fields : list (string * json)) : json :=
  obj ([("type", JStr "event"); ("event", JStr "tick")] ++ fields).

Lemma event_time_field_witness :
  (exists s',
     onMessage 1700 uuid_a uuid_b (Some (tick_event [])) (after handshake) = Ok s'
     /\ (last (gwEvents s') ≫= get "time") = Some (JNum 1700))
  /\ (exists s',
     onMessage 1700 uuid_a uuid_b (Some (tick_event [("time", JStr "noon")]))
       (after handshake) = Ok s'
     /\ (last (gwEvents s') ≫= get "time") = Some (JStr "noon")).
Proof.
  split.
  - destruct (event_time_field 1700 uuid_a uuid_b (tick_event []) (after handshake))
      as (s' & Hs' & Hlast & Htime & _).
    + vm_compute. reflexivity.
    + vm_compute. discriminate.
    + exists s'. split; [exact Hs'|]. rewrite Hlast.
      etransitivity; [exact Htime|]. vm_compute. reflexivity.
  - destruct (event_time_field 1700 uuid_a uuid_b
                (tick_event [("time", JStr "noon")]) (after handshake))
      as (s' & Hs' & Hlast & Htime & _).
    + vm_compute. reflexivity.
    + vm_compute. discriminate.
    + exists s'. split; [exact Hs'|]. rewrite Hlast.
      etransitivity; [exact Htime|]. vm_compute. reflexivity.
Defined.

(** ** C7 *)

(** C7. In every reachable state the event buffer holds at most 50
    records. An event frame is appended at the end; when the buffer
    already holds 50 records the oldest one is removed and the other 49
    keep their order in front of the new one. *)
Theorem event_buffer_capacity s :
  reachable s ->
  (length (gwEvents s) <= 50)%nat
  /\ forall now id inst msg,
       get "type" msg = Some (JStr "event") ->
       get "event" msg <> Some (JStr "connect.challenge") ->
       exists s',
         onMessage now id inst (Some msg) s = Ok s'
         /\ (length (gwEvents s') <= 50)%nat
         /\ ((length (gwEvents s) < 50)%nat ->
             gwEvents s' = gwEvents s ++ [event_record now msg])
         /\ (forall oldest rest,
               gwEvents s = oldest :: rest -> length (gwEvents s) = 50%nat ->
               gwEvents s' = rest ++ [event_record now msg]).
Proof.
  intros Hr. pose proof (inv_events s (Inv_reachable s Hr)) as Hlen.
  split; [done|]. intros now id inst msg Ht He.
  exists (onEvent now msg s). split; [by apply onMessage_event|].
  rewrite onEvent_gwEvents.
  split; [by apply push_event_length|].
  split; [apply push_event_room|].
  intros oldest rest Heq Hfull. rewrite Heq in *.
  apply push_event_full. lia.
Qed.

(** Fifty events numbered 1 to 50 have been received. *)
Definition numbered (n : nat) : json := tick_event [("seq", JNum (Z.of_nat n))].

Definition fifty_events : State :=
  after (handshake ++ ((fun n => inbound (Z.of_nat n) (numbered n)) <$> seq 1 50)).

Lemma event_buffer_capacity_witness :
  reachable fifty_events
  /\ length (gwEvents fifty_events) = 50%nat
  /\ exists s',
       onMessage 51 uuid_a uuid_b (Some (numbered 51)) fifty_events = Ok s'
       /\ gwEvents s' =
            ((fun n => event_record (Z.of_nat n) (numbered n)) <$> seq 2 50).
Proof.
  assert (Hr : reachable fifty_events).
  { apply reachable_after. by_evaluation. }
  split; [exact Hr|]. split; [by_evaluation|].
  destruct (event_buffer_capacity fifty_events Hr) as [_ Hpush].
  destruct (Hpush 51%Z uuid_a uuid_b (numbered 51)) as (s' & Hs' & _ & _ & Hfull).
  - vm_compute. reflexivity.
  - vm_compute. discriminate.
  - exists s'. split; [exact Hs'|].
    refine (eq_trans
              (Hfull (event_record 1 (numbered 1))
                 ((fun n => event_record (Z.of_nat n) (numbered n)) <$> seq 2 49)
                 _ _) _);
      by_evaluation.
Defined.

(** ** C2 *)

Lemma onClose_fields s :
  gwPending (onClose s) = []
  /\ delivered (onClose s) = delivered s ++ (lost <$> gwPending s)
  /\ gwSocket (onClose s) = None /\ gwReady (onClose s) = false
  /\ nextPromise (onClose s) = nextPromise s
  /\ (forall h t, timers (onClose s) !! h = Some t ->
        (action t = TReconnect /\ h = nextTimer s)
        \/ ((h ∉ ((fun kp => timer (snd kp)) <$> gwPending s))
            /\ timers s !! h = Some t)).
Proof.
  rewrite onClose_drained. unfold drained. rewrite fold_reject_lost.
  destruct (gwReconnectTimer s); simpl; repeat split; try done.
  - intros h t. rewrite cancel_all_lookup.
    destruct (decide (h ∈ _)); [done|]. by right.
  - intros h t. destruct (decide (h = nextTimer s)) as [->|Hne].
    + rewrite lookup_insert_eq. intros [= <-]. by left.
    + rewrite lookup_insert_ne by done. rewrite cancel_all_lookup.
      destruct (decide (h ∈ _)); [done|]. by right.
Qed.

(** C2. When the close event is handled in a reachable state, every entry
    of the pending map has its timer cancelled and its [reject] invoked
    with "connection lost", whatever the deadline of its timer; the
    promise of every pending call goes from unsettled to settled once; the
    map is empty afterwards. *)
Theorem close_rejects_all_pending s s' :
  reachable s -> exec s SockClose = Some s' ->
  gwPending s' = []
  /\ delivered s' =
       delivered s ++
       ((fun kp => {| d_target := target_of (snd kp); d_cause := ByClose;
                      d_outcome := Rejected (Error "connection lost") |})
          <$> gwPending s)
  /\ (forall id e, (id, e) ∈ gwPending s -> timers s' !! timer e = None)
  /\ (forall id e p, (id, e) ∈ gwPending s -> kind e = ECall p ->
        settle_count (Caller p) s = 0%nat /\ settle_count (Caller p) s' = 1%nat)
  /\ gwSocket s' = None /\ gwReady s' = false.
Proof.
  intros Hr Hex. pose proof (Inv_reachable s Hr) as HI.
  simpl in Hex. destruct (gwSocket s) as [ws|]; [|done]. injection Hex as <-.
  pose proof (Inv_onClose s HI) as HI'.
  destruct (onClose_fields s) as (Hp & Hd & Hs & Hrd & Hnp & Ht).
  assert (Hgone : forall id e, (id, e) ∈ gwPending s ->
                               timers (onClose s) !! timer e = None).
  { intros id e Hin. destruct (timers (onClose s) !! timer e) as [t|] eqn:E; [|done].
    exfalso. destruct (Ht _ _ E) as [[_ Heq]|[Hn _]].
    - destruct (inv_entry_timer s HI id e Hin) as (t' & Hl & _).
      apply (inv_timer_fresh s HI) in Hl. lia.
    - apply Hn. apply list_elem_of_fmap. by exists (id, e). }
  do 3 (split; [done|]). split; [|done].
  intros id e p Hin Hk. pose proof (entry_call_timer s id e p HI Hin Hk) as Hc.
  split.
  - by apply (inv_timer_unsettled s HI (timer e) p).
  -
    destruct (inv_timer_unsettled s HI _ _ Hc) as [Hlt _].
    destruct (inv_promise (onClose s) HI' p) as [Hone|[h Hh]]; [lia|done|].
    exfalso. destruct Hh as (t & id' & m & Hl & Ha).
    destruct (Ht _ _ Hl) as [[Hrec _]|[Hn Hl']]; [congruence|].
    apply Hn. apply list_elem_of_fmap. exists (id, e). split; [|done]. simpl.
    apply (inv_timer_unique s HI h (timer e) p); [|done]. by exists t, id', m.
Qed.

(** The connection drops while three calls are pending. *)
Definition three_calls : State :=
  after (handshake ++ [Call "a" None None; Call "b" None (Some 500%N);
                       Call "c" None (Some 60000%N)]).

Lemma close_rejects_all_pending_witness :
  reachable three_calls
  /\ length (gwPending three_calls) = 3%nat
  /\ exists s', exec three_calls SockClose = Some s'
       /\ gwPending s' = []
       /\ delivered s' =
            delivered three_calls ++
            ((fun p => {| d_target := Caller p; d_cause := ByClose;
                          d_outcome := Rejected (Error "connection lost") |})
               <$> [0; 1; 2]%N).
Proof.
  assert (Hr : reachable three_calls) by (apply reachable_after; by_evaluation).
  split; [exact Hr|]. split; [by_evaluation|].
  exists (onClose three_calls).
  assert (Hex : exec three_calls SockClose = Some (onClose three_calls))
    by by_evaluation.
  split; [exact Hex|].
  destruct (close_rejects_all_pending three_calls _ Hr Hex) as (Hp & Hd & _).
  split; [exact Hp|]. etransitivity; [exact Hd|]. by_evaluation.
Defined.

(** ** C1 *)

Definition three_ways (c : cause) : Prop :=
  c = ByResponse \/ c = ByTimeout \/ c = ByClose.

(** What one step of the event loop can add: an invocation is made by
    the response branch, a call timer or the close handler, unless it
    settles the promise created by this very step; a new call timer
    belongs to the promise and to the request id created by this step.
    Both counters only grow. *)
Definition step_effect (s s' : State) : Prop :=
  (nextPromise s <= nextPromise s')%N
  /\ (gwReqId s <= gwReqId s')%N
  /\ (forall d, d ∈ delivered s' ->
        d ∈ delivered s \/ three_ways (d_cause d)
        \/ d_target d = Caller (nextPromise s))
  /\ (forall h t, timers s' !! h = Some t ->
        timers s !! h = Some t
        \/ forall id m p, action t = TCall id m p ->
             p = nextPromise s /\ id = rpc_id (gwReqId s')).

Lemma incr_le n : (n <= incr n)%N.
Proof. unfold incr. destruct (n <? max_safe)%N; lia. Qed.

Lemma step_effect_same s s1 :
  nextPromise s1 = nextPromise s -> gwReqId s1 = gwReqId s ->
  delivered s1 = delivered s -> timers s1 = timers s ->
  step_effect s s1.
Proof.
  intros Hn Hq Hd Ht. unfold step_effect. rewrite Hn, Hq, Hd, Ht.
  split; [lia|]. split; [lia|]. split; auto.
Qed.

Lemma step_effect_retire s s1 h ds :
  nextPromise s1 = nextPromise s -> gwReqId s1 = gwReqId s ->
  delivered s1 = delivered s ++ ds ->
  timers s1 = base.delete h (timers s) ->
  (forall d, d ∈ ds -> three_ways (d_cause d)) ->
  step_effect s s1.
Proof.
  intros Hn Hq Hd Ht Hds. unfold step_effect. rewrite Hn, Hq, Hd, Ht.
  split; [lia|]. split; [lia|]. split.
  - intros d Hin. apply elem_of_app in Hin as [?|Hin]; [by left|].
    right. left. by apply Hds.
  - intros h' t' H. apply lookup_delete_Some in H as [_ H]. by left.
Qed.

Lemma matched_fields o id e s :
  gwPending (matched o id e s) = JsMap.delete id (gwPending s)
  /\ timers (matched o id e s) = base.delete (timer e) (timers s)
  /\ nextPromise (matched o id e s) = nextPromise s
  /\ gwReqId (matched o id e s) = gwReqId s.
Proof.
  unfold matched, entry_resolve, entry_reject.
  destruct o; [|done]. by destruct (kind e).
Qed.

Lemma gwConnect_fields s :
  gwPending (gwConnect s) = gwPending s
  /\ timers (gwConnect s) = timers s
  /\ delivered (gwConnect s) = delivered s
  /\ nextPromise (gwConnect s) = nextPromise s
  /\ gwReqId (gwConnect s) = gwReqId s.
Proof.
  unfold gwConnect. destruct (gwSocket s) as [ws|]; [|done].
  by destruct (readyState ws).
Qed.

Lemma onMessage_effect now id inst data s s1 :
  onMessage now id inst data s = Ok s1 -> step_effect s s1.
Proof.
  intros H. apply onMessage_cases in H
    as [->|[(ws0 & Hs0 & ->)|[(nonce & H)|[(msg & ->)|(msg & H)]]]].
  - by apply step_effect_same.
  - by apply step_effect_same.
  - apply gwSendConnect_Ok in H as (ws0 & _ & _ & ->).
    split; [simpl; lia|]. split; [simpl; lia|]. split; [simpl; auto|].
    intros h t. simpl. destruct (decide (h = nextTimer s)) as [->|Hne].
    + rewrite lookup_insert_eq. intros [= <-]. right. simpl. done.
    + rewrite lookup_insert_ne by done. auto.
  - apply step_effect_same; unfold onEvent; by destruct (_ && _).
  - apply onResponse_cases in H as [->|(id' & e & o & _ & _ & _ & ->)];
      [by apply step_effect_same|].
    destruct (matched_fields o id' e s) as (_ & Ht & Hn & Hq).
    eapply step_effect_retire; [done|done|apply matched_delivered|done|].
    intros d Hin. apply list_elem_of_singleton in Hin. subst d. by left.
Qed.

Lemma gwCall_effect method args timeoutMs s :
  step_effect s (gwCall method args timeoutMs s).
Proof.
  unfold gwCall. simpl.
  assert (Hg : forall c o,
            step_effect s (deliver (Caller (nextPromise s)) c o
                             (set_nextPromise (nextPromise s + 1)%N s))).
  { intros c o. split; [simpl; lia|]. split; [simpl; lia|]. split; [|simpl; auto].
    simpl. intros d Hin. apply elem_of_app in Hin as [?|Hin]; [by left|].
    apply list_elem_of_singleton in Hin. subst d. right. by right. }
  destruct (gwSocket s) as [ws|] eqn:Hs; [|apply Hg].
  destruct (gwReady s); simpl; [|apply Hg].
  pose proof (incr_le (gwReqId s)) as Hle.
  assert (Htm : forall h0 t0,
            <[nextTimer s := {| due := (clock s + timer_delay (default 15000%N timeoutMs))%N;
                 action := TCall (rpc_id (incr (gwReqId s))) method (nextPromise s) |}]>
              (timers s) !! h0 = Some t0 ->
            timers s !! h0 = Some t0
            \/ forall id m p, action t0 = TCall id m p ->
                 p = nextPromise s /\ id = rpc_id (incr (gwReqId s))).
  { intros h0 t0. destruct (decide (h0 = nextTimer s)) as [->|Hne].
    - rewrite lookup_insert_eq. intros [= <-]. right. simpl.
      by intros id m p [= <- _ <-].
    - rewrite lookup_insert_ne by done. auto. }
  destruct (ws_send _ ws) as [ws'|msg]; simpl.
  - split; [simpl; lia|]. split; [done|]. split; [simpl; auto|done].
  - split; [simpl; lia|]. split; [done|]. split; [|done].
    simpl. intros d Hin. apply elem_of_app in Hin as [?|Hin]; [by left|].
    apply list_elem_of_singleton in Hin. subst d. right. by right.
Qed.

Lemma exec_effect s ev s' : exec s ev = Some s' -> step_effect s s'.
Proof.
  destruct ev as [|now id inst data| | |h|dt|method args t]; simpl.
  - destruct (gwSocket s) as [ws|] eqn:Hs; [|done].
    destruct (readyState ws); try done. intros [= <-].
    apply step_effect_same; unfold onOpen; by rewrite Hs.
  - destruct (gwSocket s) as [ws|] eqn:Hs; [|done].
    destruct (readyState ws); try done; (destruct (_ && _); [|done]);
      destruct (onMessage _ _ _ _ _) as [s1|] eqn:E; try done;
      intros [= <-]; by apply (onMessage_effect now id inst data).
  - destruct (gwSocket s); [|done]. intros [= <-]. by apply step_effect_same.
  - destruct (gwSocket s); [|done]. intros [= <-].
    destruct (onClose_fields s) as (_ & Hd & _ & _ & Hnp & Ht).
    split; [lia|]. split.
    { rewrite onClose_drained. unfold drained. rewrite fold_reject_lost.
      destruct (gwReconnectTimer s); simpl; lia. }
    split.
    + intros d. rewrite Hd. intros Hin.
      apply elem_of_app in Hin as [?|Hin]; [by left|].
      apply list_elem_of_fmap in Hin as (kp & -> & _). right. left.
      right. by right.
    + intros h t H. destruct (Ht h t H) as [[Ha _]|[_ ?]]; [right|by left].
      intros id m p. by rewrite Ha.
  - destruct (timers s !! h) as [t|] eqn:Hl; [|done].
    destruct (due t <=? clock s)%N; [|done]. intros [= <-].
    destruct (action t) as [id m p| id |]; simpl.
    + eapply (step_effect_retire s _ h [_]); try done.
      intros d Hin. apply list_elem_of_singleton in Hin. subst d. right. by left.
    + eapply (step_effect_retire s _ h []); try done.
      * simpl. by rewrite app_nil_r.
      * intros d Hin. by apply not_elem_of_nil in Hin.
    + destruct (gwConnect_fields (set_gwReconnectTimer None (clearTimeout h s)))
        as (_ & Ht & Hd & Hn & Hq).
      eapply (step_effect_retire s _ h []); try done.
      * rewrite Hd. simpl. by rewrite app_nil_r.
      * intros d Hin. by apply not_elem_of_nil in Hin.
  - intros [= <-]. by apply step_effect_same.
  - intros [= <-]. apply gwCall_effect.
Qed.








(** ** C4 *)

Lemma rpc_id_inj a b : rpc_id a = rpc_id b -> a = b.
Proof.
  unfold rpc_id. intros H. apply (inj (String.app "rpc-")) in H.
  by apply pretty_N_inj in H.
Qed.

Lemma rpc_id_not_uuid k : is_uuid (rpc_id k) = false.
Proof. reflexivity. Qed.

Lemma rpc_id_not_empty k : rpc_id k <> "".
Proof. discriminate. Qed.

Lemma get_delete_Some {V} k k' (v : V) m :
  JsMap.get k' (JsMap.delete k m) = Some v -> JsMap.get k' m = Some v.
Proof.
  destruct (decide (k' = k)) as [->|Hne].
  - by rewrite get_delete_eq.
  - by rewrite get_delete_ne.
Qed.

Lemma get_set_Some {V} k k' (v v' : V) m :
  JsMap.get k' (JsMap.set k v m) = Some v' ->
  k' = k \/ JsMap.get k' m = Some v'.
Proof.
  destruct (decide (k' = k)) as [->|Hne]; [by left|].
  rewrite get_set_ne by done. by right.
Qed.










(** ** C8 *)

Lemma drained_fields s :
  gwReconnectTimer (drained s) = gwReconnectTimer s
  /\ nextTimer (drained s) = nextTimer s
  /\ clock (drained s) = clock s
  /\ gwSocket (drained s) = None.
Proof. unfold drained. by rewrite fold_reject_lost. Qed.

Lemma onClose_armed s h :
  gwReconnectTimer s = Some h -> onClose s = drained s.
Proof. intros H. rewrite onClose_drained. by rewrite H. Qed.

Lemma onClose_unarmed s :
  gwReconnectTimer s = None ->
  gwReconnectTimer (onClose s) = Some (nextTimer s)
  /\ nextTimer (onClose s) = (nextTimer s + 1)%N
  /\ timers (onClose s) !! nextTimer s =
       Some {| due := (clock s + 3000)%N; action := TReconnect |}.
Proof.
  intros H. rewrite onClose_drained, H.
  destruct (drained_fields s) as (_ & Hn & Hc & _).
  unfold setTimeout. cbn -[drained timer_delay]. rewrite Hn, Hc.
  split; [done|]. split; [done|]. by rewrite lookup_insert_eq.
Qed.

(** C8. In every reachable state at most one reconnect timer is armed.
    The close handler leaves an armed reconnect timer alone and arms
    nothing; otherwise it arms one timer due 3000 ms later; running the
    close handler a second time arms nothing more. When the reconnect
    timer fires, [gwReconnectTimer] is null and a new socket is
    connecting in the state the callback leaves, no reconnect timer is
    armed, and a close of that socket arms a new one. *)
Theorem reconnect_timer_single s :
  reachable s ->
  (forall h h' t t',
     timers s !! h = Some t -> action t = TReconnect ->
     timers s !! h' = Some t' -> action t' = TReconnect -> h = h')
  /\ (forall h, gwReconnectTimer s = Some h ->
        gwReconnectTimer (onClose s) = Some h
        /\ nextTimer (onClose s) = nextTimer s
        /\ forall h' t', timers (onClose s) !! h' = Some t' ->
                         action t' = TReconnect -> h' = h)
  /\ (gwReconnectTimer s = None ->
        gwReconnectTimer (onClose s) = Some (nextTimer s)
        /\ timers (onClose s) !! nextTimer s =
             Some {| due := (clock s + 3000)%N; action := TReconnect |}
        /\ forall h' t', timers (onClose s) !! h' = Some t' ->
                         action t' = TReconnect -> h' = nextTimer s)
  /\ (gwReconnectTimer (onClose (onClose s)) = gwReconnectTimer (onClose s)
      /\ nextTimer (onClose (onClose s)) = nextTimer (onClose s)
      /\ is_Some (gwReconnectTimer (onClose s)))
  /\ (forall h t,
        timers s !! h = Some t -> action t = TReconnect -> (due t <= clock s)%N ->
        exists s',
          exec s (TimerFire h) = Some s'
          /\ s' = gwConnect (set_gwReconnectTimer None (clearTimeout h s))
          /\ gwReconnectTimer s' = None
          /\ gwSocket s' = Some new_WebSocket
          /\ (forall h' t', timers s' !! h' = Some t' -> action t' <> TReconnect)
          /\ exists s'',
               exec s' SockClose = Some s''
               /\ gwReconnectTimer s'' = Some (nextTimer s)
               /\ timers s'' !! nextTimer s =
                    Some {| due := (clock s + 3000)%N; action := TReconnect |}).
Proof.
  intros Hr. pose proof (Inv_reachable s Hr) as HI.
  pose proof (Inv_onClose s HI) as HI'.
  assert (Hone : forall s0 h0, Inv s0 -> gwReconnectTimer s0 = Some h0 ->
            forall h' t', timers s0 !! h' = Some t' -> action t' = TReconnect ->
                          h' = h0).
  { intros s0 h0 HI0 Hf h' t' Hl Ha.
    pose proof (inv_reconnect_unique s0 HI0 h' t' Hl Ha). congruence. }
  assert (Hsome : forall s0, is_Some (gwReconnectTimer (onClose s0))).
  { intros s0. destruct (gwReconnectTimer s0) as [h|] eqn:E.
    - rewrite (onClose_armed s0 h E).
      destruct (drained_fields s0) as (-> & _). by rewrite E.
    - destruct (onClose_unarmed s0 E) as (-> & _). done. }
  split; [|split; [|split; [|split]]].
  - intros h h' t t' Hl Ha Hl' Ha'.
    pose proof (inv_reconnect_unique s HI h t Hl Ha).
    pose proof (inv_reconnect_unique s HI h' t' Hl' Ha'). congruence.
  - intros h Hf.
    assert (Hflag : gwReconnectTimer (onClose s) = Some h).
    { rewrite (onClose_armed s h Hf). destruct (drained_fields s) as (-> & _). done. }
    split; [done|]. split.
    + rewrite (onClose_armed s h Hf). by destruct (drained_fields s) as (_ & -> & _).
    + by apply Hone.
  - intros Hf. destruct (onClose_unarmed s Hf) as (Hflag & _ & Hl).
    split; [done|]. split; [done|]. by apply Hone.
  - destruct (Hsome s) as [h Hh]. rewrite (onClose_armed (onClose s) h Hh).
    destruct (drained_fields (onClose s)) as (-> & -> & _). done.
  - intros h t Hl Ha Hdue.
    pose proof (inv_reconnect_unique s HI h t Hl Ha) as Hflag.
    destruct (inv_reconnect_armed s HI h Hflag) as [Hnone _].
    exists (gwConnect (set_gwReconnectTimer None (clearTimeout h s))).
    assert (Hex : exec s (TimerFire h) =
                  Some (gwConnect (set_gwReconnectTimer None (clearTimeout h s)))).
    { unfold exec. rewrite Hl.
      assert ((due t <=? clock s)%N = true) as -> by by apply N.leb_le.
      by rewrite Ha. }
    pose proof (Inv_exec s _ _ HI Hex) as HIf.
    assert (Hshape : gwConnect (set_gwReconnectTimer None (clearTimeout h s)) =
              set_gwReady false (set_gwSocket (Some new_WebSocket)
                (set_gwReconnectTimer None (clearTimeout h s)))).
    { unfold gwConnect. simpl. by rewrite Hnone. }
    split; [done|]. split; [done|]. rewrite Hshape in *.
    split; [done|]. split; [done|]. split.
    + intros h' t' Hl' Ha'.
      by pose proof (inv_reconnect_unique _ HIf h' t' Hl' Ha').
    + eexists. split; [done|].
      by destruct (onClose_unarmed
                     (set_gwReady false (set_gwSocket (Some new_WebSocket)
                        (set_gwReconnectTimer None (clearTimeout h s)))) eq_refl)
        as (? & _ & ?).
Qed.

(** The connection drops while three calls are pending; three seconds
    later the reconnect timer fires. *)
Definition dropped : State := after
  (handshake ++ [Call "a" None None; Call "b" None None; Call "c" None None;
                 SockClose; Tick 3000]).

Lemma reconnect_timer_single_witness :
  reachable dropped
  /\ gwReconnectTimer dropped = Some 4%N
  /\ gwReconnectTimer (onClose dropped) = Some 4%N
  /\ nextTimer (onClose dropped) = nextTimer dropped
  /\ exists s', exec dropped (TimerFire 4) = Some s'
       /\ gwReconnectTimer s' = None /\ gwSocket s' = Some new_WebSocket.
Proof.
  assert (Hr : reachable dropped) by (apply reachable_after; by_evaluation).
  assert (Hflag : gwReconnectTimer dropped = Some 4%N) by by_evaluation.
  destruct (reconnect_timer_single dropped Hr) as (_ & Harmed & _ & _ & Hfire).
  destruct (Harmed 4%N Hflag) as (Hsame & Hnext & _).
  destruct (Hfire 4%N {| due := 3000; action := TReconnect |})
    as (s' & Hex & _ & Hnull & Hsock & _).
  - by_evaluation.
  - reflexivity.
  - vm_compute. discriminate.
  - split; [exact Hr|]. split; [exact Hflag|]. split; [exact Hsame|].
    split; [exact Hnext|]. exists s'. split; [exact Hex|]. split; [exact Hnull|exact Hsock].
Defined.

(** ** C6 *)

(** The socket is closing, closed or released. *)
Definition torn_down (s : State) : Prop :=
  match gwSocket s with
  | None => True
  | Some ws => readyState ws = CLOSING \/ readyState ws = CLOSED
  end.

(** The three handshake faults, as events of the loop. *)
Definition handshake_fault (s : State) (ev : event) : Prop :=
  match ev with
  | SockMessage _ _ _ (Some msg) =>
      (is_str "event" (get "type" msg) = true
       /\ is_str "connect.challenge" (get "event" msg) = true
       /\ truthy_opt (get_opt "nonce" (get "payload" msg)) = false)
      \/ (is_str "res" (get "type" msg) = true
          /\ get "ok" msg = Some (JBool false)
          /\ exists id e, get "id" msg = Some (JStr id)
               /\ JsMap.get id (gwPending s) = Some e /\ kind e = EAuth)
  | TimerFire h =>
      exists t id, timers s !! h = Some t /\ action t = TAuth id
  | _ => False
  end.

(** The claim as the specification states it: handling a handshake fault
    leaves the connection being torn down with a reconnect scheduled or
    about to be (the close handler schedules it). *)
Definition every_fault_fatal : Prop :=
  forall s ev s',
    reachable s -> handshake_fault s ev -> exec s ev = Some s' -> torn_down s'.

Definition auth_rejected (id : string) : json :=
  obj [("type", JStr "res"); ("id", JStr id); ("ok", JBool false);
       ("error", obj [("message", JStr "unauthorized")])].

Definition awaiting_auth : State :=
  after [SockOpen; inbound 1 (challenge (obj [("nonce", JStr "n-1")]))].

(** C6, counterexample: the connect request is rejected; the socket stays
    open, nothing is closed and no reconnect timer is armed. *)
Lemma auth_rejection_not_fatal : ~ every_fault_fatal.
Proof.
  intros Hfatal.
  assert (Hr : reachable awaiting_auth) by (apply reachable_after; by_evaluation).
  assert (Hex : exec awaiting_auth (inbound 2 (auth_rejected uuid_a)) =
                Some (matched (Rejected (Error "unauthorized")) uuid_a
                        {| kind := EAuth; timer := 0 |} awaiting_auth))
    by by_evaluation.
  pose proof (Hfatal awaiting_auth (inbound 2 (auth_rejected uuid_a))
                (matched (Rejected (Error "unauthorized")) uuid_a
                   {| kind := EAuth; timer := 0 |} awaiting_auth) Hr) as H.
  assert (Hfault : handshake_fault awaiting_auth (inbound 2 (auth_rejected uuid_a))).
  { right. split; [by_evaluation|]. split; [by_evaluation|].
    exists uuid_a, {| kind := EAuth; timer := 0 |}.
    split; [by_evaluation|]. split; [by_evaluation|reflexivity]. }
  specialize (H Hfault Hex).
  assert (Hopen : gwSocket (matched (Rejected (Error "unauthorized")) uuid_a
                     {| kind := EAuth; timer := 0 |} awaiting_auth) =
                  Some {| readyState := OPEN;
                          outbox := [connect_frame uuid_a uuid_b sample_env];
                          closeArgs := None |}) by by_evaluation.
  unfold torn_down in H. rewrite Hopen in H.
  destruct H as [H|H]; discriminate H.
Qed.

(** The same holds when the connect request times out. *)
Example auth_timeout_not_fatal :
  exists s',
    run awaiting_auth [Tick 10000; TimerFire 0] = Some s'
    /\ gwSocket s' = Some {| readyState := OPEN;
                             outbox := [connect_frame uuid_a uuid_b sample_env];
                             closeArgs := None |}
    /\ gwReady s' = false /\ gwReconnectTimer s' = None
    /\ gwPending s' = [] /\ timers s' = ∅.
Proof.
  exists (fire (TAuth uuid_a) (clearTimeout 0 (set_clock 10000 awaiting_auth))).
  split; [by_evaluation|]. repeat split; by_evaluation.
Qed.

(** The close handler cancels the timer of every pending entry. *)
Lemma onClose_cancels s id e :
  Inv s -> (id, e) ∈ gwPending s -> timers (onClose s) !! timer e = None.
Proof.
  intros HI Hin. destruct (onClose_fields s) as (_ & _ & _ & _ & _ & Ht).
  destruct (timers (onClose s) !! timer e) as [t|] eqn:E; [|done].
  exfalso. destruct (Ht _ _ E) as [[_ Heq]|[Hn _]].
  - destruct (inv_entry_timer s HI id e Hin) as (t' & Hl & _).
    apply (inv_timer_fresh s HI) in Hl. lia.
  - apply Hn. apply list_elem_of_fmap. by exists (id, e).
Qed.

(** On a closing socket with no reconnect timer armed, no event other
    than the close event changes the socket (nothing is transmitted on
    it) or arms a reconnect. *)
Lemma closing_exec s ev s' ws :
  Inv s -> gwSocket s = Some ws -> readyState ws = CLOSING ->
  gwReconnectTimer s = None -> ev <> SockClose -> exec s ev = Some s' ->
  gwSocket s' = Some ws /\ gwReconnectTimer s' = None.
Proof.
  intros HI Hs Hcl Hflag Hne Hex.
  assert (Hc : readyState ws <> CONNECTING) by congruence.
  assert (Htr : forall frame, transmit frame ws = ws)
    by (intros frame; unfold transmit; by rewrite Hcl).
  apply exec_cases in Hex
    as [(_ & _ & ws0 & Hs0 & Hrs)|[(now & u & inst & data & ws0 & -> & Hs0 & _ & Hmsg)
       |[[_ ->]|[[-> _]|[(h & t & -> & Hl & ->)|[(dt & _ & ->)
       |(method & args & tm & -> & ->)]]]]]]; try done.
  - congruence.
  - apply onMessage_inv in Hmsg as [[_ ->]|(msg & -> & Hnn & H)]; [done|].
    destruct H as [(_ & _ & ws1 & Hs1 & ->)|[(_ & _ & Hsend)
                  |[(_ & _ & ->)|[(_ & _ & Hres)|(_ & _ & ->)]]]]; try done.
    + rewrite Hs in Hs1. injection Hs1 as <-. simpl.
      unfold ws_close. by rewrite Hcl.
    + apply gwSendConnect_Ok in Hsend as (ws1 & Hs1 & _ & ->).
      rewrite Hs in Hs1. injection Hs1 as <-. simpl. by rewrite Htr.
    + by destruct (onEvent_frame now msg s) as (-> & _ & _ & _ & -> & _).
    + apply onResponse_cases in Hres as [->|(k & e & o & _ & _ & _ & ->)]; [done|].
      unfold matched, entry_resolve, entry_reject.
      destruct o; [|done]. by destruct (kind e).
  - destruct (action t) as [id m p| id |] eqn:Ha; simpl; try done.
    pose proof (inv_reconnect_unique s HI h t Hl Ha). congruence.
  - destruct (gwReady s) eqn:Hr.
    + rewrite (gwCall_ready method args tm s ws) by done. simpl. by rewrite Htr.
    + rewrite gwCall_guard by auto. done.
Qed.

Lemma closing_run ws tr :
  forall s s',
    Inv s -> gwSocket s = Some ws -> readyState ws = CLOSING ->
    gwReconnectTimer s = None -> SockClose ∉ tr -> run s tr = Some s' ->
    Inv s' /\ gwSocket s' = Some ws /\ gwReconnectTimer s' = None.
Proof.
  induction tr as [|ev tr IH]; simpl; intros s s' HI Hs Hcl Hflag Hno.
  - by intros [= <-].
  - destruct (exec s ev) as [s1|] eqn:E; [|done].
    apply not_elem_of_cons in Hno as [Hne Hno].
    destruct (closing_exec s ev s1 ws HI Hs Hcl Hflag) as [Hs1 Hflag1]; try done.
    apply IH; try done. by apply (Inv_exec s ev).
Qed.

(** C6, as the code has it. A challenge without a (truthy) nonce closes
    the open socket with code 1008 and reason "no nonce"; no frame is
    sent, no callback is invoked and the pending map and the timers are
    untouched. From then on, whatever runs before the close event, the
    socket stays as it is (nothing more is transmitted on it), and the
    close event releases it, invokes [reject] with "connection lost" for
    every pending entry, cancels their timers, empties the map and arms
    the reconnect timer, due 3000 ms later. A rejected connect request,
    when its error message can be turned into a string, and the timeout
    of the connect request only remove the pending entry and its timer
    (the rejection is logged): the socket with its sent frames, [gwReady]
    and [gwReconnectTimer] are unchanged, so nothing is sent, nothing is
    closed and no reconnect is scheduled. *)
Theorem handshake_fault_effects s :
  (forall now u inst msg ws,
     reachable s ->
     get "type" msg = Some (JStr "event") ->
     get "event" msg = Some (JStr "connect.challenge") ->
     truthy_opt (get_opt "nonce" (get "payload" msg)) = false ->
     gwSocket s = Some ws -> readyState ws = OPEN ->
     let closing := {| readyState := CLOSING; outbox := outbox ws;
                       closeArgs := Some (1008%Z, "no nonce") |} in
     exists s',
       onMessage now u inst (Some msg) s = Ok s'
       /\ gwSocket s' = Some closing
       /\ gwPending s' = gwPending s /\ timers s' = timers s
       /\ delivered s' = delivered s
       /\ forall tr s1,
            (SockClose ∉ tr) -> run s' tr = Some s1 ->
            gwSocket s1 = Some closing
            /\ exists s2,
                 exec s1 SockClose = Some s2
                 /\ gwSocket s2 = None /\ gwReady s2 = false
                 /\ gwPending s2 = []
                 /\ delivered s2 =
                      delivered s1 ++
                      ((fun kp => {| d_target := target_of (snd kp);
                                     d_cause := ByClose;
                                     d_outcome := Rejected (Error "connection lost") |})
                         <$> gwPending s1)
                 /\ (forall id e, (id, e) ∈ gwPending s1 ->
                       timers s2 !! timer e = None)
                 /\ gwReconnectTimer s2 = Some (nextTimer s1)
                 /\ timers s2 !! nextTimer s1 =
                      Some {| due := (clock s1 + 3000)%N; action := TReconnect |})
  /\ (forall now u inst msg id e reason,
        get "type" msg = Some (JStr "res") ->
        get "id" msg = Some (JStr id) -> id <> "" ->
        get "ok" msg = Some (JBool false) ->
        JsMap.get id (gwPending s) = Some e -> kind e = EAuth ->
        ToString (or_else (get_opt "message" (get "error" msg)) (JStr "RPC error"))
          = Ok reason ->
        exists s',
          onMessage now u inst (Some msg) s = Ok s'
          /\ gwSocket s' = gwSocket s /\ gwReady s' = gwReady s
          /\ gwReconnectTimer s' = gwReconnectTimer s
          /\ gwPending s' = JsMap.delete id (gwPending s)
          /\ timers s' = base.delete (timer e) (timers s)
          /\ delivered s' =
               delivered s ++ [{| d_target := Handshake; d_cause := ByResponse;
                                  d_outcome := Rejected (Error reason) |}])
  /\ (forall h t id,
        timers s !! h = Some t -> action t = TAuth id -> (due t <= clock s)%N ->
        exists s',
          exec s (TimerFire h) = Some s'
          /\ gwSocket s' = gwSocket s /\ gwReady s' = gwReady s
          /\ gwReconnectTimer s' = gwReconnectTimer s
          /\ gwPending s' = JsMap.delete id (gwPending s)
          /\ timers s' = base.delete h (timers s)
          /\ delivered s' = delivered s).
Proof.
  split; [|split].
  - intros now u inst msg ws Hr Hty Hev Hnonce Hs Hopen closing.
    pose proof (Inv_reachable s Hr) as HI.
    set (s1 := set_gwSocket (Some (ws_close 1008 "no nonce" ws)) s).
    assert (Hclosing : ws_close 1008 "no nonce" ws = closing)
      by (unfold ws_close; by rewrite Hopen).
    assert (Hmsg : onMessage now u inst (Some msg) s = Ok s1).
    { unfold onMessage.
      assert (is_str "event" (get "type" msg) = true) as -> by by apply is_str_true.
      assert (is_str "connect.challenge" (get "event" msg) = true) as ->
        by by apply is_str_true.
      rewrite Hnonce, Hs. simpl. apply get_Some_obj in Hty as (m & -> & _). done. }
    assert (HI1 : Inv s1).
    { apply (Inv_onMessage now u inst (Some msg) s s1 ws); try done.
      rewrite Hopen. done. }
    assert (Hflag : gwReconnectTimer s1 = None).
    { destruct (gwReconnectTimer s) as [h|] eqn:E; [|done].
      destruct (inv_reconnect_armed s HI h E) as [Hnone _]. congruence. }
    exists s1. split; [exact Hmsg|].
    split; [unfold s1; simpl; by rewrite Hclosing|].
    do 3 (split; [done|]).
    intros tr s2 Hno Hrun.
    destruct (closing_run closing tr s1 s2) as (HI2 & Hs2 & Hflag2); try done.
    { unfold s1. simpl. by rewrite Hclosing. }
    split; [done|].
    exists (onClose s2). split; [simpl; by rewrite Hs2|].
    destruct (onClose_fields s2) as (Hp & Hd & Hsock & Hrd & _).
    destruct (onClose_unarmed s2 Hflag2) as (Hre & _ & Htm).
    do 3 (split; [done|]). split; [exact Hd|].
    split; [intros id e Hin; by apply (onClose_cancels s2 id e)|].
    split; [exact Hre|exact Htm].
  - intros now u inst msg id e reason Hty Hid Hne Hok Hget Hk Hreason.
    exists (matched (Rejected (Error reason)) id e s). split.
    { rewrite (onMessage_response now u inst msg id s) by done.
      rewrite (onResponse_matched msg id e s) by done.
      unfold response_outcome, response_error, new_Error.
      by rewrite Hok, Hreason. }
    unfold matched, entry_reject, target_of. rewrite Hk. simpl. done.
  - intros h t id Hl Ha Hdue.
    exists (fire (TAuth id) (clearTimeout h s)). split; [|done].
    unfold exec. rewrite Hl.
    assert ((due t <=? clock s)%N = true) as -> by by apply N.leb_le.
    by rewrite Ha.
Qed.

Definition ready_state : State := after handshake.

Lemma handshake_fault_effects_witness :
  (exists s' s1 s2,
     onMessage 3 uuid_a uuid_b (Some (challenge JNull)) ready_state = Ok s'
     /\ (outbox <$> gwSocket s') = (outbox <$> gwSocket ready_state)
     /\ (readyState <$> gwSocket s') = Some CLOSING
     /\ run s' [Tick 5] = Some s1
     /\ exec s1 SockClose = Some s2
     /\ gwSocket s2 = None
     /\ gwReconnectTimer s2 = Some (nextTimer s1))
  /\ (exists s',
        onMessage 2 uuid_a uuid_b (Some (auth_rejected uuid_a)) awaiting_auth = Ok s'
        /\ gwSocket s' = gwSocket awaiting_auth
        /\ gwReconnectTimer s' = None
        /\ delivered s' =
             [{| d_target := Handshake; d_cause := ByResponse;
                 d_outcome := Rejected (Error "unauthorized") |}]).
Proof.
  split.
  - destruct (handshake_fault_effects ready_state) as (Hnonce & _ & _).
    destruct (Hnonce 3%Z uuid_a uuid_b (challenge JNull)
                {| readyState := OPEN;
                   outbox := [connect_frame uuid_a uuid_b sample_env];
                   closeArgs := None |})
      as (s' & Hs' & Hsock & _ & _ & _ & Hlater); try by_evaluation.
    + apply reachable_after. by_evaluation.
    + destruct (Hlater [Tick 5] (set_clock (clock s' + 5)%N s'))
        as (_ & s2 & Hex & Hnone & _ & _ & _ & _ & Hre & _).
      * intros Hin. apply list_elem_of_singleton in Hin. discriminate Hin.
      * reflexivity.
      * exists s', (set_clock (clock s' + 5)%N s'), s2.
        split; [exact Hs'|]. rewrite Hsock.
        split; [by_evaluation|]. split; [by_evaluation|].
        split; [reflexivity|]. split; [exact Hex|]. split; [exact Hnone|exact Hre].
  - destruct (handshake_fault_effects awaiting_auth) as (_ & Hrej & _).
    destruct (Hrej 2%Z uuid_a uuid_b (auth_rejected uuid_a) uuid_a
                {| kind := EAuth; timer := 0 |} "unauthorized")
      as (s' & Hs' & Hsock & _ & Hflag & _ & _ & Hd); try by_evaluation.
    + discriminate.
    + exists s'. split; [exact Hs'|]. split; [exact Hsock|].
      split; [rewrite Hflag; by_evaluation|].
      rewrite Hd. by_evaluation.
Defined.

(** ** C9 *)

(** The claim as the specification states it, for the result of a call:
    the value a matched response resolves the promise with does not
    contain the id under which the request was pending. *)
Definition success_value_hides_id : Prop :=
  forall s now u inst msg id e p s',
    reachable s ->
    get "id" msg = Some (JStr id) ->
    JsMap.get id (gwPending s) = Some e -> kind e = ECall p ->
    onMessage now u inst (Some msg) s = Ok s' ->
    forall v, last (delivered s') =
                Some {| d_target := Caller p; d_cause := ByResponse;
                        d_outcome := Resolved v |} ->
              mentions id v = false.

Definition one_call : State :=
  after (handshake ++ [Call "status.get" (Some (obj [])) None]).

(** A response with neither payload nor result. *)
Definition bare_response : json :=
  obj [("type", JStr "res"); ("id", JStr "rpc-1"); ("ok", JBool true)].

(** C9, counterexample: a response without payload and result resolves
    the promise with the whole frame, whose [id] field is the correlation
    id of the request; [POST /rpc] replies with it. *)
Lemma bare_response_exposes_id : ~ success_value_hides_id.
Proof.
  intros Hhide.
  assert (Hr : reachable one_call) by (apply reachable_after; by_evaluation).
  assert (Hm : mentions "rpc-1" bare_response = false).
  { apply (Hhide one_call 3%Z uuid_a uuid_b bare_response "rpc-1"
             {| kind := ECall 0; timer := 1 |} 0%N
             (matched (Resolved bare_response) "rpc-1"
                {| kind := ECall 0; timer := 1 |} one_call)
             Hr); by_evaluation. }
  assert (Ht : mentions "rpc-1" bare_response = true) by by_evaluation.
  congruence.
Qed.

Example bare_response_reply :
  http_rpc_reply "status.get" (Resolved (response_value bare_response))
  = (200%Z, bare_response)
  /\ get "id" bare_response = Some (JStr "rpc-1").
Proof. split; by_evaluation. Qed.

(** *** What each step does to the values the HTTP layer reads *)

Lemma onClose_values s :
  gwEvents (onClose s) = gwEvents s /\ gwSnapshot (onClose s) = gwSnapshot s.
Proof.
  rewrite onClose_drained. unfold drained. rewrite fold_reject_lost.
  by destruct (gwReconnectTimer s).
Qed.

Lemma gwCall_values method args timeoutMs s :
  gwEvents (gwCall method args timeoutMs s) = gwEvents s
  /\ gwSnapshot (gwCall method args timeoutMs s) = gwSnapshot s.
Proof.
  unfold gwCall. simpl. destruct (gwSocket s) as [ws|]; [|done].
  destruct (gwReady s); simpl; [|done]. by destruct (ws_send _ ws).
Qed.

Lemma gwConnect_values s :
  gwEvents (gwConnect s) = gwEvents s /\ gwSnapshot (gwConnect s) = gwSnapshot s.
Proof.
  unfold gwConnect. destruct (gwSocket s) as [ws|]; [|done].
  by destruct (readyState ws).
Qed.

Lemma fire_values a s :
  gwEvents (fire a s) = gwEvents s /\ gwSnapshot (fire a s) = gwSnapshot s.
Proof.
  destruct a; simpl; try done.
  apply (gwConnect_values (set_gwReconnectTimer None s)).
Qed.

Lemma matched_values o id e s :
  gwEvents (matched o id e s) = gwEvents s
  /\ (gwSnapshot (matched o id e s) = gwSnapshot s
      \/ exists v, o = Resolved v /\ kind e = EAuth
           /\ gwSnapshot (matched o id e s) = or_else (get "snapshot" v) v).
Proof.
  unfold matched, entry_resolve, entry_reject.
  destruct o as [v|err]; [|split; [done|by left]].
  destruct (kind e) eqn:Hk; simpl; split; try done; [by left|].
  right. by exists v.
Qed.

(** The record buffered for an event frame has the fields of the frame
    and the field [time]. *)
Lemma event_record_fields now msg :
  get "type" msg = Some (JStr "event") ->
  (forall key, key <> "time" -> get key (event_record now msg) = get key msg)
  /\ get "time" (event_record now msg) = Some (default (JNum now) (get "time" msg)).
Proof.
  intros Hty. apply get_Some_obj in Hty as (m & -> & _). split.
  - intros key Hne. unfold event_record. simpl. rewrite lookup_union.
    rewrite lookup_singleton_ne by done. by destruct (m !! key).
  - rewrite spread_obj_time. simpl. by destruct (m !! "time").
Qed.

(** The event buffer changes by an inbound event frame only. *)
Lemma exec_gwEvents s ev s' :
  exec s ev = Some s' ->
  gwEvents s' = gwEvents s
  \/ exists now u inst msg,
       ev = SockMessage now u inst (Some msg)
       /\ get "type" msg = Some (JStr "event")
       /\ get "event" msg <> Some (JStr "connect.challenge")
       /\ gwEvents s' = push_event (event_record now msg) (gwEvents s).
Proof.
  intros Hex. apply exec_cases in Hex
    as [(_ & -> & _)|[(now & u & inst & data & ws & -> & Hs & Hc & Hmsg)
       |[[_ ->]|[[_ ->]|[(h & t & _ & _ & ->)|[(dt & _ & ->)
       |(method & args & tm & _ & ->)]]]]]].
  - left. unfold onOpen. by destruct (gwSocket s).
  - apply onMessage_inv in Hmsg as [[_ ->]|(msg & -> & Hnn & H)]; [by left|].
    destruct H as [(_ & _ & ws0 & _ & ->)|[(_ & _ & Hsend)
                  |[(Hch & Hty & ->)|[(_ & _ & Hres)|(_ & _ & ->)]]]].
    + by left.
    + apply gwSendConnect_Ok in Hsend as (ws0 & _ & _ & ->). by left.
    + right. exists now, u, inst, msg. split; [done|].
      apply is_str_true in Hty. split; [done|]. split.
      * intros He. unfold is_challenge in Hch. rewrite Hty, He in Hch.
        by rewrite (proj2 (is_str_true "event" _) eq_refl),
                   (proj2 (is_str_true "connect.challenge" _) eq_refl) in Hch.
      * apply onEvent_gwEvents.
    + apply onResponse_cases in Hres as [->|(k & e & o & _ & _ & _ & ->)];
        [by left|].
      left. apply matched_values.
    + by left.
  - by left.
  - left. apply onClose_values.
  - left. destruct (fire_values (action t) (clearTimeout h s)) as [-> _]. done.
  - by left.
  - left. apply gwCall_values.
Qed.

(** The snapshot changes by a 'health' event and by the accepted connect
    request only. *)
Lemma exec_gwSnapshot s ev s' :
  exec s ev = Some s' ->
  gwSnapshot s' = gwSnapshot s
  \/ (exists now u inst msg payload,
        ev = SockMessage now u inst (Some msg)
        /\ get "type" msg = Some (JStr "event")
        /\ get "event" msg = Some (JStr "health")
        /\ get "payload" msg = Some payload
        /\ gwSnapshot s' = JObj (<["health" := payload]> (spread (gwSnapshot s))))
  \/ (exists now u inst msg id e,
        ev = SockMessage now u inst (Some msg)
        /\ get "type" msg = Some (JStr "res")
        /\ get "id" msg = Some (JStr id)
        /\ JsMap.get id (gwPending s) = Some e /\ kind e = EAuth
        /\ get "ok" msg <> Some (JBool false)
        /\ gwSnapshot s' =
             or_else (get "snapshot" (response_value msg)) (response_value msg)).
Proof.
  intros Hex. apply exec_cases in Hex
    as [(_ & -> & _)|[(now & u & inst & data & ws & -> & Hs & Hc & Hmsg)
       |[[_ ->]|[[_ ->]|[(h & t & _ & _ & ->)|[(dt & _ & ->)
       |(method & args & tm & _ & ->)]]]]]].
  - left. unfold onOpen. by destruct (gwSocket s).
  - apply onMessage_inv in Hmsg as [[_ ->]|(msg & -> & Hnn & H)]; [by left|].
    destruct H as [(_ & _ & ws0 & _ & ->)|[(_ & _ & Hsend)
                  |[(Hch & Hty & ->)|[(_ & Hr & Hres)|(_ & _ & ->)]]]].
    + by left.
    + apply gwSendConnect_Ok in Hsend as (ws0 & _ & _ & ->). by left.
    + apply is_str_true in Hty. unfold onEvent.
      destruct (is_str "health" (get "event" msg)) eqn:Hh; [|by left].
      destruct (get "payload" msg) as [payload|] eqn:Hp; [|by left].
      simpl. destruct (truthy payload); [|by left].
      apply is_str_true in Hh. right. left.
      by exists now, u, inst, msg, payload.
    + unfold is_response in Hr. apply andb_true_iff in Hr as [Hty _].
      apply is_str_true in Hty.
      apply onResponse_cases in Hres as [->|(k & e & o & Hid & Hget & Ho & ->)];
        [by left|].
      destruct (matched_values o k e s) as [_ [Hsame|(v & -> & Hk & Hsnap)]];
        [by left|].
      apply response_outcome_cases in Ho as [[Hok [= ->]]|(_ & r & _ & [=])].
      right. right. by exists now, u, inst, msg, k, e.
    + by left.
  - by left.
  - left. apply onClose_values.
  - left. destruct (fire_values (action t) (clearTimeout h s)) as [_ ->]. done.
  - by left.
  - left. apply gwCall_values.
Qed.

(** What a step invokes the callbacks with. *)
Definition settled_by (s : State) (ev : event) (o : outcome) : Prop :=
  match o with
  | Resolved v =>
      exists now u inst msg,
        ev = SockMessage now u inst (Some msg) /\ v = response_value msg
  | Rejected (Error reason) =>
      (exists method args timeoutMs,
         ev = Call method args timeoutMs /\ reason = "not connected to gateway")
      \/ (ev = SockClose /\ reason = "connection lost")
      \/ (exists h t id method p,
            ev = TimerFire h /\ timers s !! h = Some t
            /\ action t = TCall id method p
            /\ reason = "RPC timeout: " +:+ method)
      \/ (exists now u inst msg,
            ev = SockMessage now u inst (Some msg)
            /\ ToString (or_else (get_opt "message" (get "error" msg))
                           (JStr "RPC error")) = Ok reason)
  end.

Lemma exec_delivered s ev s' :
  Inv s -> exec s ev = Some s' ->
  exists ds, delivered s' = delivered s ++ ds
    /\ forall d, d ∈ ds -> settled_by s ev (d_outcome d).
Proof.
  intros HI Hex. apply exec_cases in Hex
    as [(_ & -> & _)|[(now & u & inst & data & ws & -> & Hs & Hc & Hmsg)
       |[[_ ->]|[[-> ->]|[(h & t & -> & Hl & ->)|[(dt & _ & ->)
       |(method & args & tm & -> & ->)]]]]]].
  - exists []. rewrite app_nil_r. split; [|by intros d ?%not_elem_of_nil].
    unfold onOpen. by destruct (gwSocket s).
  - assert (Hsame : forall s1, delivered s1 = delivered s ->
              exists ds, delivered s1 = delivered s ++ ds
                /\ forall d, d ∈ ds ->
                     settled_by s (SockMessage now u inst data) (d_outcome d)).
    { intros s1 H. exists []. rewrite app_nil_r.
      split; [done|by intros d ?%not_elem_of_nil]. }
    apply onMessage_inv in Hmsg as [[_ ->]|(msg & -> & Hnn & H)]; [by apply Hsame|].
    destruct H as [(_ & _ & ws0 & _ & ->)|[(_ & _ & Hsend)
                  |[(Hch & Hty & ->)|[(_ & _ & Hres)|(_ & _ & ->)]]]].
    + by apply Hsame.
    + apply gwSendConnect_Ok in Hsend as (ws0 & _ & _ & ->). by apply Hsame.
    + apply Hsame. apply onEvent_frame.
    + apply onResponse_cases in Hres as [->|(k & e & o & _ & _ & Ho & ->)];
        [by apply Hsame|].
      eexists. split; [apply matched_delivered|].
      intros d Hin. apply list_elem_of_singleton in Hin. subst d. simpl.
      apply response_outcome_cases in Ho as [[_ ->]|(_ & r & Hr & ->)]; simpl.
      * by exists now, u, inst, msg.
      * do 3 right. by exists now, u, inst, msg.
    + by apply Hsame.
  - exists []. rewrite app_nil_r. split; [done|by intros d ?%not_elem_of_nil].
  - destruct (onClose_fields s) as (_ & Hd & _).
    exists (lost <$> gwPending s). split; [done|].
    intros d Hin. apply list_elem_of_fmap in Hin as (kp & -> & _). simpl.
    right. by left.
  - destruct (action t) as [id m p| id |] eqn:Ha; simpl.
    + eexists. split; [done|].
      intros d Hin. apply list_elem_of_singleton in Hin. subst d. simpl.
      do 2 right. left. by exists h, t, id, m, p.
    + exists []. rewrite app_nil_r. split; [done|by intros d ?%not_elem_of_nil].
    + exists []. rewrite app_nil_r. split; [|by intros d ?%not_elem_of_nil].
      by destruct (gwConnect_fields (set_gwReconnectTimer None (clearTimeout h s)))
        as (_ & _ & -> & _).
  - exists []. rewrite app_nil_r. split; [done|by intros d ?%not_elem_of_nil].
  - destruct (gwSocket s) as [ws|] eqn:Hs.
    + destruct (gwReady s) eqn:Hr.
      * destruct (inv_ready s HI Hr) as (ws0 & Hs0 & Hc).
        rewrite Hs in Hs0. injection Hs0 as <-.
        rewrite (gwCall_ready method args tm s ws) by done.
        exists []. rewrite app_nil_r. split; [done|by intros d ?%not_elem_of_nil].
      * rewrite gwCall_guard by auto. eexists. split; [done|].
        intros d Hin. apply list_elem_of_singleton in Hin. subst d. simpl.
        left. by exists method, args, tm.
    + rewrite gwCall_guard by auto. eexists. split; [done|].
      intros d Hin. apply list_elem_of_singleton in Hin. subst d. simpl.
      left. by exists method, args, tm.
Qed.

(** The three cases of [msg.payload || msg.result || msg]. *)
Lemma response_value_cases msg :
  (truthy_opt (get "payload" msg) = true ->
   get "payload" msg = Some (response_value msg))
  /\ (truthy_opt (get "payload" msg) = false ->
      truthy_opt (get "result" msg) = true ->
      get "result" msg = Some (response_value msg))
  /\ (truthy_opt (get "payload" msg) = false ->
      truthy_opt (get "result" msg) = false ->
      response_value msg = msg).
Proof.
  unfold response_value, or_opt, or_else.
  destruct (get "payload" msg) as [pl|]; simpl.
  - destruct (truthy pl) eqn:Htp; simpl.
    + by rewrite Htp.
    + destruct (get "result" msg) as [r|]; simpl; [|done].
      by destruct (truthy r) eqn:Htr.
  - destruct (get "result" msg) as [r|]; simpl; [|done].
    by destruct (truthy r) eqn:Htr.
Qed.

(** *** What a value contains *)

Lemma mentions_obj k m :
  mentions k (JObj m) = true <->
  exists key x, m !! key = Some x /\ mentions k x = true.
Proof.
  change (mentions k (JObj m))
    with (map_fold (fun (_ : string) x acc => mentions k x || acc) false m).
  apply (map_fold_weak_ind
           (fun r m => r = true <->
                       exists key x, m !! key = Some x /\ mentions k x = true)).
  - split; [done|]. intros (key & x & H & _). by rewrite lookup_empty in H.
  - intros i x m' r Hnone IH. rewrite orb_true_iff, IH. split.
    + intros [Hx|(key & y & Hl & Hy)].
      * exists i, x. by rewrite lookup_insert_eq.
      * exists key, y. split; [|done].
        rewrite lookup_insert_ne; [done|]. intros ->. congruence.
    + intros (key & y & Hl & Hy). destruct (decide (key = i)) as [->|Hne].
      * rewrite lookup_insert_eq in Hl. injection Hl as ->. by left.
      * rewrite lookup_insert_ne in Hl by done. right. by exists key, y.
Qed.

Lemma mentions_get k key v x :
  get key v = Some x -> mentions k x = true -> mentions k v = true.
Proof.
  intros Hget Hx. apply get_Some_obj in Hget as (m & -> & Hl).
  apply mentions_obj. by exists key, x.
Qed.

(** The record of an event frame contains the strings of the frame and
    no other. *)
Lemma mentions_event_record k now msg :
  get "type" msg = Some (JStr "event") ->
  mentions k (event_record now msg) = mentions k msg.
Proof.
  intros Hty. apply get_Some_obj in Hty as (m & -> & _).
  apply eq_true_iff_eq. unfold event_record. simpl spread.
  rewrite !mentions_obj. split.
  - intros (key & x & Hl & Hx). apply lookup_union_Some_raw in Hl as [Hl|[_ Hl]].
    + by exists key, x.
    + apply lookup_singleton_Some in Hl as [_ <-]. done.
  - intros (key & x & Hl & Hx). exists key, x. split; [|done].
    apply lookup_union_Some_raw. by left.
Qed.

Lemma mentions_response_value k msg :
  mentions k (response_value msg) = true -> mentions k msg = true.
Proof.
  unfold response_value, or_else, or_opt.
  destruct (truthy_opt (get "payload" msg)) eqn:Hp.
  - destruct (get "payload" msg) as [pl|] eqn:Hpl; [|done]. simpl in Hp.
    rewrite Hp. by apply (mentions_get k "payload").
  - destruct (get "result" msg) as [rs|] eqn:Hrs; [|done].
    destruct (truthy rs); [|done]. by apply (mentions_get k "result").
Qed.

Lemma mentions_or_else k key v :
  mentions k (or_else (get key v) v) = true -> mentions k v = true.
Proof.
  unfold or_else. destruct (get key v) as [x|] eqn:Hx; [|done].
  destruct (truthy x); [|done]. by apply (mentions_get k key).
Qed.

(** The identifiers the client makes: the id of a call and the UUID of a
    connect request. *)
Definition internal_id (k : string) : Prop :=
  is_uuid k = true \/ exists n, k = rpc_id n.

Lemma uuid_from_length i s : uuid_from i s = true -> (i + String.length s = 36)%nat.
Proof.
  revert i. induction s as [|c s IH]; intros i; simpl.
  - intros H. apply Nat.eqb_eq in H. lia.
  - intros H. apply andb_true_iff in H as [_ H]. apply IH in H. lia.
Qed.

Lemma internal_id_length k : internal_id k -> (3 < String.length k)%nat.
Proof.
  intros [H|[n ->]].
  - apply uuid_from_length in H. lia.
  - unfold rpc_id. simpl. lia.
Qed.

(** A code unit is at most three bytes. *)
Lemma units_length s :
  forall x, x ∈ units s -> exists u, x = JStr u /\ (String.length u <= 3)%nat.
Proof.
  assert (H : forall n s, (String.length s <= n)%nat ->
            forall x, x ∈ units s ->
              exists u, x = JStr u /\ (String.length u <= 3)%nat).
  { clear s. induction n as [|n IH]; intros s Hn x Hin.
    - destruct s; [|simpl in Hn; lia]. by apply not_elem_of_nil in Hin.
    - destruct s as [|c1 s1]; [by apply not_elem_of_nil in Hin|].
      simpl in Hn.
      assert (Hsingle : x ∈ JStr (String c1 EmptyString) :: units s1 ->
                exists u, x = JStr u /\ (String.length u <= 3)%nat).
      { intros H. apply elem_of_cons in H as [->|H].
        - eexists. split; [done|]. simpl. lia.
        - apply (IH s1); [lia|done]. }
      cbn [units] in Hin.
      destruct (N_of_ascii c1 <? 192)%N; [by apply Hsingle|].
      destruct (N_of_ascii c1 <? 224)%N.
      { destruct s1 as [|c2 s2]; [by apply Hsingle|].
        apply elem_of_cons in Hin as [->|Hin].
        - eexists. split; [done|]. simpl. lia.
        - apply (IH s2); [simpl in Hn; lia|done]. }
      destruct (N_of_ascii c1 <? 240)%N.
      { destruct s1 as [|c2 [|c3 s3]]; try by apply Hsingle.
        apply elem_of_cons in Hin as [->|Hin].
        - eexists. split; [done|]. simpl. lia.
        - apply (IH s3); [simpl in Hn; lia|done]. }
      destruct s1 as [|c2 [|c3 [|c4 s4]]]; try by apply Hsingle.
      apply elem_of_cons in Hin as [->|Hin].
      { eexists. split; [done|]. simpl. lia. }
      apply elem_of_cons in Hin as [->|Hin].
      { eexists. split; [done|]. simpl. lia. }
      apply (IH s4); [simpl in Hn; lia|done]. }
  by apply (H (String.length s)).
Qed.

Lemma indexed_elem l key x : indexed l !! key = Some x -> x ∈ l.
Proof.
  unfold indexed. intros H. apply elem_of_list_to_map_2 in H.
  apply elem_of_lookup_imap in H as (i & y & [= _ ->] & Hl).
  by apply list_elem_of_lookup_2 in Hl.
Qed.

Lemma mentions_arr k l :
  mentions k (JArr l) = true <-> exists x, x ∈ l /\ mentions k x = true.
Proof.
  change (mentions k (JArr l)) with (existsb (mentions k) l).
  rewrite existsb_exists. split; intros (x & Hin & Hx); exists x;
    (split; [|done]); by apply list_elem_of_In.
Qed.

(** A spread copies no identifier that the value did not contain. *)
Lemma mentions_spread k v :
  internal_id k -> mentions k (JObj (spread v)) = true -> mentions k v = true.
Proof.
  intros Hid H. apply mentions_obj in H as (key & x & Hl & Hx).
  destruct v as [| | |s|l|m]; simpl in Hl; try by rewrite lookup_empty in Hl.
  - apply indexed_elem in Hl. apply units_length in Hl as (u & -> & Hu).
    simpl in Hx. apply bool_decide_eq_true in Hx. subst u.
    apply internal_id_length in Hid. lia.
  - apply indexed_elem in Hl. apply mentions_arr. by exists x.
  - apply mentions_obj. by exists key, x.
Qed.

(** The snapshot after a 'health' event contains an identifier only if
    the payload or the snapshot before did. *)
Lemma mentions_health k payload v :
  internal_id k ->
  mentions k (JObj (<["health" := payload]> (spread v))) = true ->
  mentions k payload = true \/ mentions k v = true.
Proof.
  intros Hid H. apply mentions_obj in H as (key & x & Hl & Hx).
  destruct (decide (key = "health")) as [->|Hne].
  - rewrite lookup_insert_eq in Hl. injection Hl as ->. by left.
  - rewrite lookup_insert_ne in Hl by done. right.
    apply mentions_spread; [done|]. apply mentions_obj. by exists key, x.
Qed.

(** *** Timer handles *)

(** The handle [h] when every handle is [d] higher. *)
Definition up (d h : N) : N := (h + d)%N.

#[global] Instance up_inj d : Inj (=) (=) (up d).
Proof. intros a b H. unfold up in H. lia. Qed.

Definition renumber_entry (d : N) (kp : string * PendingEntry) : string * PendingEntry :=
  (kp.1, {| kind := kind kp.2; timer := up d (timer kp.2) |}).

(** The state [s] with every timer handle [d] higher: in the timer table,
    in the pending entries, in [gwReconnectTimer] and in the counter the
    next handle is taken from. *)
Definition renumber (d : N) (s : State) : State :=
  {| gwSocket := gwSocket s; gwReady := gwReady s;
     gwPending := renumber_entry d <$> gwPending s;
     gwReqId := gwReqId s; gwEvents := gwEvents s;
     gwReconnectTimer := up d <$> gwReconnectTimer s;
     gwSnapshot := gwSnapshot s;
     timers := kmap (up d) (timers s); nextTimer := up d (nextTimer s);
     nextPromise := nextPromise s; clock := clock s;
     delivered := delivered s; penv := penv s |}.

Definition renumber_event (d : N) (ev : event) : event :=
  match ev with
  | TimerFire h => TimerFire (up d h)
  | _ => ev
  end.

(** What the HTTP layer reads off the client: the replies of
    [GET /snapshot] and [GET /events], [gatewayConnected], and what the
    callbacks of the calls were invoked with. *)
Definition boundary (s : State) : json * json * bool * list delivery :=
  (http_snapshot s, http_events s, http_connected s, delivered s).

Definition res_map {A B} (f : A -> B) (r : res A) : res B :=
  match r with
  | Ok a => Ok (f a)
  | Throw m => Throw m
  end.

Lemma State_ext s1 s2 :
  gwSocket s1 = gwSocket s2 -> gwReady s1 = gwReady s2 ->
  gwPending s1 = gwPending s2 -> gwReqId s1 = gwReqId s2 ->
  gwEvents s1 = gwEvents s2 -> gwReconnectTimer s1 = gwReconnectTimer s2 ->
  gwSnapshot s1 = gwSnapshot s2 -> timers s1 = timers s2 ->
  nextTimer s1 = nextTimer s2 -> nextPromise s1 = nextPromise s2 ->
  clock s1 = clock s2 -> delivered s1 = delivered s2 -> penv s1 = penv s2 ->
  s1 = s2.
Proof. destruct s1, s2; simpl; intros; subst; done. Qed.

Ltac same_state := apply State_ext; simpl; try done.

Lemma renumber_get d k m :
  JsMap.get k (renumber_entry d <$> m) =
  (fun e => {| kind := kind e; timer := up d (timer e) |}) <$> JsMap.get k m.
Proof.
  induction m as [|[k' e] m IH]; [done|].
  rewrite fmap_cons. simpl. by destruct (decide (k = k')).
Qed.

Lemma renumber_set d k e m :
  JsMap.set k {| kind := kind e; timer := up d (timer e) |} (renumber_entry d <$> m) =
  renumber_entry d <$> JsMap.set k e m.
Proof.
  induction m as [|[k' e'] m IH]; [done|].
  rewrite fmap_cons. simpl. destruct (decide (k = k')); [done|].
  rewrite fmap_cons. by rewrite IH.
Qed.

Lemma renumber_delete d k m :
  JsMap.delete k (renumber_entry d <$> m) = renumber_entry d <$> JsMap.delete k m.
Proof.
  induction m as [|[k' e'] m IH]; [done|].
  rewrite fmap_cons. simpl. destruct (decide (k = k')); [done|].
  rewrite fmap_cons. by rewrite IH.
Qed.

Lemma renumber_setTimeout d cb ms s :
  setTimeout cb ms (renumber d s) =
  (up d (setTimeout cb ms s).1, renumber d (setTimeout cb ms s).2).
Proof.
  unfold setTimeout. simpl. f_equal. same_state.
  - by rewrite kmap_insert by apply up_inj.
  - unfold up. lia.
Qed.

Lemma renumber_clearTimeout d h s :
  clearTimeout (up d h) (renumber d s) = renumber d (clearTimeout h s).
Proof. unfold clearTimeout. same_state. by rewrite kmap_delete by apply up_inj. Qed.

Lemma renumber_gwConnect d s :
  gwConnect (renumber d s) = renumber d (gwConnect s).
Proof.
  unfold gwConnect. simpl. destruct (gwSocket s) as [ws|]; [|done].
  by destruct (readyState ws).
Qed.

Lemma renumber_gwSendConnect d nonce id inst s :
  gwSendConnect nonce id inst (renumber d s) =
  res_map (renumber d) (gwSendConnect nonce id inst s).
Proof.
  unfold gwSendConnect. simpl. destruct (gwSocket s) as [ws|]; [|done].
  destruct (ws_send _ ws) as [ws'|]; [|done]. simpl. f_equal.
  same_state.
  - by rewrite <- renumber_set.
  - by rewrite kmap_insert by apply up_inj.
  - unfold up. lia.
Qed.

Lemma renumber_onEvent d now msg s :
  onEvent now msg (renumber d s) = renumber d (onEvent now msg s).
Proof. unfold onEvent. simpl. by destruct (_ && _). Qed.

Lemma renumber_onResponse d msg s :
  onResponse msg (renumber d s) = res_map (renumber d) (onResponse msg s).
Proof.
  unfold onResponse. destruct (get "id" msg) as [[| | |k| |]|]; try done.
  simpl. rewrite renumber_get.
  destruct (JsMap.get k (gwPending s)) as [e|]; [|done]. simpl.
  assert (Hclear :
    clearTimeout (up d (timer e))
      (set_gwPending (JsMap.delete k (renumber_entry d <$> gwPending s)) (renumber d s))
    = renumber d (clearTimeout (timer e)
                    (set_gwPending (JsMap.delete k (gwPending s)) s))).
  { unfold clearTimeout. same_state.
    - apply renumber_delete.
    - by rewrite kmap_delete by apply up_inj. }
  rewrite Hclear.
  destruct (not_false _).
  - simpl. f_equal. unfold entry_resolve, target_of. simpl.
    by destruct (kind e).
  - destruct (response_error msg); done.
Qed.

Lemma renumber_onMessage d now id inst data s :
  onMessage now id inst data (renumber d s) =
  res_map (renumber d) (onMessage now id inst data s).
Proof.
  destruct data as [msg|]; [|done].
  assert (Hbody :
    (if is_challenge msg
     then
       if negb (truthy_opt (get_opt "nonce" (get "payload" msg)))
       then match gwSocket (renumber d s) with
            | None => Throw "TypeError: Cannot read properties of null (reading 'close')"
            | Some ws => Ok (set_gwSocket (Some (ws_close 1008 "no nonce" ws)) (renumber d s))
            end
       else gwSendConnect (default JNull (get_opt "nonce" (get "payload" msg)))
              id inst (renumber d s)
     else if is_str "event" (get "type" msg) then Ok (onEvent now msg (renumber d s))
     else if is_response msg then onResponse msg (renumber d s) else Ok (renumber d s))
    = res_map (renumber d)
        (if is_challenge msg
         then
           if negb (truthy_opt (get_opt "nonce" (get "payload" msg)))
           then match gwSocket s with
                | None => Throw "TypeError: Cannot read properties of null (reading 'close')"
                | Some ws => Ok (set_gwSocket (Some (ws_close 1008 "no nonce" ws)) s)
                end
           else gwSendConnect (default JNull (get_opt "nonce" (get "payload" msg)))
                  id inst s
         else if is_str "event" (get "type" msg) then Ok (onEvent now msg s)
         else if is_response msg then onResponse msg s else Ok s)).
  { destruct (is_challenge msg).
    - destruct (negb _); [|apply renumber_gwSendConnect].
      simpl. by destruct (gwSocket s).
    - destruct (is_str "event" _); [simpl; by rewrite renumber_onEvent|].
      destruct (is_response msg); [apply renumber_onResponse|done]. }
  unfold onMessage, is_challenge, is_response in *. by destruct msg.
Qed.

Lemma renumber_reject_lost d l :
  forall s,
    fold_left reject_lost (renumber_entry d <$> l) (renumber d s) =
    renumber d (fold_left reject_lost l s).
Proof.
  induction l as [|kp l IH]; intros s; [done|].
  rewrite fmap_cons. simpl. rewrite <- IH. f_equal.
  unfold reject_lost, entry_reject. simpl.
  by rewrite renumber_clearTimeout.
Qed.

Lemma renumber_onClose d s :
  onClose (renumber d s) = renumber d (onClose s).
Proof.
  unfold onClose. simpl.
  change (set_gwSocket None (set_gwReady false (renumber d s)))
    with (renumber d (set_gwSocket None (set_gwReady false s))).
  rewrite renumber_reject_lost.
  rewrite !fold_reject_lost. simpl.
  destruct (gwReconnectTimer s) as [h|]; simpl.
  - by same_state.
  - same_state.
    + by rewrite kmap_insert by apply up_inj.
    + unfold up. lia.
Qed.

Lemma renumber_gwCall d method args timeoutMs s :
  gwCall method args timeoutMs (renumber d s) =
  renumber d (gwCall method args timeoutMs s).
Proof.
  unfold gwCall. simpl. destruct (gwSocket s) as [ws|]; [|done].
  destruct (gwReady s); simpl; [|done].
  destruct (ws_send _ ws) as [ws'|]; simpl; same_state;
    try (by rewrite <- renumber_set); try (by rewrite kmap_insert by apply up_inj);
    unfold up; lia.
Qed.

Lemma renumber_fire d a s :
  fire a (renumber d s) = renumber d (fire a s).
Proof.
  destruct a as [id m p|id|]; simpl.
  - same_state. apply renumber_delete.
  - same_state. apply renumber_delete.
  - change (set_gwReconnectTimer None (renumber d s))
      with (renumber d (set_gwReconnectTimer None s)).
    apply renumber_gwConnect.
Qed.

(** The event loop does not depend on what the timer handles are. *)
Lemma renumber_exec d s ev :
  exec (renumber d s) (renumber_event d ev) = renumber d <$> exec s ev.
Proof.
  destruct ev as [|now u inst data| | |h|dt|method args t]; simpl.
  - destruct (gwSocket s) as [ws|] eqn:Hs; [|done].
    destruct (readyState ws); try done. simpl. f_equal.
    unfold onOpen. simpl. by rewrite Hs.
  - destruct (gwSocket s) as [ws|]; [|done].
    destruct (readyState ws); try done;
      (destruct (_ && _); [|done]);
      rewrite renumber_onMessage;
      by destruct (onMessage now u inst data s).
  - by destruct (gwSocket s).
  - destruct (gwSocket s); [|done]. simpl. by rewrite renumber_onClose.
  - rewrite lookup_kmap by apply up_inj. destruct (timers s !! h) as [t|]; [|done].
    destruct (due t <=? clock s)%N; [|done]. simpl.
    by rewrite renumber_clearTimeout, renumber_fire.
  - done.
  - by rewrite renumber_gwCall.
Qed.

Lemma http_snapshot_cases s :
  http_snapshot s = gwSnapshot s
  \/ (truthy (gwSnapshot s) = false
      /\ http_snapshot s = obj [("error", JStr "no snapshot yet")]).
Proof.
  unfold http_snapshot. destruct (truthy (gwSnapshot s)); [by left|by right].
Qed.

(** C9, as the code has it. For every step of the event loop from a
    reachable state:
    - the buffer returned by the events accessor changes only by an
      inbound event frame; the record has the fields of the frame and a
      [time] field, and contains the strings the frame contains and no
      other;
    - the is-ready accessor is a boolean;
    - a success value is the value of an inbound response frame: its
      payload when that is truthy, else its result when that is truthy,
      else the whole frame, which carries the correlation id in its [id]
      field; [POST /rpc] replies with that value as it is;
    - a failure carries a fixed text, "RPC timeout: " and the method, or
      the error message of the response frame as a string;
    - the snapshot changes only by a 'health' event, whose payload is
      stored under [health] (the new snapshot contains an identifier of
      the client only if the payload or the old snapshot did), and by the
      accepted connect request, whose success value (or its [snapshot]
      field) becomes the snapshot;
    - none of these values depends on a timer handle: with every handle
      renumbered the step is the same step and the boundary values are
      the same.
    When the server starts the buffer is empty, the snapshot is null
    (the snapshot accessor then answers "no snapshot yet") and no
    callback has been invoked. *)
Theorem boundary_values s ev s' :
  reachable s -> exec s ev = Some s' ->
  (forall e, gwEvents (boot e) = [] /\ gwSnapshot (boot e) = JNull
             /\ delivered (boot e) = [] /\ http_connected (boot e) = false)
  /\ (gwEvents s' = gwEvents s
   \/ exists now u inst msg,
        ev = SockMessage now u inst (Some msg)
        /\ get "type" msg = Some (JStr "event")
        /\ get "event" msg <> Some (JStr "connect.challenge")
        /\ gwEvents s' = push_event (event_record now msg) (gwEvents s)
        /\ (forall key, key <> "time" ->
              get key (event_record now msg) = get key msg)
        /\ get "time" (event_record now msg) =
             Some (default (JNum now) (get "time" msg))
        /\ (forall k, mentions k (event_record now msg) = mentions k msg))
  /\ http_events s' = obj [("events", JArr (gwEvents s'))]
  /\ (http_snapshot s' = gwSnapshot s'
      \/ (truthy (gwSnapshot s') = false
          /\ http_snapshot s' = obj [("error", JStr "no snapshot yet")]))
  /\ (forall k, mentions k (JBool (http_connected s')) = false)
  /\ (exists ds,
        delivered s' = delivered s ++ ds
        /\ forall d, d ∈ ds -> settled_by s ev (d_outcome d))
  /\ (forall msg id,
        get "id" msg = Some (JStr id) ->
        (truthy_opt (get "payload" msg) = true ->
         get "payload" msg = Some (response_value msg))
        /\ (truthy_opt (get "payload" msg) = false ->
            truthy_opt (get "result" msg) = true ->
            get "result" msg = Some (response_value msg))
        /\ (truthy_opt (get "payload" msg) = false ->
            truthy_opt (get "result" msg) = false ->
            response_value msg = msg
            /\ get "id" (response_value msg) = Some (JStr id)))
  /\ (forall method v reason,
        http_rpc_reply method (Resolved v) = (200%Z, v)
        /\ http_rpc_reply method (Rejected (Error reason)) =
             (502%Z, obj [("error", JStr reason); ("method", JStr method)]))
  /\ (gwSnapshot s' = gwSnapshot s
      \/ (exists now u inst msg payload,
            ev = SockMessage now u inst (Some msg)
            /\ get "type" msg = Some (JStr "event")
            /\ get "event" msg = Some (JStr "health")
            /\ get "payload" msg = Some payload
            /\ gwSnapshot s' =
                 JObj (<["health" := payload]> (spread (gwSnapshot s)))
            /\ (forall k, internal_id k -> mentions k (gwSnapshot s') = true ->
                  mentions k payload = true \/ mentions k (gwSnapshot s) = true))
      \/ (exists now u inst msg id e,
            ev = SockMessage now u inst (Some msg)
            /\ get "type" msg = Some (JStr "res")
            /\ get "id" msg = Some (JStr id)
            /\ JsMap.get id (gwPending s) = Some e /\ kind e = EAuth
            /\ get "ok" msg <> Some (JBool false)
            /\ gwSnapshot s' =
                 or_else (get "snapshot" (response_value msg)) (response_value msg)
            /\ (forall k, mentions k (gwSnapshot s') = true ->
                  mentions k (response_value msg) = true)))
  /\ (forall d,
        exec (renumber d s) (renumber_event d ev) = Some (renumber d s')
        /\ boundary (renumber d s') = boundary s').
Proof.
  intros Hr Hex. pose proof (Inv_reachable s Hr) as HI.
  split; [done|].
  split.
  { destruct (exec_gwEvents s ev s' Hex)
      as [Hsame|(now & u & inst & msg & -> & Hty & Hne & Hpush)]; [by left|].
    right. exists now, u, inst, msg.
    destruct (event_record_fields now msg Hty) as [Hkeys Htime].
    do 6 (split; [done|]). intros k. by apply mentions_event_record. }
  split; [done|].
  split; [by apply http_snapshot_cases|].
  split; [done|].
  split; [by apply exec_delivered|].
  split.
  { intros msg id Hid. destruct (response_value_cases msg) as (Hp & Hrs & Hm).
    split; [done|]. split; [done|]. intros H1 H2.
    rewrite (Hm H1 H2). done. }
  split; [done|].
  split.
  { destruct (exec_gwSnapshot s ev s' Hex)
      as [Hsame|[(now & u & inst & msg & payload & -> & Hty & Hev & Hp & Hsnap)
                |(now & u & inst & msg & id & e & -> & Hty & Hid & Hget & Hk & Hok & Hsnap)]].
    - by left.
    - right. left. exists now, u, inst, msg, payload.
      do 5 (split; [done|]). intros k Hk. rewrite Hsnap.
      by apply mentions_health.
    - right. right. exists now, u, inst, msg, id, e.
      do 7 (split; [done|]). intros k. rewrite Hsnap.
      apply mentions_or_else. }
  intros d. split; [|done]. by rewrite renumber_exec, Hex.
Qed.

Definition answered : json :=
  obj [("type", JStr "res"); ("id", JStr "rpc-1");
       ("payload", obj [("uptime", JNum 42)])].

Lemma boundary_values_witness :
  reachable one_call
  /\ (exists s',
        exec one_call (inbound 3 bare_response) = Some s'
        /\ delivered s' =
             [{| d_target := Handshake; d_cause := ByResponse;
                 d_outcome := Resolved (obj [("snapshot", obj [("presence", JArr [])])]) |};
              {| d_target := Caller 0; d_cause := ByResponse;
                 d_outcome := Resolved bare_response |}]
        /\ gwEvents s' = [] /\ gwSnapshot s' = gwSnapshot one_call
        /\ runs_from (renumber 7 one_call) [inbound 3 bare_response] = true).
Proof.
  assert (Hr : reachable one_call) by (apply reachable_after; by_evaluation).
  split; [exact Hr|].
  assert (Hex : exec one_call (inbound 3 bare_response) =
                Some (after_from one_call [inbound 3 bare_response])).
  { rewrite <- run_single. apply run_after_from. by_evaluation. }
  destruct (boundary_values _ _ _ Hr Hex)
    as (_ & Hev & _ & _ & _ & (ds & Hd & Hds) & _ & _ & Hsnap & Hren).
  eexists. split; [exact Hex|].
  split; [by_evaluation|]. split; [by_evaluation|].
  split; [by_evaluation|].
  pose proof (proj1 (Hren 7%N)) as Hrun.
  change (exec (renumber 7 one_call) (inbound 3 bare_response) =
          Some (renumber 7 (after_from one_call [inbound 3 bare_response]))) in Hrun.
  unfold runs_from. rewrite run_single, Hrun. done.
Defined.

(** * Further properties of the gateway client *)

(** ** Connecting *)

Lemma gwConnect_cases s :
  (gwConnect s = s
   /\ exists ws, gwSocket s = Some ws
                 /\ (readyState ws = OPEN \/ readyState ws = CONNECTING))
  \/ gwConnect s = set_gwReady false (set_gwSocket (Some new_WebSocket) s).
Proof.
  unfold gwConnect. destruct (gwSocket s) as [ws|] eqn:Hs; [|by right].
  destruct (readyState ws) eqn:Hrs; try (by right); left; eauto.
Qed.

(** X1. [gwConnect] is idempotent: it leaves a client whose socket is open
    or connecting as it is, it always leaves a socket that is open or
    connecting, and calling it again changes nothing. It never touches
    the pending map, the timers or the counters. *)
Theorem gwConnect_idempotent s :
  gwConnect (gwConnect s) = gwConnect s
  /\ (exists ws, gwSocket (gwConnect s) = Some ws
                 /\ (readyState ws = OPEN \/ readyState ws = CONNECTING))
  /\ (forall ws, gwSocket s = Some ws ->
        readyState ws = OPEN \/ readyState ws = CONNECTING -> gwConnect s = s)
  /\ gwPending (gwConnect s) = gwPending s
  /\ timers (gwConnect s) = timers s
  /\ gwReqId (gwConnect s) = gwReqId s.
Proof.
  destruct (gwConnect_fields s) as (Hp & Ht & _ & _ & Hq).
  split; [|split; [|split; [|done]]].
  - destruct (gwConnect_cases s) as [[Heq _]|Heq]; rewrite Heq; [done|].
    reflexivity.
  - destruct (gwConnect_cases s) as [[Heq Hws]|Heq]; rewrite Heq; [done|].
    simpl. eauto.
  - intros ws Hs Hrs. unfold gwConnect. rewrite Hs.
    by destruct Hrs as [-> | ->].
Qed.

Lemma gwConnect_idempotent_witness :
  gwConnect (boot sample_env) = boot sample_env
  /\ gwSocket (gwConnect (globals sample_env)) = Some new_WebSocket.
Proof.
  destruct (gwConnect_idempotent (globals sample_env)) as (Hidem & _).
  split; [exact Hidem|reflexivity].
Defined.

(** ** The message handler *)

(** The response branch throws exactly when [new Error] does. *)
Lemma onResponse_throws msg s m :
  onResponse msg s = Throw m <->
  exists k e, get "id" msg = Some (JStr k)
    /\ JsMap.get k (gwPending s) = Some e
    /\ get "ok" msg = Some (JBool false)
    /\ ToString (or_else (get_opt "message" (get "error" msg)) (JStr "RPC error"))
       = Throw m.
Proof.
  split.
  - unfold onResponse. destruct (get "id" msg) as [[| | |k| |]|] eqn:Hid; try done.
    destruct (JsMap.get k (gwPending s)) as [e|] eqn:Hget; [|done].
    unfold not_false. destruct (get "ok" msg) as [[| [|] | | | |]|] eqn:Hok; try done.
    unfold response_error, new_Error.
    destruct (ToString _) as [r|m'] eqn:Hr; [done|]. intros [= <-].
    by exists k, e.
  - intros (k & e & Hid & Hget & Hok & Hr).
    rewrite (onResponse_matched msg k e s Hid Hget).
    unfold response_outcome, response_error, new_Error. by rewrite Hok, Hr.
Qed.

(** X2. On a socket that is open or closing the message handler throws on
    exactly two kinds of input: the frame that parses to [null], and a
    response with [ok] false that matches a pending entry and whose error
    message [new Error] cannot turn into a string, that is, a message
    that is an object with a key [toString] or an array holding such a
    value. Every other input, data that does not parse included, is
    handled. *)
Theorem onMessage_throws_iff now id inst data s ws :
  gwSocket s = Some ws -> readyState ws <> CONNECTING ->
  ((exists m, onMessage now id inst data s = Throw m) <->
   (data = Some JNull
    \/ exists msg k e,
         data = Some msg
         /\ get "type" msg = Some (JStr "res")
         /\ get "id" msg = Some (JStr k) /\ k <> ""
         /\ JsMap.get k (gwPending s) = Some e
         /\ get "ok" msg = Some (JBool false)
         /\ unconvertible (or_else (get_opt "message" (get "error" msg))
                             (JStr "RPC error")) = true))
  /\ ((forall m, onMessage now id inst data s <> Throw m) ->
      exists s', onMessage now id inst data s = Ok s').
Proof.
  intros Hs Hc. split; [split|].
  - intros [m H]. destruct data as [msg|]; [|done].
    assert (Hnull : msg = JNull \/ msg <> JNull)
      by (destruct msg; (by left) || (by right)).
    destruct Hnull as [->|Hnn]; [by left|]. right.
    assert (Hbody :
      (if is_challenge msg
       then
         if negb (truthy_opt (get_opt "nonce" (get "payload" msg)))
         then match gwSocket s with
              | None => Throw "TypeError: Cannot read properties of null (reading 'close')"
              | Some ws => Ok (set_gwSocket (Some (ws_close 1008 "no nonce" ws)) s)
              end
         else gwSendConnect (default JNull (get_opt "nonce" (get "payload" msg))) id inst s
       else if is_str "event" (get "type" msg) then Ok (onEvent now msg s)
       else if is_response msg then onResponse msg s else Ok s) = Throw m).
    { unfold onMessage, is_challenge, is_response in *. by destruct msg. }
    clear H. destruct (is_challenge msg).
    + destruct (negb _); [by rewrite Hs in Hbody|].
      unfold gwSendConnect in Hbody. by rewrite Hs, ws_send_Ok in Hbody.
    + destruct (is_str "event" _); [done|].
      destruct (is_response msg) eqn:Hr; [|done].
      apply andb_true_iff in Hr as [Hty Hid]. apply is_str_true in Hty.
      apply onResponse_throws in Hbody as (k & e & Hk & Hget & Hok & Htxt).
      exists msg, k, e. repeat (split; [done|]).
      split; [intros ->; by rewrite Hk in Hid|].
      do 2 (split; [done|]). apply ToString_throws. eauto.
  - intros [->|(msg & k & e & -> & Hty & Hid & Hne & Hget & Hok & Htxt)].
    + simpl. eauto.
    + apply ToString_throws in Htxt as [m Htxt].
      exists m. rewrite (onMessage_response now id inst msg k s) by done.
      apply onResponse_throws. by exists k, e.
  - intros Hno. destruct (onMessage now id inst data s) as [s'|m] eqn:E; [eauto|].
    by destruct (Hno m).
Qed.

Lemma onMessage_throws_iff_witness :
  (exists m, onMessage 1 uuid_a uuid_b (Some JNull) two_calls = Throw m)
  /\ (exists m, onMessage 1 uuid_a uuid_b (Some (unconvertible_error "rpc-2")) two_calls
                = Throw m)
  /\ (exists s', onMessage 1 uuid_a uuid_b
                   (Some (unconvertible_error "rpc-9")) two_calls = Ok s').
Proof.
  assert (Hs : gwSocket two_calls =
               Some {| readyState := OPEN;
                       outbox := [connect_frame uuid_a uuid_b sample_env;
                                  call_frame "a" "rpc-1" None;
                                  call_frame "b" "rpc-2" None];
                       closeArgs := None |}) by by_evaluation.
  split; [|split].
  - apply (onMessage_throws_iff 1 uuid_a uuid_b (Some JNull) two_calls _ Hs);
      [discriminate|]. by left.
  - apply (onMessage_throws_iff 1 uuid_a uuid_b
             (Some (unconvertible_error "rpc-2")) two_calls _ Hs); [discriminate|].
    right. exists (unconvertible_error "rpc-2"), "rpc-2",
             {| kind := ECall 1; timer := 2 |}.
    split; [reflexivity|]. split; [by_evaluation|]. split; [by_evaluation|].
    split; [discriminate|]. split; [by_evaluation|]. split; by_evaluation.
  - apply (onMessage_throws_iff 1 uuid_a uuid_b
             (Some (unconvertible_error "rpc-9")) two_calls _ Hs); [discriminate|].
    intros m H.
    assert (Hok : match onMessage 1 uuid_a uuid_b
                          (Some (unconvertible_error "rpc-9")) two_calls with
                  | Ok _ => true
                  | Throw _ => false
                  end = true) by by_evaluation.
    rewrite H in Hok. discriminate Hok.
Defined.

(** X3. Frames the handler does not recognise leave the whole state as it
    is: data that does not parse, a frame (other than [null]) whose type
    is neither 'event' nor 'res', a response without a truthy id, and a
    response whose id is not a string or is not a key of the pending
    map. *)
Theorem unrecognised_frames_dropped now id inst data s :
  data = None
  \/ (exists msg, data = Some msg /\ msg <> JNull
        /\ get "type" msg <> Some (JStr "event")
        /\ (get "type" msg <> Some (JStr "res")
            \/ truthy_opt (get "id" msg) = false
            \/ forall k, get "id" msg = Some (JStr k) ->
                         JsMap.get k (gwPending s) = None)) ->
  onMessage now id inst data s = Ok s.
Proof.
  intros [->|(msg & -> & Hnn & He & Hr)]; [done|].
  assert (is_str "event" (get "type" msg) = false) as Hev by by apply is_str_false.
  assert (Hbody :
    (if is_str "event" (get "type" msg) && is_str "connect.challenge" (get "event" msg)
     then
       if negb (truthy_opt (get_opt "nonce" (get "payload" msg)))
       then match gwSocket s with
            | None => Throw "TypeError: Cannot read properties of null (reading 'close')"
            | Some ws => Ok (set_gwSocket (Some (ws_close 1008 "no nonce" ws)) s)
            end
       else gwSendConnect (default JNull (get_opt "nonce" (get "payload" msg))) id inst s
     else if is_str "event" (get "type" msg) then Ok (onEvent now msg s)
     else if is_str "res" (get "type" msg) && truthy_opt (get "id" msg)
     then onResponse msg s else Ok s) = Ok s).
  { rewrite Hev. simpl. destruct (_ && _) eqn:Hres; [|done].
    apply andb_true_iff in Hres as [Hty Hid]. apply is_str_true in Hty.
    destruct Hr as [Hr|[Hr|Hr]]; [done|congruence|].
    unfold onResponse. destruct (get "id" msg) as [[]|]; try done.
    by rewrite (Hr _ eq_refl). }
  unfold onMessage. destruct msg; try exact Hbody. done.
Qed.

Lemma unrecognised_frames_dropped_witness :
  onMessage 1 uuid_a uuid_b (Some (obj [("type", JStr "ping")])) two_calls
    = Ok two_calls
  /\ onMessage 1 uuid_a uuid_b
       (Some (obj [("type", JStr "res"); ("id", JStr "rpc-9")])) two_calls
     = Ok two_calls.
Proof.
  split.
  - apply unrecognised_frames_dropped. right.
    exists (obj [("type", JStr "ping")]). split; [reflexivity|].
    split; [discriminate|]. split; [vm_compute; discriminate|].
    left. vm_compute. discriminate.
  - apply unrecognised_frames_dropped. right.
    exists (obj [("type", JStr "res"); ("id", JStr "rpc-9")]).
    split; [reflexivity|]. split; [discriminate|].
    split; [vm_compute; discriminate|].
    right. right. intros k Hk.
    assert (Hid : get "id" (obj [("type", JStr "res"); ("id", JStr "rpc-9")])
                  = Some (JStr "rpc-9")) by by_evaluation.
    rewrite Hid in Hk. injection Hk as <-. by_evaluation.
Defined.

(** X13. A response frame is matched with the pending entry stored under
    its [id], whatever the order in which the requests were sent: the
    entry is removed, every other entry stays and its timer is cancelled.
    Unless [ok] is [false], [resolve] is invoked once, with the response
    value. With [ok] false, [reject] is invoked once with an [Error] whose
    message is the frame's error message as a string: the message itself
    when it is a non-empty string, "RPC error" when the frame has no
    truthy message. When the message cannot be turned into a string the
    handler throws and [reject] is not invoked. *)
Theorem response_settles_matched_entry now u inst msg id e s :
  get "type" msg = Some (JStr "res") ->
  get "id" msg = Some (JStr id) -> id <> "" ->
  JsMap.get id (gwPending s) = Some e ->
  let reason := or_else (get_opt "message" (get "error" msg)) (JStr "RPC error") in
  let settled o s' :=
    onMessage now u inst (Some msg) s = Ok s'
    /\ JsMap.get id (gwPending s') = None
    /\ (forall id', id' <> id ->
          JsMap.get id' (gwPending s') = JsMap.get id' (gwPending s))
    /\ timers s' = base.delete (timer e) (timers s)
    /\ delivered s' =
         delivered s ++ [{| d_target := target_of e; d_cause := ByResponse;
                            d_outcome := o |}] in
  (get "ok" msg <> Some (JBool false) ->
   exists s', settled (Resolved (response_value msg)) s')
  /\ (get "ok" msg = Some (JBool false) ->
      match ToString reason with
      | Ok text => exists s', settled (Rejected (Error text)) s'
      | Throw m => onMessage now u inst (Some msg) s = Throw m
      end)
  /\ (forall m, get_opt "message" (get "error" msg) = Some (JStr m) -> m <> "" ->
        ToString reason = Ok m)
  /\ (truthy_opt (get_opt "message" (get "error" msg)) = false ->
      ToString reason = Ok "RPC error").
Proof.
  intros Hty Hid Hne Hget reason settled.
  assert (Hrun : onMessage now u inst (Some msg) s =
                 match response_outcome msg with
                 | Ok o => Ok (matched o id e s)
                 | Throw m => Throw m
                 end).
  { rewrite (onMessage_response now u inst msg id s) by done.
    by apply onResponse_matched. }
  assert (Hset : forall o, response_outcome msg = Ok o ->
                           settled o (matched o id e s)).
  { intros o Ho. unfold settled. rewrite Hrun, Ho.
    destruct (matched_fields o id e s) as (Hp & Ht & _).
    rewrite Hp, Ht, matched_delivered.
    split; [done|]. split; [apply get_delete_eq|].
    split; [intros id' Hid'; by apply get_delete_ne|]. done. }
  split; [|split; [|split]].
  - intros Hok. eexists. apply Hset. unfold response_outcome, not_false.
    destruct (get "ok" msg) as [[| [|] | | | |]|]; done.
  - intros Hok. destruct (ToString reason) as [text|m] eqn:Hr.
    + eexists. apply Hset. unfold response_outcome, response_error, new_Error.
      rewrite Hok. simpl. fold reason. by rewrite Hr.
    + rewrite Hrun. unfold response_outcome, response_error, new_Error.
      rewrite Hok. simpl. fold reason. by rewrite Hr.
  - intros m Hm Hnem. unfold reason. rewrite Hm. simpl. by destruct m.
  - intros Hfalsy. unfold reason, or_else.
    destruct (get_opt "message" (get "error" msg)) as [x|]; [|done].
    simpl in Hfalsy. by rewrite Hfalsy.
Qed.

Lemma response_settles_matched_entry_witness :
  (exists s',
     onMessage 3 uuid_a uuid_b
       (Some (obj [("type", JStr "res"); ("id", JStr "rpc-2")])) two_calls = Ok s'
     /\ JsMap.get "rpc-2" (gwPending s') = None
     /\ JsMap.get "rpc-1" (gwPending s') = Some {| kind := ECall 0; timer := 1 |}
     /\ settle_count (Caller 1) s' = 1%nat
     /\ settle_count (Caller 0) s' = 0%nat)
  /\ (exists s',
        onMessage 3 uuid_a uuid_b (Some (auth_rejected "rpc-2")) two_calls = Ok s'
        /\ last (delivered s') =
             Some {| d_target := Caller 1; d_cause := ByResponse;
                     d_outcome := Rejected (Error "unauthorized") |}).
Proof.
  split.
  - destruct (response_settles_matched_entry 3 uuid_a uuid_b
                (obj [("type", JStr "res"); ("id", JStr "rpc-2")]) "rpc-2"
                {| kind := ECall 1; timer := 2 |} two_calls)
      as (Hres & _); try by_evaluation; [discriminate|].
    destruct Hres as (s' & Hs' & Hgone & Hother & _ & Hd);
      [vm_compute; discriminate|].
    exists s'. split; [exact Hs'|]. split; [exact Hgone|].
    split; [rewrite Hother by discriminate; by_evaluation|].
    unfold settle_count. rewrite Hd. split; by_evaluation.
  - destruct (response_settles_matched_entry 3 uuid_a uuid_b
                (auth_rejected "rpc-2") "rpc-2"
                {| kind := ECall 1; timer := 2 |} two_calls)
      as (_ & Hrej & _); try by_evaluation; [discriminate|].
    assert (Hok : get "ok" (auth_rejected "rpc-2") = Some (JBool false))
      by by_evaluation.
    specialize (Hrej Hok).
    assert (Htext : ToString (or_else (get_opt "message"
                                (get "error" (auth_rejected "rpc-2")))
                                (JStr "RPC error")) = Ok "unauthorized")
      by by_evaluation.
    rewrite Htext in Hrej. destruct Hrej as (s' & Hs' & _ & _ & _ & Hd).
    exists s'. split; [exact Hs'|]. rewrite Hd. apply last_snoc.
Defined.

(** ** Events and the snapshot *)

(** X4. A 'health' event with a truthy payload stores the payload under
    the key [health] of the snapshot and keeps every other key of the
    snapshot as it was; the event is recorded in the buffer as well. *)
Theorem health_event_merges_snapshot now id inst msg payload s :
  get "type" msg = Some (JStr "event") ->
  get "event" msg = Some (JStr "health") ->
  get "payload" msg = Some payload -> truthy payload = true ->
  exists s',
    onMessage now id inst (Some msg) s = Ok s'
    /\ get "health" (gwSnapshot s') = Some payload
    /\ (forall k, k <> "health" ->
          get k (gwSnapshot s') = spread (gwSnapshot s) !! k)
    /\ last (gwEvents s') = Some (event_record now msg).
Proof.
  intros Hty Hev Hpl Htr. exists (onEvent now msg s).
  split; [apply onMessage_event; [done|by rewrite Hev]|].
  rewrite onEvent_gwEvents. split; [|split; [|apply push_event_last]].
  - unfold onEvent. rewrite Hev, Hpl. simpl. rewrite Htr. simpl.
    apply lookup_insert_eq.
  - intros k Hk. unfold onEvent. rewrite Hev, Hpl. simpl. rewrite Htr. simpl.
    by apply lookup_insert_ne.
Qed.

Definition health_event (payload : json) : json :=
  obj [("type", JStr "event"); ("event", JStr "health"); ("payload", payload)].

Lemma health_event_merges_snapshot_witness :
  exists s',
    onMessage 7 uuid_a uuid_b (Some (health_event (obj [("ok", JBool true)])))
      (after handshake) = Ok s'
    /\ get "health" (gwSnapshot s') = Some (obj [("ok", JBool true)])
    /\ get "presence" (gwSnapshot s') = Some (JArr []).
Proof.
  destruct (health_event_merges_snapshot 7 uuid_a uuid_b
              (health_event (obj [("ok", JBool true)])) (obj [("ok", JBool true)])
              (after handshake))
    as (s' & Hs' & Hh & Hother & _); try by_evaluation.
  exists s'. split; [exact Hs'|]. split; [exact Hh|].
  rewrite Hother by discriminate. by_evaluation.
Defined.

(** X5. An event frame changes nothing but the event buffer and the
    snapshot, and the snapshot only when the event is 'health' with a
    truthy payload. The challenge frame is not an event in this sense: it
    is never put in the buffer and never changes the snapshot. *)
Theorem event_frames_only_touch_buffer_and_snapshot now id inst msg s s' :
  get "type" msg = Some (JStr "event") ->
  onMessage now id inst (Some msg) s = Ok s' ->
  gwReady s' = gwReady s /\ gwReqId s' = gwReqId s
  /\ delivered s' = delivered s /\ gwReconnectTimer s' = gwReconnectTimer s
  /\ (get "event" msg = Some (JStr "connect.challenge") ->
      gwEvents s' = gwEvents s /\ gwSnapshot s' = gwSnapshot s)
  /\ (get "event" msg <> Some (JStr "connect.challenge") ->
      gwSocket s' = gwSocket s /\ gwPending s' = gwPending s
      /\ timers s' = timers s
      /\ gwEvents s' = push_event (event_record now msg) (gwEvents s)
      /\ (get "event" msg <> Some (JStr "health")
          \/ truthy_opt (get "payload" msg) = false ->
          gwSnapshot s' = gwSnapshot s)).
Proof.
  intros Hty H. apply is_str_true in Hty.
  apply onMessage_inv in H as [[[=] _]|(m & [= <-] & Hnn & H)].
  unfold is_challenge, is_response in H. rewrite Hty in H. simpl in H.
  destruct H as [(Hc & _ & ws & Hs & ->)|[(Hc & _ & Hsend)|[(Hc & _ & ->)|[(? & _)|(? & _)]]]];
    try done.
  - apply is_str_true in Hc. simpl. do 4 (split; [done|]).
    split; [done|]. by intros Hne.
  - apply is_str_true in Hc.
    apply gwSendConnect_Ok in Hsend as (ws & Hs & _ & ->). simpl.
    do 4 (split; [done|]). split; [done|]. by intros Hne.
  - apply is_str_false in Hc.
    destruct (onEvent_frame now msg s) as (Hs & Hr & Hp & Hq & Hrt & Ht & Hd).
    do 4 (split; [done|]). split; [done|]. intros _.
    do 3 (split; [done|]). split; [apply onEvent_gwEvents|].
    intros Hnh. unfold onEvent.
    destruct (is_str "health" (get "event" msg)) eqn:Hh; [|done].
    destruct (truthy_opt (get "payload" msg)) eqn:Htp; [|done].
    apply is_str_true in Hh. by destruct Hnh.
Qed.

Lemma event_frames_only_touch_buffer_and_snapshot_witness :
  exists s',
    onMessage 5 uuid_a uuid_b (Some (tick_event [])) (after handshake) = Ok s'
    /\ gwSnapshot s' = gwSnapshot (after handshake)
    /\ gwPending s' = gwPending (after handshake).
Proof.
  assert (Hty : get "type" (tick_event []) = Some (JStr "event")) by by_evaluation.
  assert (Hev : get "event" (tick_event []) <> Some (JStr "connect.challenge"))
    by (vm_compute; discriminate).
  pose proof (onMessage_event 5 uuid_a uuid_b (tick_event []) (after handshake)
                Hty Hev) as Hrun.
  destruct (event_frames_only_touch_buffer_and_snapshot 5 uuid_a uuid_b
              (tick_event []) (after handshake) _ Hty Hrun)
    as (_ & _ & _ & _ & _ & Hother).
  destruct (Hother Hev) as (_ & Hp & _ & _ & Hsnap).
  eexists. split; [exact Hrun|]. split; [|exact Hp].
  apply Hsnap. left. vm_compute. discriminate.
Defined.

(** ** The handshake *)

(** X6. The nonce of the challenge is only tested for truthiness: two
    challenge frames with different truthy nonces leave the same state and
    send the same connect frame. *)
Theorem challenge_nonce_not_used now id inst msg1 msg2 s :
  is_challenge msg1 = true -> is_challenge msg2 = true ->
  truthy_opt (get_opt "nonce" (get "payload" msg1)) = true ->
  truthy_opt (get_opt "nonce" (get "payload" msg2)) = true ->
  onMessage now id inst (Some msg1) s = onMessage now id inst (Some msg2) s.
Proof.
  intros Hc1 Hc2 Hn1 Hn2.
  assert (Hshape : forall msg, is_challenge msg = true ->
            truthy_opt (get_opt "nonce" (get "payload" msg)) = true ->
            onMessage now id inst (Some msg) s =
            gwSendConnect JNull id inst s).
  { intros msg Hc Hn. unfold is_challenge in Hc.
    assert (Hobj : exists m, msg = JObj m).
    { apply andb_true_iff in Hc as [Hc _]. apply is_str_true in Hc.
      apply get_Some_obj in Hc as (m & -> & _). eauto. }
    destruct Hobj as (m & ->). unfold onMessage. rewrite Hc, Hn. done. }
  by rewrite (Hshape msg1), (Hshape msg2).
Qed.

Lemma challenge_nonce_not_used_witness :
  onMessage 1 uuid_a uuid_b (Some (challenge (obj [("nonce", JStr "n-1")])))
    (after [SockOpen])
  = onMessage 1 uuid_a uuid_b (Some (challenge (obj [("nonce", JNum 42)])))
      (after [SockOpen]).
Proof.
  apply challenge_nonce_not_used; by_evaluation.
Defined.

Lemma gwCall_gwReady method args timeoutMs s :
  gwReady (gwCall method args timeoutMs s) = gwReady s.
Proof.
  unfold gwCall. simpl. destruct (gwSocket s) as [ws|]; [|done].
  destruct (gwReady s) eqn:E; simpl; [|done].
  destruct (ws_send _ ws); simpl; by rewrite ?E.
Qed.

(** X7. The client becomes ready in one way only: by a response frame
    whose id is the key of the pending connect request and whose [ok] is
    not [false]; the same step sets the snapshot from the response. No
    other event of the loop turns [gwReady] from false to true. *)
Theorem ready_only_after_connect_accepted s ev s' :
  exec s ev = Some s' -> gwReady s = false -> gwReady s' = true ->
  exists now u inst msg id e,
    ev = SockMessage now u inst (Some msg)
    /\ get "type" msg = Some (JStr "res") /\ get "id" msg = Some (JStr id)
    /\ JsMap.get id (gwPending s) = Some e /\ kind e = EAuth
    /\ get "ok" msg <> Some (JBool false)
    /\ gwSnapshot s' =
         or_else (get "snapshot" (response_value msg)) (response_value msg).
Proof.
  intros Hex Hoff Hon.
  destruct ev as [|now id inst data| | |h|dt|method args t]; simpl in Hex.
  - destruct (gwSocket s) as [ws|] eqn:Hs; [|done].
    destruct (readyState ws); try done. injection Hex as <-.
    unfold onOpen in Hon. rewrite Hs in Hon. simpl in Hon. congruence.
  - destruct (gwSocket s) as [ws|] eqn:Hs; [|done].
    assert (Hmsg : onMessage now id inst data s = Ok s').
    { destruct (readyState ws); try done; (destruct (_ && _); [|done]);
        destruct (onMessage _ _ _ _ _) as [s1|] eqn:E; try done; congruence. }
    clear Hex. apply onMessage_inv in Hmsg as [[_ ->]|(msg & -> & Hnn & H)];
      [congruence|].
    destruct H as [(_ & _ & ws0 & _ & ->)|[(_ & _ & Hsend)|[(_ & _ & ->)|[(_ & Hr & Hres)|(_ & _ & ->)]]]].
    + simpl in Hon. congruence.
    + apply gwSendConnect_Ok in Hsend as (ws0 & _ & _ & ->). simpl in Hon. congruence.
    + destruct (onEvent_frame now msg s) as (_ & Hrd & _). congruence.
    + unfold is_response in Hr. apply andb_true_iff in Hr as [Hty _].
      apply is_str_true in Hty.
      apply onResponse_cases in Hres as [->|(k & e & o & Hid & Hget & Ho & ->)];
        [congruence|].
      exists now, id, inst, msg, k, e. split; [done|]. do 3 (split; [done|]).
      apply response_outcome_cases in Ho as [[Hok ->]|(_ & reason & _ & ->)];
        unfold matched, entry_resolve, entry_reject in *;
        destruct (kind e); simpl in *; try congruence; done.
    + congruence.
  - destruct (gwSocket s); [|done]. congruence.
  - destruct (gwSocket s); [|done]. injection Hex as <-.
    destruct (onClose_fields s) as (_ & _ & _ & Hrd & _). congruence.
  - destruct (timers s !! h) as [t|]; [|done].
    destruct (due t <=? clock s)%N; [|done]. injection Hex as <-.
    destruct (action t); simpl in Hon; try congruence.
    destruct (gwConnect_cases (set_gwReconnectTimer None (clearTimeout h s)))
      as [[Heq _]|Heq]; rewrite Heq in Hon; simpl in Hon; congruence.
  - injection Hex as <-. simpl in Hon. congruence.
  - injection Hex as <-. rewrite gwCall_gwReady in Hon. congruence.
Qed.

Lemma ready_only_after_connect_accepted_witness :
  gwReady awaiting_auth = false
  /\ gwReady (after_from awaiting_auth [inbound 2 (hello_ok uuid_a)]) = true
  /\ gwSnapshot (after_from awaiting_auth [inbound 2 (hello_ok uuid_a)]) =
       obj [("presence", JArr [])].
Proof.
  assert (Hoff : gwReady awaiting_auth = false) by by_evaluation.
  assert (Hon : gwReady (after_from awaiting_auth [inbound 2 (hello_ok uuid_a)]) = true)
    by by_evaluation.
  assert (Hex : exec awaiting_auth (inbound 2 (hello_ok uuid_a)) =
                Some (after_from awaiting_auth [inbound 2 (hello_ok uuid_a)])).
  { rewrite <- run_single. apply run_after_from. by_evaluation. }
  destruct (ready_only_after_connect_accepted _ _ _ Hex Hoff Hon)
    as (now & u & inst & msg & id & e & Hev & _ & _ & _ & _ & _ & Hsnap).
  split; [exact Hoff|]. split; [exact Hon|].
  injection Hev as _ _ _ <-. etransitivity; [exact Hsnap|]. by_evaluation.
Defined.

(** X8. In every reachable state a ready client has a socket that is past
    the connecting state. [gwCall] on it therefore never has [send] throw
    inside the promise executor: it leaves the new promise unsettled,
    stores its entry under the new id and arms its timer. *)
Theorem ready_call_is_registered method args timeoutMs s :
  reachable s -> gwReady s = true ->
  exists ws,
    gwSocket s = Some ws /\ readyState ws <> CONNECTING
    /\ delivered (gwCall method args timeoutMs s) = delivered s
    /\ settle_count (Caller (nextPromise s)) (gwCall method args timeoutMs s) = 0%nat
    /\ JsMap.get (rpc_id (incr (gwReqId s))) (gwPending (gwCall method args timeoutMs s))
       = Some {| kind := ECall (nextPromise s); timer := nextTimer s |}
    /\ timers (gwCall method args timeoutMs s) !! nextTimer s =
         Some {| due := (clock s + timer_delay (default 15000%N timeoutMs))%N;
                 action := TCall (rpc_id (incr (gwReqId s))) method (nextPromise s) |}.
Proof.
  intros Hr Hready. pose proof (Inv_reachable s Hr) as HI.
  destruct (inv_ready s HI Hready) as (ws & Hs & Hc).
  exists ws. split; [done|]. split; [done|].
  rewrite (gwCall_ready method args timeoutMs s ws) by done.
  split; [done|]. split.
  - apply settle_count_fresh. simpl. intros d Hin Heq.
    apply (inv_promise_fresh s HI d _ Hin) in Heq. lia.
  - split; [apply get_set_eq|]. simpl. apply lookup_insert_eq.
Qed.

Lemma ready_call_is_registered_witness :
  reachable (after handshake)
  /\ JsMap.get "rpc-1" (gwPending (gwCall "status.get" None None (after handshake)))
     = Some {| kind := ECall 0; timer := 1 |}.
Proof.
  assert (Hr : reachable (after handshake)) by (apply reachable_after; by_evaluation).
  split; [exact Hr|].
  destruct (ready_call_is_registered "status.get" None None (after handshake) Hr)
    as (ws & _ & _ & _ & _ & Hget & _); [by_evaluation|].
  etransitivity; [|exact Hget]. by_evaluation.
Defined.

(** ** Request ids *)

(** Every key of the pending map is the UUID of a connect request or an
    id made from a counter value already reached. *)
Definition keys_known (s : State) : Prop :=
  forall key e, JsMap.get key (gwPending s) = Some e ->
    is_uuid key = true \/ exists n, key = rpc_id n /\ (n <= gwReqId s)%N.

(** A key of the pending map after a step was there before the step, or
    is the UUID of a connect request, or is the id made from the counter
    as the step leaves it. *)
Lemma exec_pending_key s ev s' key v :
  exec s ev = Some s' ->
  JsMap.get key (gwPending s') = Some v ->
  JsMap.get key (gwPending s) = Some v
  \/ is_uuid key = true
  \/ key = rpc_id (gwReqId s').
Proof.
  destruct ev as [|now id inst data| | |h|dt|method args t]; simpl.
  - destruct (gwSocket s) as [ws|] eqn:Hs; [|done].
    destruct (readyState ws); try done. intros [= <-].
    unfold onOpen. rewrite Hs. simpl. auto.
  - destruct (gwSocket s) as [ws|] eqn:Hs; [|done].
    assert (Hmsg : is_uuid id = true -> forall s1,
              onMessage now id inst data s = Ok s1 ->
              JsMap.get key (gwPending s1) = Some v ->
              JsMap.get key (gwPending s) = Some v
              \/ is_uuid key = true \/ key = rpc_id (gwReqId s1)).
    { intros Hu s1 H. apply onMessage_cases in H
        as [->|[(ws0 & Hs0 & ->)|[(nonce & H)|[(msg & ->)|(msg & Hres)]]]].
      - auto.
      - simpl. auto.
      - apply gwSendConnect_Ok in H as (ws0 & _ & _ & ->). simpl.
        intros H. apply get_set_Some in H as [->|H]; auto.
      - destruct (onEvent_frame now msg s) as (_ & _ & -> & _). auto.
      - apply onResponse_cases in Hres as [->|(id' & e & o & _ & _ & _ & ->)]; [auto|].
        destruct (matched_fields o id' e s) as (-> & _).
        intros H. apply get_delete_Some in H. auto. }
    destruct (readyState ws); try done;
      (destruct (is_uuid id) eqn:Hu; simpl; [|done]);
      (destruct (is_uuid inst); simpl; [|done]);
      destruct (onMessage _ _ _ _ _) as [s1|] eqn:E; try done;
      intros [= <-]; by apply Hmsg.
  - destruct (gwSocket s); [|done]. intros [= <-]. auto.
  - destruct (gwSocket s); [|done]. intros [= <-].
    destruct (onClose_fields s) as (-> & _). done.
  - destruct (timers s !! h) as [t|] eqn:Hl; [|done].
    destruct (due t <=? clock s)%N; [|done]. intros [= <-].
    destruct (action t) as [id m p| id |]; simpl.
    + intros H. apply get_delete_Some in H. auto.
    + intros H. apply get_delete_Some in H. auto.
    + destruct (gwConnect_fields (set_gwReconnectTimer None (clearTimeout h s)))
        as (-> & _). simpl. auto.
  - intros [= <-]. simpl. auto.
  - intros [= <-]. unfold gwCall. simpl.
    destruct (gwSocket s) as [ws|] eqn:Hs; [|simpl; auto].
    destruct (gwReady s); simpl; [|auto].
    destruct (ws_send _ ws) as [ws'|msg]; simpl;
      intros H; apply get_set_Some in H as [->|H]; auto.
Qed.

Lemma keys_known_run tr :
  forall s s', keys_known s -> run s tr = Some s' -> keys_known s'.
Proof.
  induction tr as [|ev tr IH]; simpl; intros s s' Hk.
  - by intros [= <-].
  - destruct (exec s ev) as [s1|] eqn:E; [|done]. apply IH.
    destruct (exec_effect s ev s1 E) as (_ & Hq & _).
    intros key e Hget.
    destruct (exec_pending_key s ev s1 key e E Hget) as [Hold|[Hu|Hnew]].
    + destruct (Hk key e Hold) as [?|(n & -> & Hn)]; [by left|].
      right. exists n. split; [done|lia].
    + by left.
    + right. exists (gwReqId s1). split; [done|lia].
Qed.

Lemma keys_known_reachable s : reachable s -> keys_known s.
Proof.
  intros (e & tr & H). apply (keys_known_run tr (boot e)); [|done].
  intros key v Hget. done.
Qed.

(** X9. While the request counter is exact (below 2^53), the id [gwCall]
    takes is not a key of the pending map, so a call never replaces a
    live entry: every entry pending before the call is still pending
    under its key after it. *)
Theorem call_keeps_pending_entries method args timeoutMs s :
  reachable s -> (gwReqId s < max_safe)%N ->
  JsMap.get (rpc_id (incr (gwReqId s))) (gwPending s) = None
  /\ forall key e, JsMap.get key (gwPending s) = Some e ->
       JsMap.get key (gwPending (gwCall method args timeoutMs s)) = Some e.
Proof.
  intros Hr Hsafe. pose proof (keys_known_reachable s Hr) as Hk.
  assert (Hincr : incr (gwReqId s) = (gwReqId s + 1)%N).
  { unfold incr. by rewrite (proj2 (N.ltb_lt _ _) Hsafe). }
  assert (Hother : forall key e, JsMap.get key (gwPending s) = Some e ->
                                 key <> rpc_id (incr (gwReqId s))).
  { intros key e Hget ->. destruct (Hk _ e Hget) as [Hu|(n & Hn & Hle)].
    - by rewrite rpc_id_not_uuid in Hu.
    - apply rpc_id_inj in Hn. lia. }
  split.
  - destruct (JsMap.get _ (gwPending s)) as [e|] eqn:Hget; [|done].
    by destruct (Hother _ e Hget).
  - intros key e Hget. pose proof (Hother key e Hget) as Hne.
    unfold gwCall. simpl. destruct (gwSocket s) as [ws|]; [|done].
    destruct (gwReady s); simpl; [|done].
    destruct (ws_send _ ws); simpl; by rewrite get_set_ne.
Qed.

Lemma call_keeps_pending_entries_witness :
  reachable two_calls
  /\ JsMap.get "rpc-3" (gwPending two_calls) = None
  /\ JsMap.get "rpc-1" (gwPending (gwCall "c" None None two_calls))
     = Some {| kind := ECall 0; timer := 1 |}.
Proof.
  assert (Hr : reachable two_calls) by (apply reachable_after; by_evaluation).
  assert (Hsafe : (gwReqId two_calls < max_safe)%N) by (vm_compute; reflexivity).
  destruct (call_keeps_pending_entries "c" None None two_calls Hr Hsafe)
    as [Hfree Hkeep].
  split; [exact Hr|]. split.
  - etransitivity; [|exact Hfree]. by_evaluation.
  - apply Hkeep. by_evaluation.
Defined.

(** ** A call and its response *)

Lemma call_frame_fields method id args :
  get "type" (call_frame method id args) = Some (JStr "req")
  /\ get "method" (call_frame method id args) = Some (JStr method)
  /\ get "id" (call_frame method id args) = Some (JStr id)
  /\ get "params" (call_frame method id args) = Some (or_else args (obj [])).
Proof. repeat split. Qed.

(** X10. On a ready client with an open socket [gwCall] sends exactly one
    frame: a request with the method, with [args] as params ([{}] when
    [args] is missing or falsy) and with the id under which the entry is
    pending. A response frame that carries the id of that request and
    whose [ok] is not [false] resolves the promise of that call, once,
    with the response value. *)
Theorem call_then_response_resolves now u inst method args timeoutMs s ws :
  reachable s -> gwSocket s = Some ws -> readyState ws = OPEN ->
  gwReady s = true ->
  exists request ws1,
    gwSocket (gwCall method args timeoutMs s) = Some ws1
    /\ outbox ws1 = outbox ws ++ [request]
    /\ get "type" request = Some (JStr "req")
    /\ get "method" request = Some (JStr method)
    /\ get "params" request = Some (or_else args (obj []))
    /\ forall msg,
         get "type" msg = Some (JStr "res") ->
         get "id" msg = get "id" request ->
         get "ok" msg <> Some (JBool false) ->
         exists s2,
           onMessage now u inst (Some msg) (gwCall method args timeoutMs s) = Ok s2
           /\ last (delivered s2) =
                Some {| d_target := Caller (nextPromise s); d_cause := ByResponse;
                        d_outcome := Resolved (response_value msg) |}
           /\ settle_count (Caller (nextPromise s)) s2 = 1%nat.
Proof.
  intros Hr Hs Hopen Hready. pose proof (Inv_reachable s Hr) as HI.
  assert (Hc : readyState ws <> CONNECTING) by congruence.
  rewrite (gwCall_ready method args timeoutMs s ws) by done.
  set (id := rpc_id (incr (gwReqId s))).
  exists (call_frame method id args), (transmit (call_frame method id args) ws).
  destruct (call_frame_fields method id args) as (Hty & Hm & Hid & Hpar).
  split; [done|]. split; [unfold transmit; by rewrite Hopen|].
  do 3 (split; [done|]). intros msg Hmty Hmid Hok. rewrite Hid in Hmid.
  set (e := {| kind := ECall (nextPromise s); timer := nextTimer s |}).
  assert (Hget : JsMap.get id (gwPending (called method args timeoutMs ws s)) = Some e)
    by apply get_set_eq.
  exists (matched (Resolved (response_value msg)) id e
            (called method args timeoutMs ws s)).
  assert (Hnf : not_false (get "ok" msg) = true).
  { unfold not_false. destruct (get "ok" msg) as [[| [|] | | | |]|]; done. }
  split.
  { rewrite (onMessage_response now u inst msg id) by (done || apply rpc_id_not_empty).
    rewrite (onResponse_matched msg id e) by done.
    unfold response_outcome. by rewrite Hnf. }
  rewrite matched_delivered.
  split; [apply last_snoc|].
  unfold settle_count. rewrite matched_delivered.
  rewrite filter_app, length_app, filter_cons, filter_nil. simpl.
  rewrite decide_True by done. simpl.
  assert (Hz : settle_count (Caller (nextPromise s)) s = 0%nat).
  { apply settle_count_fresh. intros d Hin Heq.
    apply (inv_promise_fresh s HI d _ Hin) in Heq. lia. }
  unfold settle_count in Hz. rewrite Hz. done.
Qed.

Lemma call_then_response_resolves_witness :
  reachable (after handshake)
  /\ exists s2,
       onMessage 3 uuid_a uuid_b (Some answered)
         (gwCall "status.get" (Some (obj [])) None (after handshake)) = Ok s2
       /\ settle_count (Caller 0) s2 = 1%nat.
Proof.
  assert (Hr : reachable (after handshake)) by (apply reachable_after; by_evaluation).
  split; [exact Hr|].
  destruct (call_then_response_resolves 3 uuid_a uuid_b "status.get"
              (Some (obj [])) None (after handshake)
              {| readyState := OPEN;
                 outbox := [connect_frame uuid_a uuid_b sample_env];
                 closeArgs := None |} Hr)
    as (request & ws1 & Hsock & Hout & _ & _ & _ & Hres); try by_evaluation.
  assert (Hreq : get "id" request = Some (JStr "rpc-1")).
  { assert (Hsock' : outbox <$> gwSocket (gwCall "status.get" (Some (obj [])) None
                                            (after handshake)) =
                     Some ([connect_frame uuid_a uuid_b sample_env] ++
                           [call_frame "status.get" "rpc-1" (Some (obj []))]))
      by by_evaluation.
    rewrite Hsock in Hsock'. simpl in Hsock'. rewrite Hout in Hsock'.
    injection Hsock' as ->. reflexivity. }
  destruct (Hres answered) as (s2 & Hs2 & _ & Hcount).
  - by_evaluation.
  - rewrite Hreq. by_evaluation.
  - vm_compute. discriminate.
  - exists s2. split; [exact Hs2|exact Hcount].
Defined.

(** ** Promises and timers *)

(** X11. In every reachable state each promise returned by [gwCall],
    whether the call was accepted or rejected at once, is in one of two
    conditions: settled exactly once with no timer of its own armed, or
    unsettled with exactly one timer of its own armed. A promise not yet
    created has never been settled. No timer outlives the settlement of
    its call. *)
Theorem promise_settled_xor_timer_armed s p :
  reachable s ->
  ((p < nextPromise s)%N ->
     (settle_count (Caller p) s = 1%nat /\ forall h, ~ call_timer s h p)
     \/ (settle_count (Caller p) s = 0%nat
         /\ exists h, call_timer s h p /\ forall h', call_timer s h' p -> h' = h))
  /\ ((nextPromise s <= p)%N ->
      settle_count (Caller p) s = 0%nat /\ forall h, ~ call_timer s h p).
Proof.
  intros Hr. pose proof (Inv_reachable s Hr) as HI. split.
  - intros Hlt. destruct (inv_promise s HI p Hlt) as [Hone|[h Hh]].
    + left. split; [done|]. intros h Hh.
      apply (inv_timer_unsettled s HI) in Hh as [_ Hz]. lia.
    + right. split; [by apply (inv_timer_unsettled s HI h p)|].
      exists h. split; [done|]. intros h' Hh'. by apply (inv_timer_unique s HI h' h p).
  - intros Hge. split.
    + apply settle_count_fresh. intros d Hin Heq.
      apply (inv_promise_fresh s HI d _ Hin) in Heq. lia.
    + intros h Hh. apply (inv_timer_unsettled s HI) in Hh as [Hlt _]. lia.
Qed.

(** A call rejected at once, then a call that is pending. *)
Definition rejected_then_pending : State :=
  after ([Call "early" None None] ++ handshake ++ [Call "late" None None]).

Lemma promise_settled_xor_timer_armed_witness :
  reachable rejected_then_pending
  /\ settle_count (Caller 0) rejected_then_pending = 1%nat
  /\ settle_count (Caller 1) rejected_then_pending = 0%nat.
Proof.
  assert (Hr : reachable rejected_then_pending)
    by (apply reachable_after; by_evaluation).
  split; [exact Hr|].
  destruct (promise_settled_xor_timer_armed rejected_then_pending 0 Hr) as [H0 _].
  destruct (promise_settled_xor_timer_armed rejected_then_pending 1 Hr) as [H1 _].
  split.
  - destruct H0 as [[Hone _]|[Hz _]]; [vm_compute; reflexivity|exact Hone|].
    exfalso. assert (Hc : settle_count (Caller 0) rejected_then_pending = 1%nat)
      by by_evaluation. congruence.
  - destruct H1 as [[Hone _]|[Hz _]]; [vm_compute; reflexivity| |exact Hz].
    exfalso. assert (Hc : settle_count (Caller 1) rejected_then_pending = 0%nat)
      by by_evaluation. congruence.
Defined.

(** ** Between a close and the reconnect *)

Lemma gwCall_no_socket method args timeoutMs s :
  gwSocket s = None ->
  gwSocket (gwCall method args timeoutMs s) = None
  /\ gwPending (gwCall method args timeoutMs s) = gwPending s.
Proof. intros H. rewrite gwCall_guard by auto. done. Qed.

Lemma gwCall_socket method args timeoutMs s ws :
  gwSocket s = Some ws -> gwSocket (gwCall method args timeoutMs s) <> None.
Proof.
  intros Hs. unfold gwCall. simpl. rewrite Hs.
  destruct (gwReady s); simpl; [|by rewrite Hs].
  destruct (ws_send _ ws); simpl; by rewrite ?Hs.
Qed.

(** Without a socket nothing is pending. *)
Lemma no_socket_exec s ev s' :
  (gwSocket s = None -> gwPending s = []) ->
  exec s ev = Some s' -> gwSocket s' = None -> gwPending s' = [].
Proof.
  intros Hdown Hex Hnone.
  destruct ev as [|now id inst data| | |h|dt|method args t]; simpl in Hex.
  - destruct (gwSocket s) as [ws|] eqn:Hs; [|done].
    destruct (readyState ws); try done. injection Hex as <-.
    unfold onOpen in Hnone. by rewrite Hs in Hnone.
  - destruct (gwSocket s) as [ws|] eqn:Hs; [|done]. exfalso.
    assert (Hmsg : onMessage now id inst data s = Ok s').
    { destruct (readyState ws); try done; (destruct (_ && _); [|done]);
        destruct (onMessage _ _ _ _ _) as [s1|] eqn:E; try done; congruence. }
    apply onMessage_cases in Hmsg
      as [->|[(ws0 & Hs0 & ->)|[(nonce & H)|[(msg & ->)|(msg & Hres)]]]].
    + congruence.
    + done.
    + apply gwSendConnect_Ok in H as (ws0 & _ & _ & ->). done.
    + destruct (onEvent_frame now msg s) as (Heq & _). congruence.
    + apply onResponse_cases in Hres as [->|(id' & e & o & _ & _ & _ & ->)];
        [congruence|].
      unfold matched, entry_resolve, entry_reject in Hnone.
      destruct o; [destruct (kind e)|]; simpl in Hnone; congruence.
  - destruct (gwSocket s) eqn:Hs; [|done]. injection Hex as <-. congruence.
  - destruct (gwSocket s); [|done]. injection Hex as <-.
    by destruct (onClose_fields s) as (-> & _).
  - destruct (timers s !! h) as [t|]; [|done].
    destruct (due t <=? clock s)%N; [|done]. injection Hex as <-.
    destruct (action t); simpl in *.
    + rewrite (Hdown Hnone). done.
    + rewrite (Hdown Hnone). done.
    + exfalso.
      destruct (gwConnect_cases (set_gwReconnectTimer None (clearTimeout h s)))
        as [[Heq (ws & Hs & _)]|Heq]; rewrite Heq in Hnone; simpl in *; congruence.
  - injection Hex as <-. simpl in *. auto.
  - injection Hex as <-. destruct (gwSocket s) as [ws|] eqn:Hs.
    + by destruct (gwCall_socket method args t s ws Hs).
    + destruct (gwCall_no_socket method args t s Hs) as (_ & ->). auto.
Qed.

Lemma no_socket_run tr :
  forall s s', (gwSocket s = None -> gwPending s = []) ->
    run s tr = Some s' -> gwSocket s' = None -> gwPending s' = [].
Proof.
  induction tr as [|ev tr IH]; simpl; intros s s' Hdown.
  - by intros [= <-].
  - destruct (exec s ev) as [s1|] eqn:E; [|done].
    apply IH. by apply (no_socket_exec s ev).
Qed.

(** X12. In every reachable state without a socket (after a close, until
    the reconnect timer fires) the client is not ready and nothing is
    pending, and a call made then is rejected at once with "not connected
    to gateway". While a reconnect timer is armed the client is in that
    condition. *)
Theorem nothing_pending_without_socket s :
  reachable s ->
  (gwSocket s = None ->
     gwReady s = false /\ gwPending s = []
     /\ forall method args timeoutMs,
          delivered (gwCall method args timeoutMs s) =
          delivered s ++
          [{| d_target := Caller (nextPromise s); d_cause := ByGuard;
              d_outcome := Rejected (Error "not connected to gateway") |}])
  /\ (forall h, gwReconnectTimer s = Some h -> gwSocket s = None).
Proof.
  intros Hr. pose proof (Inv_reachable s Hr) as HI. split.
  - intros Hnone. split; [|split].
    + destruct (gwReady s) eqn:Hready; [|done].
      destruct (inv_ready s HI Hready) as (ws & Hs & _). congruence.
    + destruct Hr as (e & tr & Hrun).
      apply (no_socket_run tr (boot e) s); [|done|done].
      unfold boot. destruct (gwConnect_cases (globals e)) as [[Heq _]|Heq];
        rewrite Heq; done.
    + intros method args timeoutMs. rewrite gwCall_guard by auto. done.
  - intros h Hh. by apply (inv_reconnect_armed s HI h).
Qed.

(** The connection drops while three calls are pending. *)
Definition just_dropped : State :=
  after (handshake ++ [Call "a" None None; Call "b" None None; Call "c" None None;
                       SockClose]).

Lemma nothing_pending_without_socket_witness :
  reachable just_dropped
  /\ gwSocket just_dropped = None
  /\ gwPending just_dropped = [] /\ gwReady just_dropped = false.
Proof.
  assert (Hr : reachable just_dropped) by (apply reachable_after; by_evaluation).
  assert (Hnone : gwSocket just_dropped = None) by by_evaluation.
  destruct (nothing_pending_without_socket just_dropped Hr) as [Hdown _].
  destruct (Hdown Hnone) as (Hready & Hpending & _).
  split; [exact Hr|]. split; [exact Hnone|]. split; [exact Hpending|exact Hready].
Defined.
